(** * DNDS: notification store, delivery queue and dispatch front-end

    A shallow embedding of the Go packages [models], [store], [queue],
    [service] and [resolver], followed by the properties of the
    delivery pipeline.

    Conventions of the embedding.
    - Go's [int], [int64] and [time.Duration] are [Z] with the 64-bit
      wrap-around written out ([Go.wrap64]).
    - A [*models.Notification] is an address into a heap of notification
      records: the store, the channel and the retry sleepers all hold
      the same pointers, and a worker mutates the record they share.
    - A Go panic (nil dereference, [make] with a bad capacity, send on a
      closed channel) is the result [None], and so is the death of the
      process when [make] finds no memory.
    - Values drawn from the environment ([time.Now], [uuid.New], the
      failure coin, [time.Since], the memory the allocator can still
      provide) are arguments. *)

From Stdlib Require Import ZArith Lia Ascii String.
From stdpp Require Import gmap strings list fin_maps relations.

Open Scope Z_scope.

(* ------------------------------------------------------------------ *)
(** ** The Go runtime: machine integers and slices *)

Module Go.

(** Two's complement wrap-around of a 64-bit signed integer. *)
Definition wrap64 (z : Z) : Z := (z + 2 ^ 63) `mod` 2 ^ 64 - 2 ^ 63.

(** Conversion [int32(x)]. *)
Definition wrap32 (z : Z) : Z := (z + 2 ^ 31) `mod` 2 ^ 32 - 2 ^ 31.

Definition add (a b : Z) : Z := wrap64 (a + b).
Definition sub (a b : Z) : Z := wrap64 (a - b).
Definition mul (a b : Z) : Z := wrap64 (a * b).

(** [x++] on an [int]. *)
Definition incr (a : Z) : Z := add a 1.

Definition MaxInt64 : Z := 2 ^ 63 - 1.
Definition MinInt64 : Z := - 2 ^ 63.

(** The runtime's [maxAlloc] on 64-bit Linux (48 address bits) and the
    size of a pointer. *)
Definition maxAlloc : Z := 2 ^ 48.
Definition PtrSize : Z := 8.

(** [makeslice]: [make([]*T, 0, cap)] panics ("makeslice: cap out of
    range") unless [0 <= cap] and [cap * PtrSize <= maxAlloc]. Past
    this check the runtime asks for [cap * PtrSize] bytes; it gets them
    when the allocator can still provide that much and dies with "out
    of memory" when it cannot. How much the allocator can provide at
    the call is a fact of the environment, the argument [avail]. The
    panic and the death are both the answer [false]. *)
Definition makeslice_ok (avail cap : Z) : bool :=
  (0 <=? cap) && (cap * PtrSize <=? maxAlloc) && (cap * PtrSize <=? avail).

(** [time.Duration(math.Pow(2, float64(e)))]. A power of two with an
    exponent from 0 to 62 is exact in a float64 and converts to itself;
    for a negative exponent the power lies in [0, 1) and the conversion
    truncates it to 0; from exponent 63 on the float is outside int64,
    where amd64 yields the smallest int64. *)
Definition pow2_int64 (e : Z) : Z :=
  if e <? 0 then 0
  else if e <=? 62 then 2 ^ e
  else MinInt64.

End Go.

(* ------------------------------------------------------------------ *)
(** ** Package [time] *)

Module time.

(** A [Duration] is an int64 count of nanoseconds. *)
Definition Duration : Type := Z.

Definition Nanosecond : Duration := 1.
Definition Microsecond : Duration := 1000 * Nanosecond.
Definition Millisecond : Duration := 1000 * Microsecond.
Definition Second : Duration := 1000 * Millisecond.
Definition Minute : Duration := 60 * Second.
Definition Hour : Duration := 60 * Minute.

(** An instant: seconds since January 1, year 1 00:00:00 UTC and the
    nanoseconds within that second. The monotonic reading and the
    location of Go's [Time] carry no information used here. *)
Record Time : Type := mkTime { sec : Z; nsec : Z }.

(** Seconds from year 1 to the Unix epoch. *)
Definition unixToInternal : Z :=
  (1969 * 365 + 1969 / 4 - 1969 / 100 + 1969 / 400) * 86400.

(** [time.Unix(sec, nsec)]. *)
Definition Unix (s ns : Z) : Time :=
  let '(s, ns) :=
    if (ns <? 0) || (1000000000 <=? ns) then
      let n := Z.quot ns 1000000000 in
      let s := Go.add s n in
      let ns := Go.sub ns (Go.mul n 1000000000) in
      if ns <? 0 then (Go.sub s 1, Go.add ns 1000000000) else (s, ns)
    else (s, ns) in
  mkTime (Go.add s unixToInternal) ns.

(** [t.IsZero()]: the zero instant is January 1, year 1. *)
Definition IsZero (t : Time) : bool := (sec t =? 0) && (nsec t =? 0).

(** [t.Add(d)], with the saturation of [addSec]. *)
Definition Add (t : Time) (d : Duration) : Time :=
  let dsec := Z.quot d 1000000000 in
  let ns := nsec t + Z.rem d 1000000000 in
  let '(dsec, ns) :=
    if 1000000000 <=? ns then (Go.incr dsec, ns - 1000000000)
    else if ns <? 0 then (Go.sub dsec 1, ns + 1000000000)
    else (dsec, ns) in
  let sum := Go.add (sec t) dsec in
  let s :=
    if Bool.eqb (sec t <? sum) (0 <? dsec) then sum
    else if 0 <? dsec then Go.MaxInt64
    else - Go.MaxInt64 in
  mkTime s ns.

(** *** [Duration.String] *)

Definition digit (d : Z) : ascii := ascii_of_nat (Z.to_nat (48 + d)).

(** [fmtInt]: the decimal digits of [v] put in front of [buf]. The fuel
    bounds the number of digits (a uint64 has at most 20). *)
Fixpoint fmtInt_loop (fuel : nat) (buf : string) (v : Z) : string :=
  match fuel with
  | O => buf
  | S fuel =>
      if 0 <? v
      then fmtInt_loop fuel (String.String (digit (v `mod` 10)) buf) (v / 10)
      else buf
  end.

Definition fmtInt (buf : string) (v : Z) : string :=
  if v =? 0 then String.String (digit 0) buf else fmtInt_loop 20 buf v.

(** [fmtFrac]: the fraction of [v / 10^prec] without its trailing zeros,
    and [v / 10^prec]. *)
Fixpoint fmtFrac_loop (prec : nat) (buf : string) (v : Z) (print : bool)
  : string * Z * bool :=
  match prec with
  | O => (buf, v, print)
  | S prec =>
      let d := v `mod` 10 in
      let print := print || negb (d =? 0) in
      let buf := if print then String.String (digit d) buf else buf in
      fmtFrac_loop prec buf (v / 10) print
  end.

Definition fmtFrac (buf : string) (v : Z) (prec : nat) : string * Z :=
  let '(buf, v, print) := fmtFrac_loop prec buf v false in
  (if print then String.String "." buf else buf, v).

(** The two bytes of U+00B5, the micro sign. *)
Definition micro : string :=
  String.String (ascii_of_nat 194) (String.String (ascii_of_nat 181) EmptyString).

Definition String (d : Duration) : string :=
  let neg := d <? 0 in
  (* u := uint64(d); if neg { u = -u } *)
  let u := if neg then (- d) `mod` 2 ^ 64 else d `mod` 2 ^ 64 in
  let body :=
    if u <? Second then
      if u =? 0 then "0s"%string
      else if u <? Microsecond then
        let '(buf, u) := fmtFrac "ns"%string u 0 in fmtInt buf u
      else if u <? Millisecond then
        let '(buf, u) := fmtFrac (micro ++ "s")%string u 3 in fmtInt buf u
      else
        let '(buf, u) := fmtFrac "ms"%string u 6 in fmtInt buf u
    else
      let '(buf, u) := fmtFrac "s"%string u 9 in
      let buf := fmtInt buf (u `mod` 60) in
      let u := u / 60 in
      if 0 <? u then
        let buf := fmtInt (String.String "m" buf) (u `mod` 60) in
        let u := u / 60 in
        if 0 <? u then fmtInt (String.String "h" buf) u else buf
      else buf in
  if neg then String.String "-" body else body.

End time.

(* ------------------------------------------------------------------ *)
(** ** Package [models] *)

Module User.
Record t : Type := mk {
  ID : string;
  Username : string;
  FollowerIDs : list string;
  FollowingIDs : list string;
}.
End User.

Module Post.
Record t : Type := mk {
  ID : string;
  AuthorID : string;
  Content : string;
  CreatedAt : time.Time;
}.
End Post.

Inductive NotificationStatus : Type :=
| StatusUnknown
| StatusQueued
| StatusDelivered
| StatusFailed
| StatusRetrying.

(** The integer under each status constant ([iota] from 0). *)
Definition status_int (s : NotificationStatus) : Z :=
  match s with
  | StatusUnknown => 0
  | StatusQueued => 1
  | StatusDelivered => 2
  | StatusFailed => 3
  | StatusRetrying => 4
  end.

Module Notification.
Record t : Type := mk {
  ID : string;
  UserID : string;
  PostID : string;
  AuthorID : string;
  Content : string;
  CreatedAt : time.Time;
  Read : bool;
  Status : NotificationStatus;
  Attempts : Z;
}.

Definition set_Status (n : t) (s : NotificationStatus) : t :=
  mk (ID n) (UserID n) (PostID n) (AuthorID n) (Content n) (CreatedAt n)
     (Read n) s (Attempts n).

Definition set_Attempts (n : t) (a : Z) : t :=
  mk (ID n) (UserID n) (PostID n) (AuthorID n) (Content n) (CreatedAt n)
     (Read n) (Status n) a.
End Notification.

(** [NewNotification]; [id] is the value of [uuid.New().String()] and
    [now] the value of [time.Now()]. *)
Definition NewNotification (id : string) (now : time.Time)
    (userID : string) (post : Post.t) : Notification.t :=
  {| Notification.ID := id;
     Notification.UserID := userID;
     Notification.PostID := Post.ID post;
     Notification.AuthorID := Post.AuthorID post;
     Notification.Content := "New post from a user you follow";
     Notification.CreatedAt := now;
     Notification.Read := false;
     Notification.Status := StatusQueued;
     Notification.Attempts := 0 |}.

(** Notification objects live in a heap; a [*models.Notification] is an
    address. Allocation appends, so the next address is the length. An
    address at which the heap holds nothing stands for the nil pointer:
    reading a field through it panics. *)
Abbreviation ptr := nat.
Abbreviation Heap := (list Notification.t).

Definition alloc (h : Heap) (n : Notification.t) : Heap * ptr :=
  (h ++ [n], length h).


(* ------------------------------------------------------------------ *)
(** ** Package [store] *)

Module Store.

Inductive error : Type :=
| ErrUserNotFound
| ErrPostNotFound
| ErrNotificationNotFound.

(** The three maps of [MemoryStore]. Users and posts are never mutated
    once stored and are kept by value; the notification lists hold
    pointers. A key that is absent differs from a key bound to the
    empty list, as in Go. *)
Record MemoryStore : Type := mk {
  users : gmap string User.t;
  posts : gmap string Post.t;
  notifications : gmap string (list ptr);
}.

Definition set_posts (s : MemoryStore) (m : gmap string Post.t) :=
  mk (users s) m (notifications s).

Definition set_notifications (s : MemoryStore) (m : gmap string (list ptr)) :=
  mk (users s) (posts s) m.

(** The sample data of [loadSampleData]; [clock i] is the value of the
    [i]-th call of [time.Now], one for each sample post. *)
Definition sample_users : list User.t :=
  [ User.mk "user1" "alice" ["user2"; "user3"; "user4"; "user5"; "user6"; "user7"] [];
    User.mk "user2" "bob" ["user1"; "user3"; "user5"] [];
    User.mk "user3" "charlie" ["user1"; "user2"; "user4"] [];
    User.mk "user4" "dave" ["user2"; "user5"; "user7"] [];
    User.mk "user5" "eve" [] [];
    User.mk "user6" "frank" [] [];
    User.mk "user7" "grace" [] [] ].

Definition sample_posts (clock : nat -> time.Time) : list Post.t :=
  [ Post.mk "post1" "user1" "Hello world from Alice!"
      (time.Add (clock 0%nat) (-24 * time.Hour));
    Post.mk "post2" "user2" "Bob's first post"
      (time.Add (clock 1%nat) (-12 * time.Hour));
    Post.mk "post3" "user3" "Charlie's thoughts on distributed systems"
      (time.Add (clock 2%nat) (-6 * time.Hour)) ].

Definition loadSampleData (s : MemoryStore) (clock : nat -> time.Time)
  : MemoryStore :=
  let us := foldl (fun m u => <[User.ID u := u]> m) (users s) sample_users in
  let ps := foldl (fun m p => <[Post.ID p := p]> m) (posts s) (sample_posts clock) in
  let ns := foldl (fun m u => <[User.ID u := []]> m) (notifications s) sample_users in
  mk us ps ns.

Definition NewMemoryStore (load : bool) (clock : nat -> time.Time)
  : MemoryStore :=
  let store := mk ∅ ∅ ∅ in
  if load then loadSampleData store clock else store.

Definition GetUser (s : MemoryStore) (id : string) : User.t + error :=
  match users s !! id with
  | Some user => inl user
  | None => inr ErrUserNotFound
  end.

(** The loop of [GetFollowers]: follower ids that do not resolve are
    skipped. *)
Fixpoint resolve (us : gmap string User.t) (ids : list string)
    (followers : list User.t) : list User.t :=
  match ids with
  | [] => followers
  | id :: ids =>
      match us !! id with
      | Some follower => resolve us ids (followers ++ [follower])
      | None => resolve us ids followers
      end
  end.

Definition GetFollowers (s : MemoryStore) (userID : string)
  : list User.t + error :=
  match users s !! userID with
  | None => inr ErrUserNotFound
  | Some user => inl (resolve (users s) (User.FollowerIDs user) [])
  end.

Definition SavePost (s : MemoryStore) (post : Post.t)
  : MemoryStore * option error :=
  (set_posts s (<[Post.ID post := post]> (posts s)), None).

Definition GetPost (s : MemoryStore) (id : string) : Post.t + error :=
  match posts s !! id with
  | Some post => inl post
  | None => inr ErrPostNotFound
  end.

(** [SaveNotification]: reads [notification.UserID] through the pointer
    and appends the pointer to that user's list (an absent list is
    nil, and [append] to nil makes a one-element list). *)
Definition SaveNotification (h : Heap) (s : MemoryStore) (notification : ptr)
  : option (MemoryStore * option error) :=
  match h !! notification with
  | None => None
  | Some n =>
      let uid := Notification.UserID n in
      let l := default [] (notifications s !! uid) in
      Some (set_notifications s (<[uid := l ++ [notification]]> (notifications s)),
            None)
  end.

(** The loop of [UpdateNotification]: the index of the first entry whose
    ID equals [id], reading each entry through its pointer. *)
Fixpoint find_by_id (h : Heap) (id : string) (l : list ptr) (i : nat)
  : option (option nat) :=
  match l with
  | [] => Some None
  | q :: l =>
      match h !! q with
      | None => None
      | Some n =>
          if String.eqb (Notification.ID n) id then Some (Some i)
          else find_by_id h id l (S i)
      end
  end.

(** [UpdateNotification]: [userNotifications[i] = notification] writes
    into the backing array that the map's slice shares, so the map sees
    the replaced slot. *)
Definition UpdateNotification (h : Heap) (s : MemoryStore) (notification : ptr)
  : option (MemoryStore * option error) :=
  match h !! notification with
  | None => None
  | Some n =>
      match notifications s !! Notification.UserID n with
      | None => Some (s, Some ErrUserNotFound)
      | Some userNotifications =>
          match find_by_id h (Notification.ID n) userNotifications 0 with
          | None => None
          | Some (Some i) =>
              Some (set_notifications s
                      (<[Notification.UserID n := <[i := notification]> userNotifications]>
                         (notifications s)),
                    None)
          | Some None => Some (s, Some ErrNotificationNotFound)
          end
      end
  end.

(** The loop of [GetUserNotifications], from index [k - 1] downwards
    while [count < limit]. *)
Fixpoint collect (notifications : list ptr) (k : nat) (count limit : Z)
    (result : list ptr) : option (list ptr) :=
  match k with
  | O => Some result
  | S i =>
      if count <? limit then
        match notifications !! i with
        | Some p => collect notifications i (Go.incr count) limit (result ++ [p])
        | None => None
        end
      else Some result
  end.

(** [GetUserNotifications]. [avail] is what the allocator can provide
    when [make] asks for the result slice; a user without a list is
    answered before [make] is reached. *)
Definition GetUserNotifications (s : MemoryStore) (userID : string) (limit : Z)
    (avail : Z) : option (list ptr * option error) :=
  match notifications s !! userID with
  | None => Some ([], None)
  | Some notifications =>
      if Go.makeslice_ok avail limit then
        match collect notifications (length notifications) 0 limit [] with
        | Some result => Some (result, None)
        | None => None
        end
      else None
  end.

End Store.


(* ------------------------------------------------------------------ *)
(** ** Buffered channels of notification pointers *)

Module Chan.

Record t : Type := mk { buf : list ptr; cap : nat; closed : bool }.

(** [make(chan *models.Notification, cap)]. *)
Definition make (cap : nat) : t := mk [] cap false.

(** [len(c)]. *)
Definition len (c : t) : Z := Z.of_nat (length (buf c)).

(** [select { case c <- v: ...; default: ... }]: the send is taken when
    the buffer has room, the default otherwise; the flag tells which.
    Sending on a closed channel panics, also inside a select. *)
Definition trySend (c : t) (v : ptr) : option (t * bool) :=
  if closed c then None
  else if (length (buf c) <? cap c)%nat
       then Some (mk (buf c ++ [v]) (cap c) (closed c), true)
       else Some (c, false).

(** [close(c)]; closing twice panics. *)
Definition close (c : t) : option t :=
  if closed c then None else Some (mk (buf c) (cap c) true).

End Chan.

(* ------------------------------------------------------------------ *)
(** ** Package [queue] *)

Module Queue.

Definition maxRetries : Z := 3.
Definition initialBackoff : time.Duration := 100 * time.Millisecond.
Definition maxWorkers : Z := 10.

Record Metrics : Type := mkMetrics {
  TotalSent : Z;
  FailedAttempts : Z;
  TotalRetries : Z;
  deliveryTimes : list time.Duration;
}.

(** [NotificationQueue]. The store is the one [MemoryStore] that the
    service and the resolver are given as well. The context is its
    cancellation flag. *)
Record NotificationQueue : Type := mk {
  store : Store.MemoryStore;
  queue : Chan.t;
  workerCount : Z;
  metrics : Metrics;
  cancelled : bool;
}.

Definition set_store (nq : NotificationQueue) (s : Store.MemoryStore) :=
  mk s (queue nq) (workerCount nq) (metrics nq) (cancelled nq).
Definition set_queue (nq : NotificationQueue) (c : Chan.t) :=
  mk (store nq) c (workerCount nq) (metrics nq) (cancelled nq).
Definition set_metrics (nq : NotificationQueue) (m : Metrics) :=
  mk (store nq) (queue nq) (workerCount nq) m (cancelled nq).
Definition set_cancelled (nq : NotificationQueue) (b : bool) :=
  mk (store nq) (queue nq) (workerCount nq) (metrics nq) b.

Definition NewNotificationQueue (store : Store.MemoryStore) (workerCount : Z)
  : NotificationQueue :=
  let workerCount := if workerCount <=? 0 then maxWorkers else workerCount in
  {| store := store;
     queue := Chan.make 1000;
     workerCount := workerCount;
     metrics := mkMetrics 0 0 0 [];
     cancelled := false |}.

(** [QueueNotification]. The default branch logs [notification.ID]:
    it reads the notification through the pointer, which panics on a
    pointer to nothing; the line logged is not part of the state. The
    send case does not look at what the pointer points to. *)
Definition QueueNotification (h : Heap) (nq : NotificationQueue)
    (notification : ptr) : option NotificationQueue :=
  match Chan.trySend (queue nq) notification with
  | None => None
  | Some (c, true) => Some (set_queue nq c)
  | Some (c, false) =>
      match h !! notification with
      | Some _ => Some (set_queue nq c)
      | None => None
      end
  end.

(** [QueueNotifications]: the loop threads the channel and the count,
    with the same log line in its default branch. The sends follow one
    another: what a worker receives in between is not part of a call
    taken on its own. *)
Fixpoint QueueNotifications_loop (h : Heap) (c : Chan.t)
    (notifications : list ptr) (queued : Z) : option (Chan.t * Z) :=
  match notifications with
  | [] => Some (c, queued)
  | notification :: rest =>
      match Chan.trySend c notification with
      | None => None
      | Some (c, true) => QueueNotifications_loop h c rest (Go.incr queued)
      | Some (c, false) =>
          match h !! notification with
          | Some _ => QueueNotifications_loop h c rest queued
          | None => None
          end
      end
  end.

Definition QueueNotifications (h : Heap) (nq : NotificationQueue)
    (notifications : list ptr) : option (NotificationQueue * Z) :=
  match QueueNotifications_loop h (queue nq) notifications 0 with
  | None => None
  | Some (c, queued) => Some (set_queue nq c, queued)
  end.

(** The process around the queue: the heap of notification objects and
    the retry goroutines that sleep before they re-submit, each with
    its notification and its delay. *)
Record State : Type := mkState {
  heap : Heap;
  nq : NotificationQueue;
  sleepers : list (ptr * time.Duration);
}.

(** The backoff of the retry branch:
    [time.Duration(math.Pow(2, float64(attempts-1))) * initialBackoff]. *)
Definition backoff (attempts : Z) : time.Duration :=
  Go.mul (Go.pow2_int64 (Go.sub attempts 1)) initialBackoff.

(** [processNotification] on a notification a worker has received.
    [failed] is the outcome of [rand.Float64() < failureRate] and
    [deliveryTime] the value of [time.Since(startTime)]. An error of
    [UpdateNotification] is logged and dropped. *)
Definition processNotification (st : State) (notification : ptr)
    (failed : bool) (deliveryTime : time.Duration) : option State :=
  let q := nq st in
  let m := metrics q in
  match heap st !! notification with
  | None => None
  | Some n =>
      if failed then
        let m := mkMetrics (TotalSent m) (Go.incr (FailedAttempts m))
                   (TotalRetries m) (deliveryTimes m) in
        let n := Notification.set_Attempts n (Go.incr (Notification.Attempts n)) in
        if Notification.Attempts n <=? maxRetries then
          let backoff := backoff (Notification.Attempts n) in
          let n := Notification.set_Status n StatusRetrying in
          let h := <[notification := n]> (heap st) in
          match Store.UpdateNotification h (store q) notification with
          | None => None
          | Some (s, _) =>
              let m := mkMetrics (TotalSent m) (FailedAttempts m)
                         (Go.incr (TotalRetries m)) (deliveryTimes m) in
              Some (mkState h (set_metrics (set_store q s) m)
                      (sleepers st ++ [(notification, backoff)]))
          end
        else
          let n := Notification.set_Status n StatusFailed in
          let h := <[notification := n]> (heap st) in
          match Store.UpdateNotification h (store q) notification with
          | None => None
          | Some (s, _) =>
              Some (mkState h (set_metrics (set_store q s) m) (sleepers st))
          end
      else
        let n := Notification.set_Status n StatusDelivered in
        let h := <[notification := n]> (heap st) in
        match Store.UpdateNotification h (store q) notification with
        | None => None
        | Some (s, _) =>
            let m := mkMetrics (Go.incr (TotalSent m)) (FailedAttempts m)
                       (TotalRetries m) (deliveryTimes m ++ [deliveryTime]) in
            Some (mkState h (set_metrics (set_store q s) m) (sleepers st))
        end
  end.

(** The values of the [map[string]interface{}] that [GetMetrics]
    returns. *)
Inductive value : Type :=
| VInt64 (z : Z)
| VInt (z : Z)
| VString (s : string).

(** [for _, t := range deliveryTimes { sum += t }]. *)
Definition sum_durations (l : list time.Duration) : time.Duration :=
  foldl Go.add 0 l.

Definition avgDeliveryTime (l : list time.Duration) : time.Duration :=
  if (0 <? length l)%nat
  then Z.quot (sum_durations l) (Z.of_nat (length l))
  else 0.

(** The mean as the specification words it, to compare with
    [avgDeliveryTime]: the sum of the durations over their number, in
    whole nanoseconds, and zero for the empty list. *)
Definition mean_spec (l : list time.Duration) : time.Duration :=
  match l with
  | [] => 0
  | _ => Z.quot (foldr Z.add 0 l) (Z.of_nat (length l))
  end.

Definition GetMetrics (nq : NotificationQueue) : gmap string value :=
  let m := metrics nq in
  <["total_sent" := VInt64 (TotalSent m)]>
  (<["failed_attempts" := VInt64 (FailedAttempts m)]>
  (<["total_retries" := VInt64 (TotalRetries m)]>
  (<["avg_delivery_time" := VString (time.String (avgDeliveryTime (deliveryTimes m)))]>
  (<["queue_size" := VInt (Chan.len (queue nq))]>
  (<["worker_count" := VInt (workerCount nq)]> ∅))))).

(** [Stop]: cancel the context, wait for the workers, close the
    channel. What the buffer still holds stays there unread. *)
Definition Stop (nq : NotificationQueue) : option NotificationQueue :=
  match Chan.close (queue nq) with
  | None => None
  | Some c => Some (set_queue (set_cancelled nq true) c)
  end.

End Queue.

(* ------------------------------------------------------------------ *)
(** ** Package [proto] and the gRPC service *)

Module proto.
Record Post : Type := mkPost {
  Id : string;
  AuthorId : string;
  Content : string;
  CreatedAt : Z;
}.
Record NotificationResponse : Type := mkResponse {
  PostId : string;
  NotificationsQueued : Z;
  Success : bool;
}.
End proto.

Module Service.

(** [status.Errorf(codes.Internal, ...)] with the cause it prints. *)
Inductive rpc_error : Type :=
| Internal (what : string) (cause : Store.error).

(** The fan-out loop of [PublishPost]. [mint i] is what [uuid.New] and
    [time.Now] give the [i]-th call of [NewNotification]. A follower
    whose notification cannot be saved is skipped. *)
Fixpoint fanout (h : Heap) (s : Store.MemoryStore) (post : Post.t)
    (mint : nat -> string * time.Time) (i : nat) (followers : list User.t)
    (notifications : list ptr)
  : option (Heap * Store.MemoryStore * list ptr) :=
  match followers with
  | [] => Some (h, s, notifications)
  | follower :: rest =>
      let '(id, now) := mint i in
      let '(h, notification) :=
        alloc h (NewNotification id now (User.ID follower) post) in
      match Store.SaveNotification h s notification with
      | None => None
      | Some (s, Some _) => fanout h s post mint (S i) rest notifications
      | Some (s, None) =>
          fanout h s post mint (S i) rest (notifications ++ [notification])
      end
  end.

(** [PublishPost]. [uuid] is the id minted for a post that has none and
    [now] the clock reading for a post whose time is the zero time. *)
Definition PublishPost (st : Queue.State) (req : proto.Post)
    (uuid : string) (now : time.Time) (mint : nat -> string * time.Time)
  : option (Queue.State * (proto.NotificationResponse + rpc_error)) :=
  let q := Queue.nq st in
  let id := if String.eqb (proto.Id req) EmptyString then uuid else proto.Id req in
  let createdAt := time.Unix (proto.CreatedAt req) 0 in
  let createdAt := if time.IsZero createdAt then now else createdAt in
  let post := Post.mk id (proto.AuthorId req) (proto.Content req) createdAt in
  match Store.SavePost (Queue.store q) post with
  | (s, Some err) =>
      Some (Queue.mkState (Queue.heap st) (Queue.set_store q s) (Queue.sleepers st),
            inr (Internal "failed to save post" err))
  | (s, None) =>
      match Store.GetFollowers s (Post.AuthorID post) with
      | inr err =>
          Some (Queue.mkState (Queue.heap st) (Queue.set_store q s) (Queue.sleepers st),
                inr (Internal "failed to get followers" err))
      | inl followers =>
          match fanout (Queue.heap st) s post mint 0 followers [] with
          | None => None
          | Some (h, s, notifications) =>
              match Queue.QueueNotifications h (Queue.set_store q s) notifications with
              | None => None
              | Some (q, queuedCount) =>
                  Some (Queue.mkState h q (Queue.sleepers st),
                        inl (proto.mkResponse (Post.ID post)
                               (Go.wrap32 queuedCount) true))
              end
          end
      end
  end.

(** The notifications that the fan-out makes for a list of followers,
    the [k]-th with what [mint] gives the [k]-th call of
    [NewNotification]. *)
Definition fanned (post : Post.t) (mint : nat -> string * time.Time)
    (followers : list User.t) : list Notification.t :=
  imap (fun k follower =>
          let '(id, now) := mint k in
          NewNotification id now (User.ID follower) post) followers.

(** The pointers, from address [base] on, of the followers whose ID is
    [u]. *)
Fixpoint pointers_for (u : string) (base : nat) (followers : list User.t)
  : list ptr :=
  match followers with
  | [] => []
  | follower :: rest =>
      (if String.eqb (User.ID follower) u then [base] else [])
      ++ pointers_for u (S base) rest
  end.

(** The post that [PublishPost] builds from a request and saves. *)
Definition post_of (req : proto.Post) (uuid : string) (now : time.Time) : Post.t :=
  Post.mk (if String.eqb (proto.Id req) EmptyString then uuid else proto.Id req)
    (proto.AuthorId req) (proto.Content req)
    (if time.IsZero (time.Unix (proto.CreatedAt req) 0) then now
     else time.Unix (proto.CreatedAt req) 0).

End Service.

(* ------------------------------------------------------------------ *)
(** ** Package [resolver] *)

Module Resolver.

Record NotificationResolver : Type := mkResolver { notification : ptr }.

(** [GetNotifications]: the latest 20 notifications of the user, one
    resolver per notification. The slice of 20 pointers has a fixed
    size; like the other fixed-size allocations of the model (a
    notification object, a cell of a list) it is taken to succeed. *)
Definition GetNotifications (s : Store.MemoryStore) (userID : string)
  : option (list NotificationResolver + Store.error) :=
  match Store.GetUserNotifications s userID 20 (20 * Go.PtrSize) with
  | None => None
  | Some (_, Some err) => Some (inr err)
  | Some (notifications, None) => Some (inl (mkResolver <$> notifications))
  end.

(** [NotificationStatusFromModel], on the integer of the status: the
    switch has a case for each constant and a default. *)
Definition NotificationStatusFromModel (status : Z) : string :=
  if status =? 0 then "UNKNOWN"
  else if status =? 1 then "QUEUED"
  else if status =? 2 then "DELIVERED"
  else if status =? 3 then "FAILED"
  else if status =? 4 then "RETRYING"
  else "UNKNOWN".

(** The fields of a [NotificationResolver] read the notification
    through its pointer. *)
Definition UserID (h : Heap) (r : NotificationResolver) : option string :=
  match h !! notification r with
  | Some n => Some (Notification.UserID n)
  | None => None
  end.

Definition Status (h : Heap) (r : NotificationResolver) : option string :=
  match h !! notification r with
  | Some n => Some (NotificationStatusFromModel (status_int (Notification.Status n)))
  | None => None
  end.

(** [int32(r.notification.Attempts)]. *)
Definition Attempts (h : Heap) (r : NotificationResolver) : option Z :=
  match h !! notification r with
  | Some n => Some (Go.wrap32 (Notification.Attempts n))
  | None => None
  end.

(** [MetricsResolver]: each field asserts the dynamic type of the map
    entry, which panics on a missing key or on another type, and then
    converts to int32. *)
Record MetricsResolver : Type := mkMetricsResolver {
  metrics : gmap string Queue.value;
}.

Definition TotalSent (r : MetricsResolver) : option Z :=
  match metrics r !! "total_sent" with
  | Some (Queue.VInt64 z) => Some (Go.wrap32 z)
  | _ => None
  end.

Definition FailedAttempts (r : MetricsResolver) : option Z :=
  match metrics r !! "failed_attempts" with
  | Some (Queue.VInt64 z) => Some (Go.wrap32 z)
  | _ => None
  end.

Definition TotalRetries (r : MetricsResolver) : option Z :=
  match metrics r !! "total_retries" with
  | Some (Queue.VInt64 z) => Some (Go.wrap32 z)
  | _ => None
  end.

Definition AvgDeliveryTime (r : MetricsResolver) : option string :=
  match metrics r !! "avg_delivery_time" with
  | Some (Queue.VString s) => Some s
  | _ => None
  end.

Definition QueueSize (r : MetricsResolver) : option Z :=
  match metrics r !! "queue_size" with
  | Some (Queue.VInt z) => Some (Go.wrap32 z)
  | _ => None
  end.

Definition WorkerCount (r : MetricsResolver) : option Z :=
  match metrics r !! "worker_count" with
  | Some (Queue.VInt z) => Some (Go.wrap32 z)
  | _ => None
  end.

(** The resolver's [GetMetrics]. *)
Definition GetMetrics (nq : Queue.NotificationQueue) : MetricsResolver :=
  mkMetricsResolver (Queue.GetMetrics nq).

End Resolver.

(* ------------------------------------------------------------------ *)
(** ** The running process *)

Module Pipeline.

(** [main] before any request: the store, the queue built on it, no
    notification allocated and no retry pending. *)
Definition boot (load : bool) (clock : nat -> time.Time) (workerCount : Z)
  : Queue.State :=
  Queue.mkState []
    (Queue.NewNotificationQueue (Store.NewMemoryStore load clock) workerCount) [].

(** One step of the process. A worker pass is taken as one step: from
    the receive to the return of [processNotification] no other task
    holds the notification. Workers may run at any time, which covers
    every interleaving of [Start], of the workers' select and of
    [Stop]. The states of this relation are the states between two
    calls. What the rest of the process can read while a pass is under
    way (a notification between the increment of its attempts and the
    write of its status, a counter ahead of another) is in the states
    of [Threads.step] below, which takes the workers statement by
    statement and has every state of this relation among its own. *)
Inductive step : Queue.State -> Queue.State -> Prop :=
| step_publish st req uuid now mint st' resp :
    Service.PublishPost st req uuid now mint = Some (st', resp) ->
    step st st'
| step_worker st notification rest failed deliveryTime st' :
    Chan.buf (Queue.queue (Queue.nq st)) = notification :: rest ->
    Queue.processNotification
      (Queue.mkState (Queue.heap st)
         (Queue.set_queue (Queue.nq st)
            (Chan.mk rest (Chan.cap (Queue.queue (Queue.nq st)))
               (Chan.closed (Queue.queue (Queue.nq st)))))
         (Queue.sleepers st))
      notification failed deliveryTime = Some st' ->
    step st st'
| step_retry st before notification d after q :
    Queue.sleepers st = before ++ (notification, d) :: after ->
    Queue.QueueNotification (Queue.heap st) (Queue.nq st) notification = Some q ->
    step st (Queue.mkState (Queue.heap st) q (before ++ after))
| step_stop st q :
    Queue.Stop (Queue.nq st) = Some q ->
    step st (Queue.mkState (Queue.heap st) q (Queue.sleepers st)).

Definition reachable (st : Queue.State) : Prop :=
  exists load clock workerCount, rtc step (boot load clock workerCount) st.

(** The notifications that some task will still hand to a worker:
    those in the channel buffer and those held by a retry sleeper. *)
Definition pending (st : Queue.State) : list ptr :=
  Chan.buf (Queue.queue (Queue.nq st)) ++ (Queue.sleepers st).*1.

(** A notification that is still to be processed is queued or
    retrying and has used at most the retry budget. *)
Definition in_flight (n : Notification.t) : Prop :=
  (Notification.Status n = StatusQueued \/
   Notification.Status n = StatusRetrying) /\
  0 <= Notification.Attempts n <= Queue.maxRetries.

(** A notification as [NewNotification] makes it. *)
Definition fresh (n : Notification.t) : Prop :=
  Notification.Status n = StatusQueued /\ Notification.Attempts n = 0.

Definition terminal (status : NotificationStatus) : Prop :=
  status = StatusDelivered \/ status = StatusFailed.

(** The invariant of the process: every pointer held by the store or
    pending is allocated, no notification is pending twice, a pending
    notification is in flight, and no attempt count passes
    [maxRetries + 1]. *)
Record wf (st : Queue.State) : Prop := mk_wf {
  wf_store : forall u l q,
    Store.notifications (Queue.store (Queue.nq st)) !! u = Some l ->
    q ∈ l -> (q < length (Queue.heap st))%nat;
  wf_alloc : forall q, q ∈ pending st -> (q < length (Queue.heap st))%nat;
  wf_nodup : NoDup (pending st);
  wf_in_flight : forall q n,
    q ∈ pending st -> Queue.heap st !! q = Some n -> in_flight n;
  wf_attempts : forall q n,
    Queue.heap st !! q = Some n ->
    0 <= Notification.Attempts n <= Queue.maxRetries + 1;
}.

(** What one step may do to the notification objects: every object
    stays allocated, its attempts do not decrease, a terminal status
    stays, and an object the step allocates is queued with no
    attempt. *)
Definition evolves (st st' : Queue.State) : Prop :=
  (forall q n, Queue.heap st !! q = Some n ->
     exists n', Queue.heap st' !! q = Some n' /\
       Notification.Attempts n <= Notification.Attempts n' /\
       (terminal (Notification.Status n) ->
        Notification.Status n' = Notification.Status n)).

Definition born_queued (st st' : Queue.State) : Prop :=
  forall q n', Queue.heap st !! q = None -> Queue.heap st' !! q = Some n' ->
    Notification.Status n' = StatusQueued /\ Notification.Attempts n' = 0.

(** What every step is shown to keep. *)
Definition sound_step (st st' : Queue.State) : Prop :=
  wf st' /\ evolves st st' /\ born_queued st st' /\
  Queue.workerCount (Queue.nq st') = Queue.workerCount (Queue.nq st).

(** How status and attempts go together in a running process. *)
Definition status_attempts (n : Notification.t) : Prop :=
  match Notification.Status n with
  | StatusUnknown => False
  | StatusQueued => Notification.Attempts n = 0
  | StatusRetrying => 1 <= Notification.Attempts n <= Queue.maxRetries
  | StatusDelivered => 0 <= Notification.Attempts n <= Queue.maxRetries
  | StatusFailed => Notification.Attempts n = Queue.maxRetries + 1
  end.

(** The attempts of all notifications, the part of them that led to a
    retry, and the number of delivered notifications. *)
Definition total_attempts (h : Heap) : Z :=
  foldr (fun n acc => Notification.Attempts n + acc) 0 h.

Definition total_retried (h : Heap) : Z :=
  foldr (fun n acc => Z.min (Notification.Attempts n) Queue.maxRetries + acc) 0 h.

Definition count_delivered (h : Heap) : Z :=
  foldr (fun n acc =>
           (match Notification.Status n with StatusDelivered => 1 | _ => 0 end) + acc)
    0 h.

(** Two notifications that differ at most in status and attempts. *)
Definition same_identity (n n' : Notification.t) : Prop :=
  Notification.ID n' = Notification.ID n /\
  Notification.UserID n' = Notification.UserID n /\
  Notification.PostID n' = Notification.PostID n /\
  Notification.AuthorID n' = Notification.AuthorID n /\
  Notification.Content n' = Notification.Content n /\
  Notification.CreatedAt n' = Notification.CreatedAt n /\
  Notification.Read n' = Notification.Read n.

(** The store keeps each pointer under the recipient of its
    notification, and keeps lists only for users of the users table. *)
Definition keyed (st : Queue.State) : Prop :=
  let s := Queue.store (Queue.nq st) in
  (forall id u, Store.users s !! id = Some u -> User.ID u = id) /\
  (forall u l, Store.notifications s !! u = Some l -> is_Some (Store.users s !! u)) /\
  (forall u l q, Store.notifications s !! u = Some l -> q ∈ l ->
     exists n, Queue.heap st !! q = Some n /\ Notification.UserID n = u).

(** The IDs read through the pointers of a list, and the invariant
    that every notification finds its own ID in its recipient's list. *)
Definition ids (h : Heap) (l : list ptr) : list (option string) :=
  (fun q => Notification.ID <$> h !! q) <$> l.

Definition stored (st : Queue.State) : Prop :=
  forall q n, Queue.heap st !! q = Some n ->
    exists l,
      Store.notifications (Queue.store (Queue.nq st)) !! Notification.UserID n
        = Some l /\
      Some (Notification.ID n) ∈ ids (Queue.heap st) l.

(** The channel as [NewNotificationQueue] made it, with at most its
    capacity in the buffer. *)
Definition bounded (st : Queue.State) : Prop :=
  let c := Queue.queue (Queue.nq st) in
  Chan.cap c = 1000%nat /\ (length (Chan.buf c) <= Chan.cap c)%nat.

End Pipeline.


(* ------------------------------------------------------------------ *)
(** ** The workers, statement by statement *)

Module Threads.

(** Where a worker stands: the statement of [worker] or of
    [processNotification] that it runs next, with the notification it
    holds and, on the way to a retry, the backoff it has computed. *)
Inductive pc : Type :=
| Select                                  (* 113: the select of the loop *)
| Coin (notification : ptr)               (* 129-135: in processNotification *)
| CountFailure (notification : ptr)       (* 136-138: FailedAttempts++ *)
| Increment (notification : ptr)          (* 140-144: Attempts++, test, backoff *)
| SetRetrying (notification : ptr) (backoff : time.Duration)     (* 149 *)
| UpdateRetrying (notification : ptr) (backoff : time.Duration)  (* 150 *)
| CountRetry (notification : ptr) (backoff : time.Duration)      (* 155-157 *)
| Spawn (notification : ptr) (backoff : time.Duration)           (* 160-165 *)
| SetFailed (notification : ptr)          (* 171 *)
| UpdateFailed (notification : ptr)       (* 172-177 *)
| SetDelivered (notification : ptr)       (* 182 *)
| UpdateDelivered (notification : ptr)    (* 183 *)
| Record (notification : ptr)             (* 189-195 *)
| Exited.                                 (* returned from worker *)

Definition held (w : pc) : option ptr :=
  match w with
  | Select | Exited => None
  | Coin p | CountFailure p | Increment p
  | SetRetrying p _ | UpdateRetrying p _ | CountRetry p _ | Spawn p _
  | SetFailed p | UpdateFailed p
  | SetDelivered p | UpdateDelivered p | Record p => Some p
  end.

(** [notification.Status = status]. *)
Definition write_status (st : Queue.State) (notification : ptr)
    (status : NotificationStatus) : option Queue.State :=
  match Queue.heap st !! notification with
  | None => None
  | Some n =>
      Some (Queue.mkState
              (<[notification := Notification.set_Status n status]> (Queue.heap st))
              (Queue.nq st) (Queue.sleepers st))
  end.

(** [nq.store.UpdateNotification(notification)]; the error is logged. *)
Definition update (st : Queue.State) (notification : ptr) : option Queue.State :=
  match Store.UpdateNotification (Queue.heap st) (Queue.store (Queue.nq st))
          notification with
  | None => None
  | Some (s, _) =>
      Some (Queue.mkState (Queue.heap st) (Queue.set_store (Queue.nq st) s)
              (Queue.sleepers st))
  end.

(** One statement of a worker, or one critical section: what is done
    under a lock is done at once for every other task. [quit] tells
    whether the select takes the case of [ctx.Done] when that case is
    ready, [failed] is the coin of line 135 and [deliveryTime] the
    value of [time.Since] at line 189. The test of line 142 and the
    backoff of line 144 read the attempts that line 140 has just
    written; they are taken with it. A worker whose select finds
    nothing ready has no step, and neither has one that has returned. *)
Definition statement (st : Queue.State) (w : pc) (quit failed : bool)
    (deliveryTime : time.Duration) : option (Queue.State * pc) :=
  let q := Queue.nq st in
  let m := Queue.metrics q in
  let c := Queue.queue q in
  match w with
  | Select =>
      if quit && Queue.cancelled q then Some (st, Exited)
      else
        match Chan.buf c with
        | notification :: rest =>
            Some (Queue.mkState (Queue.heap st)
                    (Queue.set_queue q (Chan.mk rest (Chan.cap c) (Chan.closed c)))
                    (Queue.sleepers st),
                  Coin notification)
        | [] => if Chan.closed c then Some (st, Exited) else None
        end
  | Coin notification =>
      Some (st, if failed then CountFailure notification
                else SetDelivered notification)
  | CountFailure notification =>
      let m := Queue.mkMetrics (Queue.TotalSent m) (Go.incr (Queue.FailedAttempts m))
                 (Queue.TotalRetries m) (Queue.deliveryTimes m) in
      Some (Queue.mkState (Queue.heap st) (Queue.set_metrics q m) (Queue.sleepers st),
            Increment notification)
  | Increment notification =>
      match Queue.heap st !! notification with
      | None => None
      | Some n =>
          let n := Notification.set_Attempts n (Go.incr (Notification.Attempts n)) in
          Some (Queue.mkState (<[notification := n]> (Queue.heap st)) q
                  (Queue.sleepers st),
                if Notification.Attempts n <=? Queue.maxRetries
                then SetRetrying notification (Queue.backoff (Notification.Attempts n))
                else SetFailed notification)
      end
  | SetRetrying notification backoff =>
      match write_status st notification StatusRetrying with
      | None => None
      | Some st => Some (st, UpdateRetrying notification backoff)
      end
  | UpdateRetrying notification backoff =>
      match update st notification with
      | None => None
      | Some st => Some (st, CountRetry notification backoff)
      end
  | CountRetry notification backoff =>
      let m := Queue.mkMetrics (Queue.TotalSent m) (Queue.FailedAttempts m)
                 (Go.incr (Queue.TotalRetries m)) (Queue.deliveryTimes m) in
      Some (Queue.mkState (Queue.heap st) (Queue.set_metrics q m) (Queue.sleepers st),
            Spawn notification backoff)
  | Spawn notification backoff =>
      Some (Queue.mkState (Queue.heap st) q
              (Queue.sleepers st ++ [(notification, backoff)]),
            Select)
  | SetFailed notification =>
      match write_status st notification StatusFailed with
      | None => None
      | Some st => Some (st, UpdateFailed notification)
      end
  | UpdateFailed notification =>
      match update st notification with
      | None => None
      | Some st => Some (st, Select)
      end
  | SetDelivered notification =>
      match write_status st notification StatusDelivered with
      | None => None
      | Some st => Some (st, UpdateDelivered notification)
      end
  | UpdateDelivered notification =>
      match update st notification with
      | None => None
      | Some st => Some (st, Record notification)
      end
  | Record notification =>
      let m := Queue.mkMetrics (Go.incr (Queue.TotalSent m)) (Queue.FailedAttempts m)
                 (Queue.TotalRetries m) (Queue.deliveryTimes m ++ [deliveryTime]) in
      Some (Queue.mkState (Queue.heap st) (Queue.set_metrics q m) (Queue.sleepers st),
            Select)
  | Exited => None
  end.

(** The process with its workers: what they share, and where each of
    them stands. *)
Record State : Type := mkState { shared : Queue.State; workers : list pc }.

(** [main] once [Start] has launched the workers (main.go:40), before
    any request. *)
Definition boot (load : bool) (clock : nat -> time.Time) (workerCount : Z)
  : State :=
  let st := Pipeline.boot load clock workerCount in
  mkState st (replicate (Z.to_nat (Queue.workerCount (Queue.nq st))) Select).

(** One step of the process: a worker runs its next statement, or one
    of the calls of [Pipeline.step] other than the worker pass is made.
    Any worker may be the next to run. *)
Inductive step : State -> State -> Prop :=
| step_statement fs before w after quit failed deliveryTime st' w' :
    workers fs = before ++ w :: after ->
    statement (shared fs) w quit failed deliveryTime = Some (st', w') ->
    step fs (mkState st' (before ++ w' :: after))
| step_publish fs req uuid now mint st' resp :
    Service.PublishPost (shared fs) req uuid now mint = Some (st', resp) ->
    step fs (mkState st' (workers fs))
| step_retry fs before notification d after q :
    Queue.sleepers (shared fs) = before ++ (notification, d) :: after ->
    Queue.QueueNotification (Queue.heap (shared fs)) (Queue.nq (shared fs))
      notification = Some q ->
    step fs (mkState (Queue.mkState (Queue.heap (shared fs)) q (before ++ after))
               (workers fs))
| step_stop fs q :
    Queue.Stop (Queue.nq (shared fs)) = Some q ->
    step fs (mkState (Queue.mkState (Queue.heap (shared fs)) q
                        (Queue.sleepers (shared fs)))
               (workers fs)).

Definition reachable (fs : State) : Prop :=
  exists load clock workerCount, rtc step (boot load clock workerCount) fs.

(** The notifications that the workers hold, and all that are still
    somewhere on their way. *)
Definition holding (fs : State) : list ptr := omap held (workers fs).

Definition owned (fs : State) : list ptr :=
  Pipeline.pending (shared fs) ++ holding fs.

(** A notification that waits for a worker, and one that a worker has
    just charged with a failed attempt. *)
Definition waiting (n : Notification.t) : Prop :=
  (Notification.Status n = StatusQueued /\ Notification.Attempts n = 0) \/
  (Notification.Status n = StatusRetrying /\
   1 <= Notification.Attempts n <= Queue.maxRetries).

Definition charged (n : Notification.t) : Prop :=
  (Notification.Status n = StatusQueued /\ Notification.Attempts n = 1) \/
  (Notification.Status n = StatusRetrying /\
   2 <= Notification.Attempts n <= Queue.maxRetries + 1).

(** What holds of the notification of a worker, by the statement the
    worker runs next. *)
Definition at_pc (w : pc) (n : Notification.t) : Prop :=
  match w with
  | Select | Exited => True
  | Coin _ | CountFailure _ | Increment _ | SetDelivered _ => waiting n
  | SetRetrying _ _ => charged n /\ Notification.Attempts n <= Queue.maxRetries
  | SetFailed _ => charged n /\ Notification.Attempts n = Queue.maxRetries + 1
  | UpdateRetrying _ _ | CountRetry _ _ | Spawn _ _ =>
      Notification.Status n = StatusRetrying /\
      1 <= Notification.Attempts n <= Queue.maxRetries
  | UpdateFailed _ =>
      Notification.Status n = StatusFailed /\
      Notification.Attempts n = Queue.maxRetries + 1
  | UpdateDelivered _ | Record _ =>
      Notification.Status n = StatusDelivered /\
      0 <= Notification.Attempts n <= Queue.maxRetries
  end.

(** The workers that stand between two writes that belong together:
    after [FailedAttempts++] and before [Attempts++]; after an
    [Attempts++] that leads to a retry and before [TotalRetries++];
    after the write of the delivered status and before [TotalSent++]. *)
Definition tally (f : pc -> bool) (ws : list pc) : Z :=
  foldr (fun w acc => (if f w then 1 else 0) + acc) 0 ws.

Definition counted_failure (w : pc) : bool :=
  match w with Increment _ => true | _ => false end.

Definition owes_retry (w : pc) : bool :=
  match w with
  | SetRetrying _ _ | UpdateRetrying _ _ | CountRetry _ _ => true
  | _ => false
  end.

Definition owes_sent (w : pc) : bool :=
  match w with UpdateDelivered _ | Record _ => true | _ => false end.

(** The invariant of the process with its workers. *)
Record inv (fs : State) : Prop := mk_inv {
  inv_store : forall u l q,
    Store.notifications (Queue.store (Queue.nq (shared fs))) !! u = Some l ->
    q ∈ l -> (q < length (Queue.heap (shared fs)))%nat;
  inv_alloc : forall q, q ∈ owned fs -> (q < length (Queue.heap (shared fs)))%nat;
  inv_nodup : NoDup (owned fs);
  inv_pending : forall q n,
    q ∈ Pipeline.pending (shared fs) -> Queue.heap (shared fs) !! q = Some n ->
    waiting n;
  inv_worker : forall w q n,
    w ∈ workers fs -> held w = Some q -> Queue.heap (shared fs) !! q = Some n ->
    at_pc w n;
  inv_rest : forall q n,
    Queue.heap (shared fs) !! q = Some n -> q ∉ holding fs ->
    Pipeline.status_attempts n;
  inv_sent :
    Queue.TotalSent (Queue.metrics (Queue.nq (shared fs))) =
    Go.wrap64 (Z.of_nat (length (Queue.deliveryTimes
                                   (Queue.metrics (Queue.nq (shared fs))))));
  inv_delivered :
    Z.of_nat (length (Queue.deliveryTimes (Queue.metrics (Queue.nq (shared fs))))) =
    Pipeline.count_delivered (Queue.heap (shared fs)) - tally owes_sent (workers fs);
  inv_failed :
    Queue.FailedAttempts (Queue.metrics (Queue.nq (shared fs))) =
    Go.wrap64 (Pipeline.total_attempts (Queue.heap (shared fs))
               + tally counted_failure (workers fs));
  inv_retried :
    Queue.TotalRetries (Queue.metrics (Queue.nq (shared fs))) =
    Go.wrap64 (Pipeline.total_retried (Queue.heap (shared fs))
               - tally owes_retry (workers fs));
}.

End Threads.

(* ------------------------------------------------------------------ *)
(** ** Concrete states *)

Module Demo.

Definition t0 : time.Time := time.Unix 1700000000 0.
Definition clock (i : nat) : time.Time := time.Add t0 (Z.of_nat i).

Definition post1 : Post.t := Post.mk "post9" "user2" "hi" t0.

Definition mint (i : nat) : string * time.Time :=
  (String.String (ascii_of_nat (97 + i)) EmptyString, t0).

(** Three notifications of the post, as the fan-out makes them; the
    second has failed once and the third has been delivered. *)
Definition heap : Heap :=
  [ NewNotification "a" t0 "user1" post1;
    Notification.set_Status
      (Notification.set_Attempts (NewNotification "b" t0 "user3" post1) 1)
      StatusRetrying;
    Notification.set_Status (NewNotification "c" t0 "user3" post1)
      StatusDelivered ].

Definition store : Store.MemoryStore :=
  let s := Store.NewMemoryStore true clock in
  Store.set_notifications s
    (<["user1" := [0%nat]]> (<["user3" := [1%nat; 2%nat]]> (Store.notifications s))).

(** A notification addressed to a user without a list, and one whose
    ID is not stored. *)
Definition heap_stray : Heap :=
  heap ++ [ NewNotification "d" t0 "nobody" post1;
            NewNotification "e" t0 "user3" post1 ].

(** A run of the process: boot with the sample data, publish a post
    of user2 (followers user1, user3, user5), a worker pass that fails
    on the first notification, the retry that puts it back on the
    queue, and three passes that deliver the other two and then the
    retried one. *)
Definition req : proto.Post := proto.mkPost "p1" "user2" "hi" 0.

Definition st0 : Queue.State := Pipeline.boot true clock 5.

Definition published : Queue.State :=
  match Service.PublishPost st0 req "fresh" t0 mint with
  | Some (st, _) => st
  | None => st0
  end.

(** A worker takes the head of the buffer and processes it. *)
Definition pass (st : Queue.State) (failed : bool) (d : time.Duration)
  : Queue.State :=
  let c := Queue.queue (Queue.nq st) in
  match Chan.buf c with
  | [] => st
  | notification :: rest =>
      match Queue.processNotification
              (Queue.mkState (Queue.heap st)
                 (Queue.set_queue (Queue.nq st)
                    (Chan.mk rest (Chan.cap c) (Chan.closed c)))
                 (Queue.sleepers st))
              notification failed d with
      | Some st' => st'
      | None => st
      end
  end.

(** The first sleeper wakes up and re-submits. *)
Definition wake (st : Queue.State) : Queue.State :=
  match Queue.sleepers st with
  | [] => st
  | (notification, _) :: after =>
      match Queue.QueueNotification (Queue.heap st) (Queue.nq st) notification with
      | Some q => Queue.mkState (Queue.heap st) q after
      | None => st
      end
  end.

Definition failed_once : Queue.State := pass published true 30000000.
Definition requeued : Queue.State := wake failed_once.
Definition first_delivered : Queue.State := pass requeued false 20000000.
Definition delivered : Queue.State :=
  pass (pass first_delivered false 40000000) false 30000000.

(** Later on a second post of user2 is published and the pass on its
    first notification fails. *)
Definition mint' (i : nat) : string * time.Time :=
  (String.String (ascii_of_nat (107 + i)) EmptyString, t0).

Definition republished : Queue.State :=
  match Service.PublishPost delivered (proto.mkPost "p2" "user2" "again" 1700000100)
          "fresh" t0 mint' with
  | Some (st, _) => st
  | None => delivered
  end.

Definition later : Queue.State := pass republished true 25000000.

(** The queue of that state after [Stop]. *)
Definition stopped : Queue.State :=
  match Queue.Stop (Queue.nq delivered) with
  | Some q => Queue.mkState (Queue.heap delivered) q (Queue.sleepers delivered)
  | None => delivered
  end.

(** A heap of 1001 notifications of one post. *)
Definition heap_many : Heap :=
  (fun _ => NewNotification "n" t0 "user1" post1) <$> seq 0 1001.

(** A queue whose buffer is full, and the same queue after [Stop]. *)
Definition full_nq : Queue.NotificationQueue :=
  match Queue.QueueNotifications heap
          (Queue.NewNotificationQueue (Store.NewMemoryStore false clock) 5)
          (replicate 1000 0%nat) with
  | Some (q, _) => q
  | None => Queue.NewNotificationQueue (Store.NewMemoryStore false clock) 5
  end.

Definition full_stopped_nq : Queue.NotificationQueue :=
  match Queue.Stop full_nq with
  | Some q => q
  | None => full_nq
  end.

(** A queue with room for two more notifications. *)
Definition nearly_full : Queue.State :=
  Queue.mkState (Queue.heap published)
    (Queue.set_queue (Queue.nq published)
       (Chan.mk (replicate 998 0%nat) 1000 false))
    [].

(** The retry budget used up: after its first failure the notification
    of user1 fails three more times, each retry waking in between. *)
Definition second_delivered : Queue.State := pass first_delivered false 40000000.
Definition failed_twice : Queue.State := pass second_delivered true 30000000.
Definition failed_thrice : Queue.State := pass (wake failed_twice) true 30000000.
Definition exhausted : Queue.State := pass (wake failed_thrice) true 30000000.

(** Worker [i] runs its next statement, if it has one. *)
Definition advance (fs : Threads.State) (i : nat) (failed : bool)
    (d : time.Duration) : Threads.State :=
  match Threads.workers fs !! i with
  | None => fs
  | Some w =>
      match Threads.statement (Threads.shared fs) w false failed d with
      | Some (st, w') =>
          Threads.mkState st
            (take i (Threads.workers fs) ++ w' :: drop (S i) (Threads.workers fs))
      | None => fs
      end
  end.

(** The five workers in their select after the first post. Then the
    second of them receives the first notification, fails on it, counts
    the failure and increments the attempts: it stands before the write
    of the status. And the five workers in their select at the end of
    the run above. *)
Definition started : Threads.State :=
  Threads.mkState published (replicate 5 Threads.Select).

Definition charged : Threads.State :=
  advance (advance (advance (advance started 1 true 0) 1 true 0) 1 true 0)
    1 true 0.

Definition settled : Threads.State :=
  Threads.mkState exhausted (replicate 5 Threads.Select).

End Demo.

(* ================================================================== *)
(** * Properties *)

(** ** Machine integers *)

Lemma wrap64_small z : - 2 ^ 63 <= z < 2 ^ 63 -> Go.wrap64 z = z.
Proof.
  intros Hz. unfold Go.wrap64.
  rewrite Z.mod_small by lia. lia.
Qed.

Lemma wrap64_range z : - 2 ^ 63 <= Go.wrap64 z < 2 ^ 63.
Proof.
  unfold Go.wrap64.
  pose proof (Z.mod_pos_bound (z + 2 ^ 63) (2 ^ 64)) as Hb. lia.
Qed.

Lemma wrap64_add_l a b : Go.wrap64 (Go.wrap64 a + b) = Go.wrap64 (a + b).
Proof.
  unfold Go.wrap64. f_equal.
  replace ((a + 2 ^ 63) `mod` 2 ^ 64 - 2 ^ 63 + b + 2 ^ 63)
    with ((a + 2 ^ 63) `mod` 2 ^ 64 + b) by lia.
  rewrite Zplus_mod_idemp_l. f_equal. lia.
Qed.

Lemma incr_small z : - 2 ^ 63 <= z < 2 ^ 63 - 1 -> Go.incr z = z + 1.
Proof. intros Hz. unfold Go.incr, Go.add. apply wrap64_small. lia. Qed.

(** ** The store *)

Section StoreFacts.

Implicit Types (h : Heap) (s : Store.MemoryStore) (l : list ptr).

Lemma resolve_omap (us : gmap string User.t) ids acc :
  Store.resolve us ids acc = acc ++ omap (fun id => us !! id) ids.
Proof.
  revert acc. induction ids as [|id ids IH]; intros acc; simpl.
  - by rewrite app_nil_r.
  - destruct (us !! id) as [f|]; rewrite IH; [|done].
    by rewrite <- app_assoc.
Qed.

Lemma find_by_id_total h id l i :
  (forall q, q ∈ l -> is_Some (h !! q)) -> is_Some (Store.find_by_id h id l i).
Proof.
  revert i. induction l as [|q l IH]; intros i Hall; simpl; [by eexists|].
  destruct (Hall q) as [n Hn]; [by left|]. rewrite Hn.
  destruct (String.eqb _ _); [by eexists|].
  apply IH. intros q' Hq'. apply Hall. by right.
Qed.

Lemma find_by_id_found h id l i0 i :
  Store.find_by_id h id l i0 = Some (Some i) ->
  exists k q m, i = (i0 + k)%nat /\ l !! k = Some q /\ h !! q = Some m /\
    Notification.ID m = id /\
    forall j q' m', (j < k)%nat -> l !! j = Some q' -> h !! q' = Some m' ->
      Notification.ID m' <> id.
Proof.
  revert i0. induction l as [|q l IH]; intros i0; simpl; [done|].
  destruct (h !! q) as [n|] eqn:Hq; [|done].
  destruct (String.eqb_spec (Notification.ID n) id) as [He|Hne].
  - intros [= <-]. exists 0%nat, q, n. repeat split; auto with lia.
  - intros Hfind. destruct (IH _ Hfind) as (k & q' & m & -> & Hk & Hm & Hid & Hbefore).
    exists (S k), q', m. repeat split; auto with lia.
    intros [|j] q'' m' Hj Hl Hh; simpl in Hl.
    + congruence.
    + eapply (Hbefore j); [lia|done..].
Qed.

Lemma find_by_id_absent h id l i0 :
  Store.find_by_id h id l i0 = Some None ->
  forall q m, q ∈ l -> h !! q = Some m -> Notification.ID m <> id.
Proof.
  revert i0. induction l as [|q l IH]; intros i0; simpl.
  - intros _ q m Hq. by apply elem_of_nil in Hq.
  - destruct (h !! q) as [n|] eqn:Hq; [|done].
    destruct (String.eqb_spec (Notification.ID n) id) as [He|Hne]; [done|].
    intros Hfind q' m Hin Hm. apply elem_of_cons in Hin as [->|Hin].
    + congruence.
    + eapply IH; eauto.
Qed.

Lemma collect_take l k count limit result :
  (k <= length l)%nat -> 0 <= count -> limit < 2 ^ 62 ->
  Store.collect l k count limit result
  = Some (result ++ take (Z.to_nat (limit - count)) (reverse (take k l))).
Proof.
  revert count result. induction k as [|i IH]; intros count result Hk Hc Hl; simpl.
  - rewrite take_0. unfold reverse. simpl. by rewrite take_nil, app_nil_r.
  - destruct (Z.ltb_spec count limit) as [Hlt|Hge].
    + destruct (lookup_lt_is_Some_2 l i) as [p Hp]; [lia|].
      rewrite Hp, IH by (rewrite ?incr_small; lia).
      rewrite incr_small by lia.
      rewrite (take_S_r l i p Hp), reverse_app. simpl.
      replace (Z.to_nat (limit - count)) with (S (Z.to_nat (limit - (count + 1)))) by lia.
      simpl. by rewrite <- app_assoc.
    + replace (Z.to_nat (limit - count)) with 0%nat by lia.
      by rewrite take_0, app_nil_r.
Qed.

Lemma UpdateNotification_total h s p n :
  h !! p = Some n ->
  (forall l q, Store.notifications s !! Notification.UserID n = Some l ->
     q ∈ l -> is_Some (h !! q)) ->
  exists s' e, Store.UpdateNotification h s p = Some (s', e).
Proof.
  intros Hp Hall. unfold Store.UpdateNotification. rewrite Hp.
  destruct (Store.notifications s !! Notification.UserID n) as [l|] eqn:Hl;
    [|by eexists _, _].
  destruct (find_by_id_total h (Notification.ID n) l 0) as [r Hr]; [by eauto|].
  rewrite Hr. destruct r; by eexists _, _.
Qed.

(** Whatever [UpdateNotification] returns, the users and the posts are
    those of before and a stored pointer is the argument or was stored
    before. *)
Lemma UpdateNotification_store h s p s' e :
  Store.UpdateNotification h s p = Some (s', e) ->
  Store.users s' = Store.users s /\ Store.posts s' = Store.posts s /\
  forall u l' q, Store.notifications s' !! u = Some l' -> q ∈ l' ->
    q = p \/ exists l, Store.notifications s !! u = Some l /\ q ∈ l.
Proof.
  unfold Store.UpdateNotification.
  destruct (h !! p) as [n|]; [|done].
  destruct (Store.notifications s !! Notification.UserID n) as [l|] eqn:Hl.
  2:{ intros [= <- <-]. split_and!; [done..|]. intros u l' q ??. right. eauto. }
  destruct (Store.find_by_id h (Notification.ID n) l 0) as [[i|]|]; [| |done].
  2:{ intros [= <- <-]. split_and!; [done..|]. intros u l' q ??. right. eauto. }
  intros [= <- <-]. simpl. split_and!; [done..|].
  intros u l' q Hu Hq.
  destruct (decide (Notification.UserID n = u)) as [<-|Hne].
  - rewrite lookup_insert_eq in Hu. injection Hu as <-.
    apply list_elem_of_lookup_1 in Hq as [j Hj].
    destruct (decide (i = j)) as [<-|Hij].
    + left. apply list_lookup_insert_Some in Hj as [(_ & -> & _)|(? & _)]; done.
    + right. exists l. split; [done|].
      rewrite list_lookup_insert_ne in Hj by done.
      by eapply list_elem_of_lookup_2.
  - rewrite lookup_insert_ne in Hu by done. right. eauto.
Qed.

End StoreFacts.

(** C6. [UpdateNotification] on an allocated notification whose
    recipient's stored pointers are allocated returns, without a panic,
    one of three outcomes: the user-not-found error exactly when the
    recipient has no notification list; the notification-not-found
    error exactly when the list exists and no entry has the ID; success
    exactly when the list has an entry with the ID, and then the first
    such entry is replaced in place. In both error cases the store is
    returned unchanged. *)
Theorem UpdateNotification_outcomes (h : Heap) (s : Store.MemoryStore)
    (p : ptr) (n : Notification.t) :
  h !! p = Some n ->
  Forall (fun q => is_Some (h !! q))
    (default [] (Store.notifications s !! Notification.UserID n)) ->
  exists s' e, Store.UpdateNotification h s p = Some (s', e) /\
    (e = Some Store.ErrUserNotFound <->
       Store.notifications s !! Notification.UserID n = None) /\
    (e = Some Store.ErrNotificationNotFound <->
       exists l, Store.notifications s !! Notification.UserID n = Some l /\
         forall q m, q ∈ l -> h !! q = Some m ->
           Notification.ID m <> Notification.ID n) /\
    (e = None <->
       exists l q m, Store.notifications s !! Notification.UserID n = Some l /\
         q ∈ l /\ h !! q = Some m /\ Notification.ID m = Notification.ID n) /\
    (e <> None -> s' = s) /\
    (e = None ->
       exists l i q m, Store.notifications s !! Notification.UserID n = Some l /\
         l !! i = Some q /\ h !! q = Some m /\
         Notification.ID m = Notification.ID n /\
         (forall j q' m', (j < i)%nat -> l !! j = Some q' -> h !! q' = Some m' ->
            Notification.ID m' <> Notification.ID n) /\
         s' = Store.set_notifications s
                (<[Notification.UserID n := <[i := p]> l]> (Store.notifications s))).
Proof.
  intros Hp Hall. unfold Store.UpdateNotification. rewrite Hp.
  destruct (Store.notifications s !! Notification.UserID n) as [l|] eqn:Hl;
    simpl in Hall.
  - destruct (find_by_id_total h (Notification.ID n) l 0) as [r Hr].
    { by apply Forall_forall. }
    rewrite Hr. destruct r as [i|].
    + destruct (find_by_id_found _ _ _ _ _ Hr)
        as (k & q & m & -> & Hk & Hm & Hid & Hbefore).
      eexists _, None. split; [done|]. split_and!.
      * split; [done|]. intros ?; congruence.
      * split; [done|]. intros (l' & [= <-] & Hno).
        destruct (Hno q m); [by eapply list_elem_of_lookup_2|done..].
      * split; [|done]. intros _. exists l, q, m. split_and!; [done| |done..].
        by eapply list_elem_of_lookup_2.
      * done.
      * intros _. exists l, k, q, m. split_and!; done.
    + pose proof (find_by_id_absent _ _ _ _ Hr) as Hno.
      eexists s, (Some Store.ErrNotificationNotFound). split; [done|]. split_and!.
      * split; [done|]. intros ?; congruence.
      * split; [|done]. intros _. by exists l.
      * split; [done|]. intros (l' & q & m & [= <-] & Hq & Hm & Hid).
        by destruct (Hno q m).
      * done.
      * done.
  - eexists s, (Some Store.ErrUserNotFound). split; [done|]. split_and!.
    + done.
    + split; [done|]. by intros (l & ? & _).
    + split; [done|]. by intros (l & q & m & ? & _).
    + done.
    + done.
Qed.

Lemma UpdateNotification_outcomes_witness :
  exists s' e, Store.UpdateNotification Demo.heap Demo.store 1%nat = Some (s', e) /\
    (e = None <->
       exists l q m, Store.notifications Demo.store !! "user3" = Some l /\
         q ∈ l /\ Demo.heap !! q = Some m /\ Notification.ID m = "b"%string).
Proof.
  destruct (UpdateNotification_outcomes Demo.heap Demo.store 1%nat
              (Notification.set_Status
                 (Notification.set_Attempts
                    (NewNotification "b" Demo.t0 "user3" Demo.post1) 1)
                 StatusRetrying))
    as (s' & e & Hrun & _ & _ & Hok & _).
  - reflexivity.
  - eapply bool_decide_eq_true_1. vm_compute. reflexivity.
  - exists s', e. split; [exact Hrun | exact Hok].
Defined.

(** C10. A successful [UpdateNotification] leaves the users map and the
    posts map as they were, leaves the list of every other user as it
    was, and in the recipient's list writes one slot, whose old entry
    had the ID of the notification: the list keeps its length and every
    other position keeps its entry. *)
Theorem UpdateNotification_frame (h : Heap) (s s' : Store.MemoryStore)
    (p : ptr) (n : Notification.t) :
  h !! p = Some n ->
  Store.UpdateNotification h s p = Some (s', None) ->
  Store.users s' = Store.users s /\
  Store.posts s' = Store.posts s /\
  (forall u, u <> Notification.UserID n ->
     Store.notifications s' !! u = Store.notifications s !! u) /\
  exists l l' i q m,
    Store.notifications s !! Notification.UserID n = Some l /\
    Store.notifications s' !! Notification.UserID n = Some l' /\
    length l' = length l /\
    l !! i = Some q /\ h !! q = Some m /\
    Notification.ID m = Notification.ID n /\
    l' !! i = Some p /\
    forall j, j <> i -> l' !! j = l !! j.
Proof.
  intros Hp. unfold Store.UpdateNotification. rewrite Hp.
  destruct (Store.notifications s !! Notification.UserID n) as [l|] eqn:Hl;
    [|done].
  destruct (Store.find_by_id h (Notification.ID n) l 0) as [[i|]|] eqn:Hr;
    [|done..].
  intros [= <-]. simpl.
  destruct (find_by_id_found _ _ _ _ _ Hr) as (k & q & m & -> & Hk & Hm & Hid & _).
  split_and!; [done|done| |].
  - intros u Hu. by rewrite lookup_insert_ne.
  - exists l, (<[k := p]> l), k, q, m. rewrite lookup_insert_eq.
    split_and!; [done|done|by rewrite length_insert|done|done|done| |].
    + apply list_lookup_insert_eq. by eapply lookup_lt_Some.
    + intros j Hj. by apply list_lookup_insert_ne.
Qed.

Lemma UpdateNotification_frame_witness :
  exists s',
    Store.UpdateNotification Demo.heap Demo.store 2%nat = Some (s', None) /\
    Store.users s' = Store.users Demo.store /\
    Store.notifications s' !! "user1" = Store.notifications Demo.store !! "user1".
Proof.
  destruct (Store.UpdateNotification Demo.heap Demo.store 2%nat)
    as [[s' [e|]]|] eqn:Hrun; try (vm_compute in Hrun; discriminate).
  exists s'. split; [reflexivity|].
  destruct (UpdateNotification_frame Demo.heap Demo.store s' 2%nat
              (Notification.set_Status
                 (NewNotification "c" Demo.t0 "user3" Demo.post1) StatusDelivered)
              eq_refl Hrun) as (Hu & _ & Hother & _).
  split; [exact Hu|]. apply Hother. discriminate.
Defined.

(** C8. For an absent user [GetFollowers] returns the not-found error.
    For an existing user it returns, in the order of the follower list,
    the user found under each follower ID that resolves in the users
    table; IDs that do not resolve contribute nothing and raise no
    error. So a user is in the result exactly when it is found under
    some ID of the follower list. *)
Theorem GetFollowers_resolved (s : Store.MemoryStore) (userID : string) :
  Store.GetFollowers s userID =
    match Store.users s !! userID with
    | None => inr Store.ErrUserNotFound
    | Some user =>
        inl (omap (fun id => Store.users s !! id) (User.FollowerIDs user))
    end /\
  forall followers, Store.GetFollowers s userID = inl followers ->
    exists user, Store.users s !! userID = Some user /\
      forall f, f ∈ followers <->
        exists id, id ∈ User.FollowerIDs user /\ Store.users s !! id = Some f.
Proof.
  unfold Store.GetFollowers.
  destruct (Store.users s !! userID) as [user|]; [|by split].
  rewrite resolve_omap. simpl. split; [done|].
  intros followers [= <-]. exists user. split; [done|].
  intros f. apply list_elem_of_omap.
Qed.

(** C7, as the code has it. Let the limit be a capacity that [make]
    takes, that is from 0 to [maxAlloc / PtrSize], and let the
    allocator provide the [limit * PtrSize] bytes of the result slice.
    Then [GetUserNotifications] returns the first [limit] entries of
    the user's list read backwards, that is the up to [limit] most
    recently appended notifications, newest first, and no error. For a
    user without a list it returns the empty list and no error whatever
    the limit and the memory left, as [make] is not reached.
    [GetNotifications] is this result at limit 20. *)
Theorem GetUserNotifications_newest_first (s : Store.MemoryStore)
    (userID : string) (limit avail : Z) :
  0 <= limit ->
  limit * Go.PtrSize <= Go.maxAlloc ->
  limit * Go.PtrSize <= avail ->
  Store.GetUserNotifications s userID limit avail =
    Some (take (Z.to_nat limit)
            (reverse (default [] (Store.notifications s !! userID))), None) /\
  (forall limit' avail', Store.notifications s !! userID = None ->
     Store.GetUserNotifications s userID limit' avail' = Some ([], None)) /\
  Resolver.GetNotifications s userID =
    Some (inl (Resolver.mkResolver <$>
                 take 20 (reverse (default [] (Store.notifications s !! userID))))).
Proof.
  intros Hlimit Hcap Havail.
  assert (Hget : forall k a,
    0 <= k -> k * Go.PtrSize <= Go.maxAlloc -> k * Go.PtrSize <= a ->
    Store.GetUserNotifications s userID k a =
      Some (take (Z.to_nat k)
              (reverse (default [] (Store.notifications s !! userID))), None)).
  { intros k a Hk Hc Ha. unfold Store.GetUserNotifications.
    destruct (Store.notifications s !! userID) as [l|]; simpl.
    - assert (Go.makeslice_ok a k = true) as ->.
      { unfold Go.makeslice_ok.
        repeat (apply andb_true_intro; split); by apply Z.leb_le. }
      rewrite collect_take by (unfold Go.maxAlloc, Go.PtrSize in Hc; lia).
      by rewrite firstn_all, Z.sub_0_r.
    - unfold reverse. simpl. by rewrite take_nil. }
  split_and!.
  - by apply Hget.
  - intros limit' avail' Hnone. unfold Store.GetUserNotifications.
    by rewrite Hnone.
  - unfold Resolver.GetNotifications.
    rewrite Hget by (unfold Go.maxAlloc, Go.PtrSize; lia). done.
Qed.

Lemma GetUserNotifications_newest_first_witness :
  Store.GetUserNotifications Demo.store "user3" 1 4096 = Some ([2%nat], None) /\
  Resolver.GetNotifications Demo.store "user3"
  = Some (inl [Resolver.mkResolver 2%nat; Resolver.mkResolver 1%nat]).
Proof.
  destruct (GetUserNotifications_newest_first Demo.store "user3" 1 4096)
    as (Hget & _ & Hread).
  - discriminate.
  - discriminate.
  - discriminate.
  - split; [exact Hget | exact Hread].
Defined.

(** C7 as stated fails, at both ends of "every limit". With a negative
    limit and a user that has a list, [make] panics on the capacity and
    nothing is returned, whatever memory is left. With the largest
    limit that the check of [make] lets through, the slice takes the
    whole address space, [maxAlloc] bytes, which no allocator has left:
    the process dies in [make], although the user has two
    notifications to return. *)
Lemma GetUserNotifications_bad_limit :
  (forall avail, ~ exists result,
      Store.GetUserNotifications (Store.NewMemoryStore true Demo.clock)
        "user1" (-1) avail = Some result) /\
  (forall avail, avail < Go.maxAlloc -> ~ exists result,
      Store.GetUserNotifications Demo.store "user3"
        (Go.maxAlloc / Go.PtrSize) avail = Some result) /\
  Store.notifications Demo.store !! "user3"%string = Some [1%nat; 2%nat].
Proof.
  split_and!.
  - intros avail [result Hrun]. vm_compute in Hrun. discriminate.
  - intros avail Havail [result Hrun].
    unfold Store.GetUserNotifications in Hrun.
    change (Store.notifications Demo.store !! "user3"%string)
      with (Some [1%nat; 2%nat]) in Hrun.
    assert (Hno : Go.makeslice_ok avail (Go.maxAlloc / Go.PtrSize) = false).
    { unfold Go.makeslice_ok. apply andb_false_intro2, Z.leb_gt.
      change (Go.maxAlloc / Go.PtrSize * Go.PtrSize) with Go.maxAlloc. done. }
    rewrite Hno in Hrun. discriminate.
  - vm_compute. reflexivity.
Qed.


(** ** The delivery queue *)

Section QueueFacts.

Lemma trySend_open (c : Chan.t) (v : ptr) :
  Chan.closed c = false ->
  Chan.trySend c v =
    if (length (Chan.buf c) <? Chan.cap c)%nat
    then Some (Chan.mk (Chan.buf c ++ [v]) (Chan.cap c) false, true)
    else Some (c, false).
Proof. intros Hc. unfold Chan.trySend. by rewrite Hc. Qed.

Lemma QueueNotifications_loop_accepts (h : Heap) (c : Chan.t)
    (notifications : list ptr) (queued : Z) :
  Chan.closed c = false ->
  Forall (fun p => is_Some (h !! p))
    (drop (Chan.cap c - length (Chan.buf c)) notifications) ->
  0 <= queued ->
  queued + Z.of_nat (length notifications) < 2 ^ 63 ->
  let room := (Chan.cap c - length (Chan.buf c))%nat in
  Queue.QueueNotifications_loop h c notifications queued =
    Some (Chan.mk (Chan.buf c ++ take room notifications) (Chan.cap c) false,
          queued + Z.of_nat (length notifications `min` room)).
Proof.
  revert c queued.
  induction notifications as [|v rest IH];
    intros c queued Hopen Hall Hq Hlen; simpl.
  - destruct c as [buf cap closed]; simpl in *. subst closed.
    by rewrite take_nil, app_nil_r, Z.add_0_r.
  - rewrite trySend_open by done.
    destruct (Nat.ltb_spec (length (Chan.buf c)) (Chan.cap c)) as [Hlt|Hge].
    + simpl in Hlen.
      replace (Chan.cap c - length (Chan.buf c))%nat
        with (S (Chan.cap c - (length (Chan.buf c) + 1)))%nat in * by lia.
      simpl in Hall.
      rewrite IH; simpl; rewrite ?length_app; simpl;
        rewrite ?incr_small; try lia; try done.
      rewrite <- app_assoc. simpl. do 2 f_equal. lia.
    + simpl in Hlen.
      replace (Chan.cap c - length (Chan.buf c))%nat with 0%nat in * by lia.
      rewrite drop_0 in Hall. apply Forall_cons in Hall as [[n Hv] Hall].
      rewrite Hv. rewrite IH; try done; try lia.
      * replace (Chan.cap c - length (Chan.buf c))%nat with 0%nat by lia.
        rewrite take_0. simpl. do 2 f_equal. lia.
      * replace (Chan.cap c - length (Chan.buf c))%nat with 0%nat by lia.
        by rewrite drop_0.
Qed.

(** What a single submission that returns has done. *)
Lemma QueueNotification_inv (h : Heap) (nq : Queue.NotificationQueue)
    (p : ptr) (q : Queue.NotificationQueue) :
  Queue.QueueNotification h nq p = Some q ->
  Chan.closed (Queue.queue nq) = false /\
  q = Queue.set_queue nq (Queue.queue q) /\
  Chan.cap (Queue.queue q) = Chan.cap (Queue.queue nq) /\
  Chan.closed (Queue.queue q) = false /\
  ((length (Chan.buf (Queue.queue nq)) < Chan.cap (Queue.queue nq))%nat /\
   Chan.buf (Queue.queue q) = Chan.buf (Queue.queue nq) ++ [p] \/
   (Chan.cap (Queue.queue nq) <= length (Chan.buf (Queue.queue nq)))%nat /\
   is_Some (h !! p) /\
   Chan.buf (Queue.queue q) = Chan.buf (Queue.queue nq)).
Proof.
  unfold Queue.QueueNotification, Chan.trySend.
  destruct (Chan.closed (Queue.queue nq)) eqn:Hc; [done|].
  destruct (Nat.ltb_spec (length (Chan.buf (Queue.queue nq)))
              (Chan.cap (Queue.queue nq))) as [Hlt|Hge].
  - intros [= <-]. simpl. auto 10.
  - destruct (h !! p) as [n|] eqn:Hp; [|done]. intros [= <-]. simpl.
    split_and!; try done. right. eauto.
Qed.

End QueueFacts.

(** C5, as the code has it. The queue that [NewNotificationQueue]
    builds has a buffer of capacity 1000, empty and open. On a queue
    that has not been stopped, the submission of a notification that is
    not nil to a full buffer returns at once and leaves the queue as it
    was; the bulk submission, when the items that find no room are not
    nil, returns without a panic, takes the items in order while there
    is room, and returns exactly the number it took (a slice has fewer
    than 2^63 items, so the count does not wrap). So [N + 1] items
    submitted to an empty queue of capacity [N] with no worker
    receiving put the first [N] in the buffer, return [N], and leave
    the last one out. *)
Theorem QueueNotifications_bounded (h : Heap) (nq : Queue.NotificationQueue)
    (notifications : list ptr) :
  Chan.closed (Queue.queue nq) = false ->
  Forall (fun p => is_Some (h !! p))
    (drop (Chan.cap (Queue.queue nq) - length (Chan.buf (Queue.queue nq)))
       notifications) ->
  Z.of_nat (length notifications) < 2 ^ 63 ->
  let c := Queue.queue nq in
  let room := (Chan.cap c - length (Chan.buf c))%nat in
  (forall s workerCount,
     Queue.queue (Queue.NewNotificationQueue s workerCount) = Chan.mk [] 1000 false) /\
  (forall p, is_Some (h !! p) -> length (Chan.buf c) = Chan.cap c ->
     Queue.QueueNotification h nq p = Some nq) /\
  Queue.QueueNotifications h nq notifications =
    Some (Queue.set_queue nq
            (Chan.mk (Chan.buf c ++ take room notifications) (Chan.cap c) false),
          Z.of_nat (length notifications `min` room)) /\
  (Chan.buf c = [] -> length notifications = S (Chan.cap c) ->
     Queue.QueueNotifications h nq notifications =
       Some (Queue.set_queue nq
               (Chan.mk (removelast notifications) (Chan.cap c) false),
             Z.of_nat (Chan.cap c))).
Proof.
  intros Hopen Hall Hlen c room.
  assert (Hbulk : Queue.QueueNotifications h nq notifications =
    Some (Queue.set_queue nq
            (Chan.mk (Chan.buf c ++ take room notifications) (Chan.cap c) false),
          Z.of_nat (length notifications `min` room))).
  { unfold Queue.QueueNotifications.
    rewrite QueueNotifications_loop_accepts by (try done; lia). done. }
  split_and!.
  - done.
  - intros p [n Hp] Hfull. unfold Queue.QueueNotification.
    rewrite trySend_open by done. fold c.
    rewrite (proj2 (Nat.ltb_ge _ _)) by lia. rewrite Hp. by destruct nq.
  - exact Hbulk.
  - intros Hempty Hn. rewrite Hbulk. subst room. rewrite Hempty.
    change (length (@nil ptr)) with 0%nat.
    rewrite Nat.sub_0_r, app_nil_l, removelast_firstn_len, Hn.
    rewrite Nat.min_r by lia. done.
Qed.

Lemma QueueNotifications_bounded_witness :
  Queue.QueueNotifications Demo.heap_many
    (Queue.NewNotificationQueue (Store.NewMemoryStore false Demo.clock) 5)
    (seq 0 1001)
  = Some (Queue.set_queue
            (Queue.NewNotificationQueue (Store.NewMemoryStore false Demo.clock) 5)
            (Chan.mk (seq 0 1000) 1000 false),
          1000).
Proof.
  destruct (QueueNotifications_bounded Demo.heap_many
              (Queue.NewNotificationQueue (Store.NewMemoryStore false Demo.clock) 5)
              (seq 0 1001)) as (_ & _ & _ & Hidle).
  - reflexivity.
  - eapply bool_decide_eq_true_1. vm_compute. reflexivity.
  - rewrite length_seq. apply Z.ltb_lt. reflexivity.
  - rewrite Hidle by (try reflexivity; by rewrite length_seq).
    vm_compute. reflexivity.
Defined.

(** C5 as stated fails in two ways, both on a full buffer. After [Stop]
    the channel is closed, and a submission, single or bulk, panics
    where the claim has it dropped. And the branch that drops a
    submission logs the ID of the notification, so a nil notification
    submitted to a full buffer of a running queue panics as well. *)
Lemma QueueNotification_full_panics :
  Chan.len (Queue.queue Demo.full_nq) = 1000 /\
  Chan.cap (Queue.queue Demo.full_nq) = 1000%nat /\
  Queue.Stop Demo.full_nq = Some Demo.full_stopped_nq /\
  Queue.QueueNotification Demo.heap Demo.full_stopped_nq 0%nat = None /\
  Queue.QueueNotifications Demo.heap Demo.full_stopped_nq [0%nat] = None /\
  Demo.heap !! 0%nat = Some (NewNotification "a" Demo.t0 "user1" Demo.post1) /\
  Chan.closed (Queue.queue Demo.full_nq) = false /\
  Demo.heap !! 7%nat = None /\
  Queue.QueueNotification Demo.heap Demo.full_nq 7%nat = None /\
  Queue.QueueNotifications Demo.heap Demo.full_nq [7%nat] = None.
Proof. split_and!; vm_compute; reflexivity. Qed.


(** ** One worker pass *)

Section WorkerFacts.

(** What a pass that returns has done: one object is rewritten, with
    the attempts and the status of the branch taken; the channel and
    the worker count are untouched; the retry branch alone adds a
    sleeper. *)
Lemma processNotification_inv st p failed d st' n :
  Queue.heap st !! p = Some n ->
  Queue.processNotification st p failed d = Some st' ->
  exists n', Queue.heap st' = <[p := n']> (Queue.heap st) /\
    Queue.queue (Queue.nq st') = Queue.queue (Queue.nq st) /\
    Queue.workerCount (Queue.nq st') = Queue.workerCount (Queue.nq st) /\
    (forall u l' q,
       Store.notifications (Queue.store (Queue.nq st')) !! u = Some l' -> q ∈ l' ->
       q = p \/ exists l,
         Store.notifications (Queue.store (Queue.nq st)) !! u = Some l /\ q ∈ l) /\
    Notification.Attempts n' =
      (if failed then Go.incr (Notification.Attempts n)
       else Notification.Attempts n) /\
    Notification.Status n' =
      (if failed
       then if Notification.Attempts n' <=? Queue.maxRetries
            then StatusRetrying else StatusFailed
       else StatusDelivered) /\
    Queue.sleepers st' =
      Queue.sleepers st ++
      (if failed && (Notification.Attempts n' <=? Queue.maxRetries)
       then [(p, Queue.backoff (Notification.Attempts n'))] else []).
Proof.
  intros Hp. unfold Queue.processNotification. rewrite Hp.
  destruct failed; simpl.
  - destruct (Go.incr (Notification.Attempts n) <=? Queue.maxRetries) eqn:Hle.
    + destruct (Store.UpdateNotification _ _ _) as [[s e]|] eqn:Hup; [|done].
      intros [= <-]. eexists. split; [done|]. simpl.
      apply UpdateNotification_store in Hup as (_ & _ & Hptr).
      rewrite Hle. split_and!; done.
    + destruct (Store.UpdateNotification _ _ _) as [[s e]|] eqn:Hup; [|done].
      intros [= <-]. eexists. split; [done|]. simpl.
      apply UpdateNotification_store in Hup as (_ & _ & Hptr).
      rewrite Hle, app_nil_r. split_and!; done.
  - destruct (Store.UpdateNotification _ _ _) as [[s e]|] eqn:Hup; [|done].
    intros [= <-]. eexists. split; [done|]. simpl.
    apply UpdateNotification_store in Hup as (_ & _ & Hptr).
    rewrite app_nil_r. split_and!; done.
Qed.

(** A pass on an allocated notification returns when the pointers the
    store holds are allocated. *)
Lemma processNotification_total st p failed d :
  (p < length (Queue.heap st))%nat ->
  (forall u l q,
     Store.notifications (Queue.store (Queue.nq st)) !! u = Some l -> q ∈ l ->
     (q < length (Queue.heap st))%nat) ->
  is_Some (Queue.processNotification st p failed d).
Proof.
  intros Hp Hstore. unfold Queue.processNotification.
  destruct (lookup_lt_is_Some_2 _ _ Hp) as [n Hn]. rewrite Hn.
  assert (Hup : forall n',
    Notification.UserID n' = Notification.UserID n ->
    exists s' e,
      Store.UpdateNotification (<[p := n']> (Queue.heap st))
        (Queue.store (Queue.nq st)) p = Some (s', e)).
  { intros n' Huid. apply (UpdateNotification_total _ _ _ n').
    - by apply list_lookup_insert_eq.
    - intros l q Hl Hq. apply lookup_lt_is_Some. rewrite length_insert. eauto. }
  destruct failed; simpl.
  - destruct (_ <=? _).
    + edestruct Hup as (s' & e & ->); [|by eexists]. done.
    + edestruct Hup as (s' & e & ->); [|by eexists]. done.
  - edestruct Hup as (s' & e & ->); [|by eexists]. done.
Qed.

End WorkerFacts.

(** ** The fan-out of a post *)

Section PublishFacts.

Lemma SaveNotification_alloc (h : Heap) s n :
  Store.SaveNotification (h ++ [n]) s (length h) =
    Some (Store.set_notifications s
            (<[Notification.UserID n :=
                 default [] (Store.notifications s !! Notification.UserID n)
                 ++ [length h]]> (Store.notifications s)), None).
Proof. unfold Store.SaveNotification. by rewrite list_lookup_middle. Qed.

Lemma fanout_inv (h : Heap) s post mint i followers acc h' s' acc' :
  Service.fanout h s post mint i followers acc = Some (h', s', acc') ->
  exists new, h' = h ++ new /\ Forall Pipeline.fresh new /\
    acc' = acc ++ seq (length h) (length new) /\
    Store.users s' = Store.users s /\ Store.posts s' = Store.posts s /\
    forall u l' q, Store.notifications s' !! u = Some l' -> q ∈ l' ->
      (exists l, Store.notifications s !! u = Some l /\ q ∈ l) \/
      (length h <= q < length h')%nat.
Proof.
  revert h s i acc.
  induction followers as [|follower rest IH]; intros h s i acc; simpl.
  - intros [= <- <- <-]. exists []. rewrite !app_nil_r.
    split_and!; [done|constructor|done..|]. intros u l' q ??. left. eauto.
  - destruct (mint i) as [id now]. unfold alloc.
    assert (Hn : Pipeline.fresh (NewNotification id now (User.ID follower) post))
      by done.
    revert Hn. generalize (NewNotification id now (User.ID follower) post).
    intros n Hn. rewrite SaveNotification_alloc. intros Hrec.
    apply IH in Hrec as (new & -> & Hnew & -> & Hu & Hp & Hptr).
    exists (n :: new). rewrite <- !app_assoc, length_app. simpl.
    rewrite Nat.add_1_r. split_and!; [done|by constructor|done..|].
    intros u l' q Hl' Hq.
    destruct (Hptr u l' q Hl' Hq) as [(l & Hl & Hin)|Hrange].
    + simpl in Hl.
      destruct (decide (Notification.UserID n = u)) as [<-|Hne].
      * rewrite lookup_insert_eq in Hl. injection Hl as <-.
        apply elem_of_app in Hin as [Hin|Hin].
        -- destruct (Store.notifications s !! Notification.UserID n) as [l0|];
             simpl in Hin; [left; eauto|by apply elem_of_nil in Hin].
        -- apply list_elem_of_singleton in Hin as ->. right.
           rewrite !length_app. simpl. lia.
      * rewrite lookup_insert_ne in Hl by done. left. eauto.
    + right. rewrite !length_app in *. simpl in *. lia.
Qed.

Lemma QueueNotifications_loop_inv h c notifications queued c' queued' :
  Queue.QueueNotifications_loop h c notifications queued = Some (c', queued') ->
  exists accepted, accepted `sublist_of` notifications /\
    Chan.buf c' = Chan.buf c ++ accepted /\
    Chan.cap c' = Chan.cap c /\ Chan.closed c' = Chan.closed c.
Proof.
  revert c queued.
  induction notifications as [|v rest IH]; intros c queued; simpl.
  - intros [= <- <-]. exists []. by rewrite app_nil_r.
  - unfold Chan.trySend. destruct (Chan.closed c) eqn:Hc; [done|].
    destruct (_ <? _)%nat; [|destruct (h !! v); [|done]]; intros Hrec;
      apply IH in Hrec as (accepted & Hsub & Hbuf & Hcap & Hclosed); simpl in *.
    + exists (v :: accepted). rewrite Hbuf, <- app_assoc.
      split_and!; [by constructor|done|done|congruence].
    + exists accepted. split_and!; [by constructor|done|done|congruence].
Qed.

(** What a [PublishPost] that returns has done. *)
Lemma PublishPost_inv st req uuid now mint st' resp :
  Service.PublishPost st req uuid now mint = Some (st', resp) ->
  let post := Service.post_of req uuid now in
  exists new accepted,
    Queue.heap st' = Queue.heap st ++ new /\ Forall Pipeline.fresh new /\
    accepted `sublist_of` seq (length (Queue.heap st)) (length new) /\
    Chan.buf (Queue.queue (Queue.nq st')) =
      Chan.buf (Queue.queue (Queue.nq st)) ++ accepted /\
    Queue.sleepers st' = Queue.sleepers st /\
    Queue.workerCount (Queue.nq st') = Queue.workerCount (Queue.nq st) /\
    Queue.metrics (Queue.nq st') = Queue.metrics (Queue.nq st) /\
    Store.posts (Queue.store (Queue.nq st')) =
      <[Post.ID post := post]> (Store.posts (Queue.store (Queue.nq st))) /\
    (forall u l' q,
       Store.notifications (Queue.store (Queue.nq st')) !! u = Some l' -> q ∈ l' ->
       (exists l, Store.notifications (Queue.store (Queue.nq st)) !! u = Some l /\
          q ∈ l) \/
       (length (Queue.heap st) <= q < length (Queue.heap st'))%nat).
Proof.
  unfold Service.PublishPost, Store.SavePost. fold (Service.post_of req uuid now).
  set (post := Service.post_of req uuid now). simpl.
  destruct (Store.GetFollowers _ _) as [followers|err].
  - destruct (Service.fanout _ _ _ _ _ _ _) as [[[h s] ps]|] eqn:Hfan; [|done].
    unfold Queue.QueueNotifications. simpl.
    destruct (Queue.QueueNotifications_loop _ _ _ _) as [[c queued]|] eqn:Hloop;
      [|done].
    intros [= <- <-]. simpl.
    apply fanout_inv in Hfan as (new & -> & Hnew & -> & Hu & Hp & Hptr).
    apply QueueNotifications_loop_inv in Hloop
      as (accepted & Hsub & Hbuf & Hcap & Hclosed).
    exists new, accepted. split_and!; try done.
  - intros [= <- <-]. simpl. exists [], []. rewrite !app_nil_r.
    split_and!;
      [done|constructor|constructor|done|done|done|done|done|].
    intros u l' q ??. left. eauto.
Qed.

End PublishFacts.

(** ** The invariant of the process *)

Section PipelineFacts.

Import Pipeline.

Lemma fresh_in_flight n : fresh n -> in_flight n.
Proof. intros [Hs Ha]. split; [by left|]. rewrite Ha. unfold Queue.maxRetries. lia. Qed.

Lemma in_flight_not_terminal n : in_flight n -> ~ terminal (Notification.Status n).
Proof. intros [[Hs|Hs] _] [Ht|Ht]; congruence. Qed.

Lemma evolves_same_heap st st' :
  Queue.heap st' = Queue.heap st -> evolves st st' /\ born_queued st st'.
Proof.
  intros Hh. split.
  - intros q n Hq. exists n. rewrite Hh. split_and!; [done|lia|done].
  - intros q n'. rewrite Hh. congruence.
Qed.

Lemma boot_wf load clock workerCount : wf (boot load clock workerCount).
Proof.
  split; unfold pending; simpl.
  - intros u l q Hl Hq. destruct load; simpl in Hl.
    + unfold Store.loadSampleData in Hl. simpl in Hl.
      repeat match type of Hl with
      | <[?k := _]> _ !! u = _ =>
          destruct (decide (k = u)) as [<-|?];
          [rewrite lookup_insert_eq in Hl; injection Hl as <-;
           by apply elem_of_nil in Hq
          |rewrite lookup_insert_ne in Hl by done]
      end.
      by rewrite lookup_empty in Hl.
    + by rewrite lookup_empty in Hl.
  - intros q Hq. by apply elem_of_nil in Hq.
  - constructor.
  - intros q n Hq. by apply elem_of_nil in Hq.
  - intros q n Hq. by rewrite lookup_nil in Hq.
Qed.

Lemma step_publish_sound st req uuid now mint st' resp :
  wf st ->
  Service.PublishPost st req uuid now mint = Some (st', resp) ->
  sound_step st st'.
Proof.
  intros Hwf Hrun.
  apply PublishPost_inv in Hrun
    as (new & accepted & Hheap & Hnew & Hsub & Hbuf & Hsl & Hwc & _ & _ & Hptr).
  assert (Hacc : forall q, q ∈ accepted ->
    (length (Queue.heap st) <= q < length (Queue.heap st'))%nat).
  { intros q Hq. eapply elem_of_sublist in Hq; [|done].
    apply elem_of_seq in Hq. rewrite Hheap, length_app. lia. }
  assert (Hnewobj : forall q n, (length (Queue.heap st) <= q)%nat ->
    Queue.heap st' !! q = Some n -> fresh n).
  { intros q n Hq. rewrite Hheap, lookup_app_r by done. intros Hn.
    rewrite Forall_forall in Hnew. apply Hnew. by eapply list_elem_of_lookup_2. }
  assert (Hold : forall q, (q < length (Queue.heap st))%nat ->
    Queue.heap st' !! q = Queue.heap st !! q).
  { intros q Hq. by rewrite Hheap, lookup_app_l. }
  assert (Hpend : forall q, q ∈ pending st' -> q ∈ pending st \/ q ∈ accepted).
  { intros q. unfold pending. rewrite Hbuf, Hsl, !elem_of_app. tauto. }
  split_and!; [split| | |done].
  - intros u l q Hl Hq. destruct (Hptr u l q Hl Hq) as [(l0 & Hl0 & Hq0)|?]; [|lia].
    pose proof (wf_store st Hwf u l0 q Hl0 Hq0). rewrite Hheap, length_app. lia.
  - intros q [Hq|Hq]%Hpend.
    + pose proof (wf_alloc st Hwf q Hq). rewrite Hheap, length_app. lia.
    + apply Hacc in Hq. lia.
  - unfold pending. rewrite Hbuf, Hsl, <- app_assoc.
    rewrite (Permutation_app_comm accepted), app_assoc.
    apply NoDup_app. split_and!.
    + apply (wf_nodup st Hwf).
    + intros q Hq Hq'. pose proof (wf_alloc st Hwf q Hq). apply Hacc in Hq'. lia.
    + eapply sublist_NoDup; [apply NoDup_seq|done].
  - intros q n [Hq|Hq]%Hpend Hn.
    + pose proof (wf_alloc st Hwf q Hq). rewrite Hold in Hn by done.
      by apply (wf_in_flight st Hwf q n).
    + apply fresh_in_flight, (Hnewobj q); [|done]. apply Hacc in Hq. lia.
  - intros q n Hn.
    destruct (decide (q < length (Queue.heap st))%nat) as [Hq|Hq].
    + rewrite Hold in Hn by done. by apply (wf_attempts st Hwf q n).
    + destruct (Hnewobj q n) as [_ ->]; [lia|done|]. unfold Queue.maxRetries. lia.
  - intros q n Hn. exists n. rewrite Hold by (by eapply lookup_lt_Some).
    split_and!; [done|lia|done].
  - intros q n' Hnone Hn'. apply lookup_ge_None in Hnone. by apply (Hnewobj q).
Qed.

Lemma step_worker_sound st p rest failed d st' :
  wf st ->
  Chan.buf (Queue.queue (Queue.nq st)) = p :: rest ->
  Queue.processNotification
    (Queue.mkState (Queue.heap st)
       (Queue.set_queue (Queue.nq st)
          (Chan.mk rest (Chan.cap (Queue.queue (Queue.nq st)))
             (Chan.closed (Queue.queue (Queue.nq st)))))
       (Queue.sleepers st))
    p failed d = Some st' ->
  sound_step st st'.
Proof.
  intros Hwf Hbuf Hrun.
  assert (Hpend : pending st = p :: rest ++ (Queue.sleepers st).*1).
  { unfold pending. by rewrite Hbuf. }
  pose proof (wf_nodup st Hwf) as Hnd. rewrite Hpend in Hnd.
  apply NoDup_cons in Hnd as [Hp_out Hnd].
  assert (Hp : p ∈ pending st) by (rewrite Hpend; left).
  pose proof (wf_alloc st Hwf p Hp) as Hlt.
  destruct (lookup_lt_is_Some_2 _ _ Hlt) as [n Hn].
  pose proof (wf_in_flight st Hwf p n Hp Hn) as Hfl.
  pose proof Hfl as [Hstatus Hatt]. unfold Queue.maxRetries in Hatt.
  eapply processNotification_inv in Hrun
    as (n' & Hheap & Hq & Hwc & Hptr & Hatt' & Hst' & Hsl); [|exact Hn].
  simpl in Hheap, Hq, Hwc, Hptr, Hsl.
  assert (Hincr : Go.incr (Notification.Attempts n) = Notification.Attempts n + 1)
    by (apply incr_small; lia).
  assert (Hpend' : forall q, q ∈ pending st' ->
    q ∈ rest ++ (Queue.sleepers st).*1 \/
    (q = p /\ failed = true /\ Notification.Attempts n' <= 3)).
  { intros q. unfold pending. rewrite Hq, Hsl, fmap_app. simpl.
    rewrite !elem_of_app. intros [?|[?|Hq']]; [tauto..|]. right.
    destruct failed; simpl in Hq'; [|by apply elem_of_nil in Hq'].
    destruct (Z.leb_spec (Notification.Attempts n') Queue.maxRetries) as [Hle|];
      simpl in Hq'; [|by apply elem_of_nil in Hq'].
    apply list_elem_of_singleton in Hq'. unfold Queue.maxRetries in Hle. done. }
  assert (Hother : forall q, q <> p -> Queue.heap st' !! q = Queue.heap st !! q).
  { intros q Hne. rewrite Hheap. by apply list_lookup_insert_ne. }
  assert (Hself : Queue.heap st' !! p = Some n').
  { rewrite Hheap. by apply list_lookup_insert_eq. }
  assert (Hlen : length (Queue.heap st') = length (Queue.heap st)).
  { by rewrite Hheap, length_insert. }
  split_and!; [split| | |done].
  - intros u l q Hl Hin. rewrite Hlen.
    destruct (Hptr u l q Hl Hin) as [->|(l0 & Hl0 & Hin0)]; [done|].
    by apply (wf_store st Hwf u l0).
  - intros q Hin. rewrite Hlen.
    destruct (Hpend' q Hin) as [Hin'|(-> & _)]; [|done].
    apply (wf_alloc st Hwf). rewrite Hpend. by right.
  - unfold pending. rewrite Hq, Hsl, fmap_app, app_assoc. simpl.
    apply NoDup_app. split_and!; [done| |].
    + intros q Hin Hin'.
      destruct (failed && _); simpl in Hin'; [|by apply elem_of_nil in Hin'].
      apply list_elem_of_singleton in Hin' as ->. done.
    + destruct (failed && _); simpl; [apply NoDup_singleton|constructor].
  - intros q m Hin Hm. destruct (Hpend' q Hin) as [Hin'|(-> & -> & Hle)].
    + assert (q <> p) by (intros ->; done).
      rewrite Hother in Hm by done.
      apply (wf_in_flight st Hwf q m); [|done]. rewrite Hpend. by right.
    + rewrite Hself in Hm. injection Hm as <-.
      rewrite Hatt', Hincr in Hle. rewrite Hatt', Hincr in Hst'.
      split.
      * right. rewrite Hst'. rewrite (proj2 (Z.leb_le _ _)); [done|].
        unfold Queue.maxRetries. lia.
      * rewrite Hatt', Hincr. unfold Queue.maxRetries. lia.
  - intros q m Hm. destruct (decide (q = p)) as [->|Hne].
    + rewrite Hself in Hm. injection Hm as <-. rewrite Hatt'.
      unfold Queue.maxRetries. destruct failed; lia.
    + rewrite Hother in Hm by done. by apply (wf_attempts st Hwf q m).
  - intros q m Hm. destruct (decide (q = p)) as [->|Hne].
    + exists n'. rewrite Hn in Hm. injection Hm as <-. split_and!; [done| |].
      * rewrite Hatt'. destruct failed; lia.
      * intros Hterm. by destruct (in_flight_not_terminal n).
    + exists m. rewrite Hother by done. split_and!; [done|lia|done].
  - intros q m Hnone Hm. apply lookup_ge_None in Hnone.
    apply lookup_lt_Some in Hm. lia.
Qed.

Lemma step_retry_sound st before p d after q :
  wf st ->
  Queue.sleepers st = before ++ (p, d) :: after ->
  Queue.QueueNotification (Queue.heap st) (Queue.nq st) p = Some q ->
  sound_step st (Queue.mkState (Queue.heap st) q (before ++ after)).
Proof.
  intros Hwf Hsl Hrun.
  set (st' := Queue.mkState (Queue.heap st) q (before ++ after)).
  assert (Hpend : pending st =
    Chan.buf (Queue.queue (Queue.nq st)) ++ before.*1 ++ p :: after.*1).
  { unfold pending. by rewrite Hsl, fmap_app. }
  assert (Hq : Queue.workerCount q = Queue.workerCount (Queue.nq st) /\
    Queue.store q = Queue.store (Queue.nq st) /\
    (Chan.buf (Queue.queue q) = Chan.buf (Queue.queue (Queue.nq st)) ++ [p] \/
     Chan.buf (Queue.queue q) = Chan.buf (Queue.queue (Queue.nq st)))).
  { apply QueueNotification_inv in Hrun as (_ & -> & _ & _ & Hbuf). simpl.
    destruct Hbuf as [[_ Hbuf]|(_ & _ & Hbuf)]; auto. }
  destruct Hq as (Hwc & Hstore & Hbuf).
  assert (Hsub : pending st' ⊆+ pending st).
  { rewrite Hpend. unfold pending. simpl. rewrite fmap_app.
    destruct Hbuf as [-> | ->].
    - rewrite <- app_assoc. apply submseteq_skips_l. simpl.
      by rewrite Permutation_middle.
    - apply submseteq_skips_l, submseteq_skips_l. by constructor. }
  destruct (evolves_same_heap st st' eq_refl) as [Hev Hborn].
  split_and!; [split| | |]; try done.
  - intros u l x. simpl. rewrite Hstore. apply (wf_store st Hwf).
  - intros x Hx. apply (wf_alloc st Hwf). by eapply elem_of_submseteq.
  - apply submseteq_Permutation in Hsub as [k Hk].
    pose proof (wf_nodup st Hwf) as Hnd. rewrite Hk in Hnd.
    by apply NoDup_app in Hnd as [? _].
  - intros x n Hx. apply (wf_in_flight st Hwf). by eapply elem_of_submseteq.
  - apply (wf_attempts st Hwf).
Qed.

Lemma step_stop_sound st q :
  wf st ->
  Queue.Stop (Queue.nq st) = Some q ->
  sound_step st (Queue.mkState (Queue.heap st) q (Queue.sleepers st)).
Proof.
  intros Hwf. unfold Queue.Stop, Chan.close.
  destruct (Chan.closed _); [done|]. intros [= <-].
  destruct (evolves_same_heap st
    (Queue.mkState (Queue.heap st)
       (Queue.set_queue (Queue.set_cancelled (Queue.nq st) true)
          (Chan.mk (Chan.buf (Queue.queue (Queue.nq st)))
             (Chan.cap (Queue.queue (Queue.nq st))) true))
       (Queue.sleepers st)) eq_refl) as [Hev Hborn].
  split_and!; [split| | |]; try done; apply Hwf.
Qed.

(** In a well-formed state a worker can always complete a pass on the
    head of the buffer, whatever the coin. *)
Lemma worker_step_enabled st p rest failed d :
  wf st ->
  Chan.buf (Queue.queue (Queue.nq st)) = p :: rest ->
  exists st', step st st' /\
    Queue.processNotification
      (Queue.mkState (Queue.heap st)
         (Queue.set_queue (Queue.nq st)
            (Chan.mk rest (Chan.cap (Queue.queue (Queue.nq st)))
               (Chan.closed (Queue.queue (Queue.nq st)))))
         (Queue.sleepers st))
      p failed d = Some st'.
Proof.
  intros Hwf Hbuf.
  edestruct (processNotification_total
    (Queue.mkState (Queue.heap st)
       (Queue.set_queue (Queue.nq st)
          (Chan.mk rest (Chan.cap (Queue.queue (Queue.nq st)))
             (Chan.closed (Queue.queue (Queue.nq st)))))
       (Queue.sleepers st)) p failed d) as [st' Hrun].
  - simpl. apply (wf_alloc st Hwf). unfold pending. rewrite Hbuf. by left.
  - simpl. apply (wf_store st Hwf).
  - exists st'. split; [|done]. by eapply step_worker.
Qed.

Lemma step_sound st st' : wf st -> step st st' -> sound_step st st'.
Proof.
  intros Hwf Hstep. destruct Hstep.
  - by eapply step_publish_sound.
  - by eapply step_worker_sound.
  - by eapply step_retry_sound.
  - by eapply step_stop_sound.
Qed.

Lemma evolves_refl st : evolves st st.
Proof. intros q n Hn. exists n. split_and!; [done|lia|done]. Qed.

Lemma evolves_trans st1 st2 st3 :
  evolves st1 st2 -> evolves st2 st3 -> evolves st1 st3.
Proof.
  intros H12 H23 q n Hn.
  destruct (H12 q n Hn) as (n2 & Hn2 & Hle2 & Hterm2).
  destruct (H23 q n2 Hn2) as (n3 & Hn3 & Hle3 & Hterm3).
  exists n3. split_and!; [done|lia|].
  intros Hterm. rewrite Hterm3; [by apply Hterm2|]. by rewrite Hterm2.
Qed.

Lemma steps_sound st st' :
  wf st -> rtc step st st' ->
  wf st' /\ evolves st st' /\
  Queue.workerCount (Queue.nq st') = Queue.workerCount (Queue.nq st).
Proof.
  intros Hwf Hsteps. induction Hsteps as [st|st1 st2 st3 Hstep Hsteps IH].
  - split_and!; [done|apply evolves_refl|done].
  - destruct (step_sound _ _ Hwf Hstep) as (Hwf2 & Hev & _ & Hwc).
    destruct (IH Hwf2) as (Hwf3 & Hev3 & Hwc3).
    split_and!; [done|by eapply evolves_trans|congruence].
Qed.

Lemma reachable_wf st : reachable st -> wf st.
Proof.
  intros (load & clock & workerCount & Hsteps).
  by apply (steps_sound _ _ (boot_wf load clock workerCount)) in Hsteps as [? _].
Qed.

End PipelineFacts.

(** ** A run of the process *)

Section DemoRun.

Import Pipeline.

Lemma demo_publish : step Demo.st0 Demo.published.
Proof.
  eapply (step_publish Demo.st0 Demo.req "fresh" Demo.t0 Demo.mint _
            (inl (proto.mkResponse "p1" 3 true))).
  vm_compute. reflexivity.
Qed.

Lemma demo_fail : step Demo.published Demo.failed_once.
Proof.
  eapply (step_worker _ 0%nat [1%nat; 2%nat] true 30000000);
    vm_compute; reflexivity.
Qed.

Lemma demo_retry : step Demo.failed_once Demo.requeued.
Proof.
  assert (Heq : Demo.requeued =
    Queue.mkState (Queue.heap Demo.failed_once) (Queue.nq Demo.requeued) ([] ++ []))
    by (vm_compute; reflexivity).
  rewrite Heq.
  eapply (step_retry _ [] 0%nat 100000000 []); vm_compute; reflexivity.
Qed.

Lemma demo_first : step Demo.requeued Demo.first_delivered.
Proof.
  eapply (step_worker _ 1%nat [2%nat; 0%nat] false 20000000);
    vm_compute; reflexivity.
Qed.

Lemma demo_deliver : rtc step Demo.requeued Demo.delivered.
Proof.
  eapply rtc_l; [apply demo_first|].
  eapply rtc_l.
  { eapply (step_worker _ 2%nat [0%nat] false 40000000);
      vm_compute; reflexivity. }
  eapply rtc_l; [|apply rtc_refl].
  eapply (step_worker _ 0%nat [] false 30000000); vm_compute; reflexivity.
Qed.

Lemma demo_run : rtc step Demo.st0 Demo.delivered.
Proof.
  eapply rtc_l; [apply demo_publish|].
  eapply rtc_l; [apply demo_fail|].
  eapply rtc_l; [apply demo_retry|].
  apply demo_deliver.
Qed.

Lemma demo_first_wf : wf Demo.first_delivered.
Proof.
  apply reachable_wf. exists true, Demo.clock, 5.
  eapply rtc_l; [apply demo_publish|].
  eapply rtc_l; [apply demo_fail|].
  eapply rtc_l; [apply demo_retry|].
  eapply rtc_l; [apply demo_first|apply rtc_refl].
Qed.

Lemma demo_reachable : reachable Demo.delivered.
Proof. exists true, Demo.clock, 5. apply demo_run. Qed.

Lemma demo_later : rtc step Demo.delivered Demo.later.
Proof.
  eapply rtc_l.
  { eapply (step_publish Demo.delivered
              (proto.mkPost "p2" "user2" "again" 1700000100) "fresh" Demo.t0
              Demo.mint' Demo.republished (inl (proto.mkResponse "p2" 3 true))).
    vm_compute. reflexivity. }
  eapply rtc_l; [|apply rtc_refl].
  eapply (step_worker _ 3%nat [4%nat; 5%nat] true 25000000);
    vm_compute; reflexivity.
Qed.

(** The bound of four attempts is reached: a notification that fails
    on every pass ends Failed with four attempts, after three retries
    scheduled 100ms, 200ms and 400ms ahead. *)
Example retry_exhaustion :
  Queue.sleepers Demo.failed_once = [(0%nat, 100 * time.Millisecond)] /\
  Queue.sleepers Demo.failed_twice = [(0%nat, 200 * time.Millisecond)] /\
  Queue.sleepers Demo.failed_thrice = [(0%nat, 400 * time.Millisecond)] /\
  Queue.sleepers Demo.exhausted = [] /\
  (Notification.Status <$> Queue.heap Demo.exhausted !! 0%nat) = Some StatusFailed /\
  (Notification.Attempts <$> Queue.heap Demo.exhausted !! 0%nat) = Some 4 /\
  Queue.FailedAttempts (Queue.metrics (Queue.nq Demo.exhausted)) = 4 /\
  Queue.TotalRetries (Queue.metrics (Queue.nq Demo.exhausted)) = 3 /\
  Queue.TotalSent (Queue.metrics (Queue.nq Demo.exhausted)) = 2.
Proof. vm_compute. repeat split. Qed.

(** [processNotification] itself does not look at the status it finds:
    handed a delivered notification with a failing coin it would make
    it retrying. That a terminal status stays is a property of the
    process, which never hands such a notification to a worker. *)
Example processNotification_no_guard :
  (Notification.Status <$> Queue.heap Demo.delivered !! 1%nat)
    = Some StatusDelivered /\
  ((fun st => Notification.Status <$> Queue.heap st !! 1%nat) <$>
     Queue.processNotification Demo.delivered 1%nat true 30000000)
    = Some (Some StatusRetrying).
Proof. vm_compute. split; reflexivity. Qed.

End DemoRun.

(** ** Attempts and terminal statuses *)

(** C3. In every state the process can reach, each notification has
    between 0 and [maxRetries + 1 = 4] attempts. From such a state on,
    whatever steps follow, a notification keeps an attempt count at
    least as large as it had; and a notification that a step allocates
    starts with zero attempts. *)
Theorem Attempts_bounded_monotone (st : Queue.State) :
  Pipeline.reachable st ->
  Queue.maxRetries + 1 = 4 /\
  (forall q n, Queue.heap st !! q = Some n ->
     0 <= Notification.Attempts n <= Queue.maxRetries + 1) /\
  (forall st' q n, rtc Pipeline.step st st' -> Queue.heap st !! q = Some n ->
     exists n', Queue.heap st' !! q = Some n' /\
       Notification.Attempts n <= Notification.Attempts n') /\
  (forall st' q n', Pipeline.step st st' ->
     Queue.heap st !! q = None -> Queue.heap st' !! q = Some n' ->
     Notification.Attempts n' = 0).
Proof.
  intros Hreach. pose proof (reachable_wf st Hreach) as Hwf.
  split_and!.
  - reflexivity.
  - apply (Pipeline.wf_attempts st Hwf).
  - intros st' q n Hsteps Hn.
    destruct (steps_sound st st' Hwf Hsteps) as (_ & Hev & _).
    destruct (Hev q n Hn) as (n' & Hn' & Hle & _). eauto.
  - intros st' q n' Hstep Hnone Hn'.
    destruct (step_sound st st' Hwf Hstep) as (_ & _ & Hborn & _).
    by destruct (Hborn q n' Hnone Hn').
Qed.

Lemma Attempts_bounded_monotone_witness :
  (forall q n, Queue.heap Demo.delivered !! q = Some n ->
     0 <= Notification.Attempts n <= 4) /\
  exists n', Queue.heap Demo.later !! 0%nat = Some n' /\
    1 <= Notification.Attempts n'.
Proof.
  destruct (Attempts_bounded_monotone Demo.delivered demo_reachable)
    as (_ & Hbound & Hmono & _).
  split; [exact Hbound|].
  destruct (Hmono Demo.later 0%nat
              (Notification.set_Status
                 (Notification.set_Attempts
                    (NewNotification "a" Demo.t0 "user1"
                       (Service.post_of Demo.req "fresh" Demo.t0)) 1)
                 StatusDelivered) demo_later) as (n' & Hn' & Hle).
  - vm_compute. reflexivity.
  - exists n'. split; [exact Hn'|exact Hle].
Defined.

(** C4. Once a notification is Delivered or Failed in a state the
    process can reach, it has that same status in every state that
    follows, whatever worker passes, retries, publications or stop come
    after. *)
Theorem terminal_status_stays (st st' : Queue.State) (q : ptr)
    (n : Notification.t) :
  Pipeline.reachable st ->
  rtc Pipeline.step st st' ->
  Queue.heap st !! q = Some n ->
  Notification.Status n = StatusDelivered \/ Notification.Status n = StatusFailed ->
  exists n', Queue.heap st' !! q = Some n' /\
    Notification.Status n' = Notification.Status n.
Proof.
  intros Hreach Hsteps Hn Hterm.
  destruct (steps_sound st st' (reachable_wf st Hreach) Hsteps) as (_ & Hev & _).
  destruct (Hev q n Hn) as (n' & Hn' & _ & Hstay). exists n'. split; [done|].
  by apply Hstay.
Qed.

Lemma terminal_status_stays_witness :
  exists n', Queue.heap Demo.later !! 1%nat = Some n' /\
    Notification.Status n' = StatusDelivered.
Proof.
  apply (terminal_status_stays Demo.delivered Demo.later 1%nat
           (Notification.set_Status
              (NewNotification "b" Demo.t0 "user3"
                 (Service.post_of Demo.req "fresh" Demo.t0))
              StatusDelivered) demo_reachable demo_later).
  - vm_compute. reflexivity.
  - left. reflexivity.
Defined.

(** ** Metrics *)

Section MetricsFacts.

Lemma foldl_add_wrap (l : list Z) (a : Z) :
  Go.wrap64 (foldl Go.add a l) = Go.wrap64 (a + foldr Z.add 0 l).
Proof.
  revert a. induction l as [|x l IH]; intros a; simpl.
  - by rewrite Z.add_0_r.
  - rewrite IH. unfold Go.add. rewrite wrap64_add_l. f_equal. lia.
Qed.

Lemma foldl_add_range (l : list Z) (a : Z) :
  - 2 ^ 63 <= a < 2 ^ 63 -> - 2 ^ 63 <= foldl Go.add a l < 2 ^ 63.
Proof.
  revert a. induction l as [|x l IH]; intros a Ha; simpl; [done|].
  apply IH, wrap64_range.
Qed.

Lemma sum_durations_exact (l : list time.Duration) :
  - 2 ^ 63 <= foldr Z.add 0 l < 2 ^ 63 ->
  Queue.sum_durations l = foldr Z.add 0 l.
Proof.
  intros Hsum. unfold Queue.sum_durations.
  rewrite <- (wrap64_small (foldl Go.add 0 l)) by (apply foldl_add_range; lia).
  rewrite foldl_add_wrap. simpl. by apply wrap64_small.
Qed.

Lemma avgDeliveryTime_mean (l : list time.Duration) :
  - 2 ^ 63 <= foldr Z.add 0 l < 2 ^ 63 ->
  Queue.avgDeliveryTime l = Queue.mean_spec l.
Proof.
  intros Hsum. unfold Queue.avgDeliveryTime, Queue.mean_spec.
  destruct l as [|x l]; [done|].
  by rewrite sum_durations_exact.
Qed.

End MetricsFacts.

(** C9. In every state reached from a boot with the configured worker
    count, and as long as the durations add up within an int64, the
    snapshot is the map of exactly six fields: the three counters, the
    mean of the recorded durations (their sum over their number, zero
    when there is none) as [Duration.String] prints it, the number of
    notifications in the channel buffer, and the pool size set at
    construction (the configured count, or 10 when that is not
    positive). *)
Theorem GetMetrics_snapshot (load : bool) (clock : nat -> time.Time)
    (workerCount : Z) (st : Queue.State) :
  rtc Pipeline.step (Pipeline.boot load clock workerCount) st ->
  - 2 ^ 63 <= foldr Z.add 0 (Queue.deliveryTimes (Queue.metrics (Queue.nq st)))
    < 2 ^ 63 ->
  let m := Queue.metrics (Queue.nq st) in
  Queue.GetMetrics (Queue.nq st) =
    <["total_sent" := Queue.VInt64 (Queue.TotalSent m)]>
    (<["failed_attempts" := Queue.VInt64 (Queue.FailedAttempts m)]>
    (<["total_retries" := Queue.VInt64 (Queue.TotalRetries m)]>
    (<["avg_delivery_time" :=
         Queue.VString (time.String (Queue.mean_spec (Queue.deliveryTimes m)))]>
    (<["queue_size" :=
         Queue.VInt (Z.of_nat (length (Chan.buf (Queue.queue (Queue.nq st)))))]>
    (<["worker_count" :=
         Queue.VInt (if workerCount <=? 0 then 10 else workerCount)]> ∅))))) /\
  dom (Queue.GetMetrics (Queue.nq st)) =
    ({["total_sent"; "failed_attempts"; "total_retries"; "avg_delivery_time";
       "queue_size"; "worker_count"]} : gset string) /\
  size (Queue.GetMetrics (Queue.nq st)) = 6%nat.
Proof.
  intros Hsteps Hsum m.
  destruct (steps_sound _ _ (boot_wf load clock workerCount) Hsteps)
    as (_ & _ & Hwc).
  simpl in Hwc. unfold Queue.maxWorkers in Hwc.
  unfold Queue.GetMetrics. fold m.
  rewrite avgDeliveryTime_mean by done. rewrite Hwc. unfold Chan.len.
  split; [done|].
  assert (Hdom : forall a b c d e f : Queue.value,
    dom (<["total_sent" := a]> (<["failed_attempts" := b]>
          (<["total_retries" := c]> (<["avg_delivery_time" := d]>
          (<["queue_size" := e]> (<["worker_count" := f]>
             (∅ : gmap string Queue.value)))))))
    = ({["total_sent"; "failed_attempts"; "total_retries"; "avg_delivery_time";
         "queue_size"; "worker_count"]} : gset string)).
  { intros. rewrite !dom_insert_L, dom_empty_L. set_solver. }
  split; [apply Hdom|].
  rewrite <- size_dom, Hdom. vm_compute. reflexivity.
Qed.

Lemma GetMetrics_snapshot_witness :
  Queue.GetMetrics (Queue.nq Demo.delivered) =
    <["total_sent" := Queue.VInt64 3]>
    (<["failed_attempts" := Queue.VInt64 1]>
    (<["total_retries" := Queue.VInt64 1]>
    (<["avg_delivery_time" := Queue.VString "30ms"]>
    (<["queue_size" := Queue.VInt 0]>
    (<["worker_count" := Queue.VInt 5]> ∅))))).
Proof.
  destruct (GetMetrics_snapshot true Demo.clock 5 Demo.delivered demo_run)
    as (Hmap & _).
  - vm_compute. split; [discriminate|reflexivity].
  - rewrite Hmap. vm_compute. reflexivity.
Defined.

(** ** Backoff *)

(** C2. A failing pass on a notification whose attempts, once
    incremented, are 1, 2 or 3 returns with the notification retrying
    and one more sleeper, whose delay is
    [initialBackoff * 2 ^ (attempts - 1)] with [initialBackoff] 100ms:
    100ms, 200ms and 400ms for attempts 1, 2 and 3. The delay is a
    function of the attempt count and of nothing else. *)
Theorem retry_backoff (st : Queue.State) (p : ptr) (n : Notification.t)
    (d : time.Duration) :
  Queue.heap st !! p = Some n ->
  (forall u l q,
     Store.notifications (Queue.store (Queue.nq st)) !! u = Some l -> q ∈ l ->
     (q < length (Queue.heap st))%nat) ->
  1 <= Go.incr (Notification.Attempts n) <= 3 ->
  exists st' n' delay,
    Queue.processNotification st p true d = Some st' /\
    Queue.heap st' !! p = Some n' /\
    Notification.Attempts n' = Go.incr (Notification.Attempts n) /\
    Notification.Status n' = StatusRetrying /\
    Queue.sleepers st' = Queue.sleepers st ++ [(p, delay)] /\
    delay = Queue.initialBackoff * 2 ^ (Notification.Attempts n' - 1) /\
    Queue.initialBackoff = 100 * time.Millisecond /\
    (Notification.Attempts n' = 1 -> delay = 100 * time.Millisecond) /\
    (Notification.Attempts n' = 2 -> delay = 200 * time.Millisecond) /\
    (Notification.Attempts n' = 3 -> delay = 400 * time.Millisecond).
Proof.
  intros Hn Hstore Hrange.
  assert (Hlt : (p < length (Queue.heap st))%nat) by (by eapply lookup_lt_Some).
  destruct (processNotification_total st p true d Hlt Hstore) as [st' Hrun].
  destruct (processNotification_inv _ _ _ _ _ _ Hn Hrun)
    as (n' & Hheap & _ & _ & _ & Hatt & Hstatus & Hsl).
  assert (Hle : (Notification.Attempts n' <=? Queue.maxRetries) = true).
  { apply Z.leb_le. rewrite Hatt. unfold Queue.maxRetries. lia. }
  rewrite Hle in Hstatus, Hsl. simpl in Hsl.
  exists st', n', (Queue.backoff (Notification.Attempts n')).
  assert (Hcases : Notification.Attempts n' = 1 \/ Notification.Attempts n' = 2 \/
                   Notification.Attempts n' = 3) by lia.
  split_and!; try done.
  - rewrite Hheap. by apply list_lookup_insert_eq.
  - destruct Hcases as [->|[->| ->]]; reflexivity.
  - intros ->. reflexivity.
  - intros ->. reflexivity.
  - intros ->. reflexivity.
Qed.

Lemma retry_backoff_witness :
  exists st' n',
    Queue.processNotification Demo.first_delivered
      2%nat true 35000000 = Some st' /\
    Queue.heap st' !! 2%nat = Some n' /\
    Notification.Attempts n' = 1 /\
    Queue.sleepers st' = [(2%nat, 100000000)].
Proof.
  destruct (retry_backoff Demo.first_delivered 2%nat
              (NewNotification "c" Demo.t0 "user5"
                 (Service.post_of Demo.req "fresh" Demo.t0)) 35000000)
    as (st' & n' & delay & Hrun & Hn' & Hatt & _ & Hsl & _ & _ & Hone & _).
  - vm_compute. reflexivity.
  - exact (Pipeline.wf_store _ demo_first_wf).
  - vm_compute. split; discriminate.
  - exists st', n'. rewrite Hsl, (Hone Hatt). split_and!; done.
Defined.

(** ** The creation time of a published post *)

(** C1 on the code. A request whose [created_at] is 0 is saved with
    the creation time [time.Unix(0, 0)], the Unix epoch, whatever the
    clock says: [IsZero] holds of January 1 of year 1 and not of the
    epoch, so the branch that would take the current time is not
    entered. *)
Theorem PublishPost_zero_created_at (st st' : Queue.State) (req : proto.Post)
    (uuid : string) (now : time.Time) (mint : nat -> string * time.Time)
    (resp : proto.NotificationResponse + Service.rpc_error) :
  proto.CreatedAt req = 0 ->
  Service.PublishPost st req uuid now mint = Some (st', resp) ->
  let id := if String.eqb (proto.Id req) EmptyString then uuid else proto.Id req in
  Store.posts (Queue.store (Queue.nq st')) !! id =
    Some (Post.mk id (proto.AuthorId req) (proto.Content req) (time.Unix 0 0)) /\
  time.Unix 0 0 = time.mkTime time.unixToInternal 0 /\
  time.IsZero (time.Unix 0 0) = false.
Proof.
  intros Hzero Hrun id.
  apply PublishPost_inv in Hrun as (_ & _ & _ & _ & _ & _ & _ & _ & _ & Hposts & _).
  rewrite Hposts. unfold Service.post_of. rewrite Hzero. fold id.
  change (time.IsZero (time.Unix 0 0)) with false. simpl.
  split_and!; [|reflexivity..].
  by rewrite lookup_insert_eq.
Qed.

Lemma PublishPost_zero_created_at_witness :
  exists post,
    Store.posts (Queue.store (Queue.nq Demo.published)) !! "p1" = Some post /\
    Post.CreatedAt post = time.Unix 0 0 /\
    Post.CreatedAt post <> Demo.t0.
Proof.
  destruct (PublishPost_zero_created_at Demo.st0 Demo.published Demo.req
              "fresh" Demo.t0 Demo.mint (inl (proto.mkResponse "p1" 3 true)))
    as (Hpost & _).
  - reflexivity.
  - vm_compute. reflexivity.
  - eexists. split; [exact Hpost|]. split; [reflexivity|].
    vm_compute. discriminate.
Defined.

(* ================================================================== *)
(** * Further properties *)


(** ** More on the store *)

(** X1. [SavePost] never fails and [GetPost] of the saved ID then
    returns the saved post, whatever was stored under that ID before;
    every other ID answers as before, and the users and the
    notification lists are untouched. *)
Theorem SavePost_GetPost (s : Store.MemoryStore) (post : Post.t) :
  exists s', Store.SavePost s post = (s', None) /\
    Store.GetPost s' (Post.ID post) = inl post /\
    (forall id, id <> Post.ID post -> Store.GetPost s' id = Store.GetPost s id) /\
    Store.users s' = Store.users s /\
    Store.notifications s' = Store.notifications s.
Proof.
  eexists. split; [reflexivity|]. unfold Store.GetPost. simpl. split_and!.
  - by rewrite lookup_insert_eq.
  - intros id Hid. by rewrite lookup_insert_ne.
  - done.
  - done.
Qed.

(** X2. [SaveNotification] of an allocated notification returns no
    error, appends the pointer to the recipient's list (a list is made
    for a recipient that has none) and changes nothing else; right
    after it [GetUserNotifications] for the recipient, with a limit of
    at least 1 that [make] takes and whose slice the allocator can
    provide, returns the saved notification first, followed by the
    earlier ones newest first. *)
Theorem SaveNotification_newest (h : Heap) (s : Store.MemoryStore) (p : ptr)
    (n : Notification.t) (limit avail : Z) :
  h !! p = Some n ->
  1 <= limit ->
  limit * Go.PtrSize <= Go.maxAlloc ->
  limit * Go.PtrSize <= avail ->
  let old := default [] (Store.notifications s !! Notification.UserID n) in
  exists s', Store.SaveNotification h s p = Some (s', None) /\
    Store.notifications s' !! Notification.UserID n = Some (old ++ [p]) /\
    (forall u, u <> Notification.UserID n ->
       Store.notifications s' !! u = Store.notifications s !! u) /\
    Store.users s' = Store.users s /\ Store.posts s' = Store.posts s /\
    Store.GetUserNotifications s' (Notification.UserID n) limit avail =
      Some (p :: take (Z.to_nat (limit - 1)) (reverse old), None).
Proof.
  intros Hp Hlimit Hcap Havail old. unfold Store.SaveNotification. rewrite Hp.
  eexists. split; [reflexivity|]. simpl.
  split_and!; try done.
  - by rewrite lookup_insert_eq.
  - intros u Hu. by rewrite lookup_insert_ne.
  - unfold Store.GetUserNotifications. simpl. rewrite lookup_insert_eq.
    assert (Go.makeslice_ok avail limit = true) as ->.
    { unfold Go.makeslice_ok.
      repeat (apply andb_true_intro; split); apply Z.leb_le; lia. }
    rewrite collect_take by (unfold Go.maxAlloc, Go.PtrSize in Hcap; lia).
    rewrite firstn_all, Z.sub_0_r, reverse_app. simpl.
    replace (Z.to_nat limit) with (S (Z.to_nat (limit - 1))) by lia.
    done.
Qed.

Lemma SaveNotification_newest_witness :
  exists s',
    Store.SaveNotification Demo.heap_stray Demo.store 4%nat = Some (s', None) /\
    Store.GetUserNotifications s' "user3" 2 4096 = Some ([4%nat; 2%nat], None).
Proof.
  destruct (SaveNotification_newest Demo.heap_stray Demo.store 4%nat
              (NewNotification "e" Demo.t0 "user3" Demo.post1) 2 4096)
    as (s' & Hsave & _ & _ & _ & _ & Hget).
  - reflexivity.
  - discriminate.
  - discriminate.
  - discriminate.
  - exists s'. split; [exact Hsave|exact Hget].
Defined.

(** X3. A notification that has just been saved can be updated:
    [UpdateNotification] after [SaveNotification] of the same pointer
    returns no error, as long as the pointers already in the
    recipient's list are allocated. *)
Theorem Save_then_Update (h : Heap) (s : Store.MemoryStore) (p : ptr)
    (n : Notification.t) :
  h !! p = Some n ->
  Forall (fun q => is_Some (h !! q))
    (default [] (Store.notifications s !! Notification.UserID n)) ->
  exists s1 s2,
    Store.SaveNotification h s p = Some (s1, None) /\
    Store.UpdateNotification h s1 p = Some (s2, None).
Proof.
  intros Hp Hall. unfold Store.SaveNotification. rewrite Hp.
  set (old := default [] (Store.notifications s !! Notification.UserID n)) in *.
  set (s1 := Store.set_notifications s
               (<[Notification.UserID n := old ++ [p]]> (Store.notifications s))).
  assert (Hup : exists s2, Store.UpdateNotification h s1 p = Some (s2, None)).
  { unfold Store.UpdateNotification. rewrite Hp. simpl. rewrite lookup_insert_eq.
    destruct (find_by_id_total h (Notification.ID n) (old ++ [p]) 0) as [r Hr].
    { intros q [Hq|Hq]%elem_of_app.
      - rewrite Forall_forall in Hall. by apply Hall.
      - apply list_elem_of_singleton in Hq as ->. by eexists. }
    rewrite Hr. destruct r as [i|]; [by eexists|].
    pose proof (find_by_id_absent _ _ _ _ Hr p n) as Hno.
    destruct Hno; [|done..]. apply elem_of_app. right. by left. }
  destruct Hup as [s2 Hup]. by exists s1, s2.
Qed.

Lemma Save_then_Update_witness :
  exists s1 s2,
    Store.SaveNotification Demo.heap_stray Demo.store 3%nat = Some (s1, None) /\
    Store.UpdateNotification Demo.heap_stray s1 3%nat = Some (s2, None).
Proof.
  apply (Save_then_Update Demo.heap_stray Demo.store 3%nat
           (NewNotification "d" Demo.t0 "nobody" Demo.post1)).
  - reflexivity.
  - eapply bool_decide_eq_true_1. vm_compute. reflexivity.
Defined.

(** X4. When the pointer handed to [UpdateNotification] is itself the
    first entry with its ID in the recipient's list, the update
    succeeds and returns the store as it was: the slot is overwritten
    with the pointer it already holds. *)
Theorem UpdateNotification_same_pointer (h : Heap) (s : Store.MemoryStore)
    (p : ptr) (n : Notification.t) (l : list ptr) (i : nat) :
  h !! p = Some n ->
  Store.notifications s !! Notification.UserID n = Some l ->
  l !! i = Some p ->
  (forall j q, (j < i)%nat -> l !! j = Some q ->
     exists m, h !! q = Some m /\ Notification.ID m <> Notification.ID n) ->
  Store.UpdateNotification h s p = Some (s, None).
Proof.
  intros Hp Hl Hi Hbefore. unfold Store.UpdateNotification. rewrite Hp, Hl.
  assert (Hfind : forall k i0, (k <= i)%nat ->
    Store.find_by_id h (Notification.ID n) (drop k l) (i0 + k)
    = Some (Some (i0 + i)%nat)).
  { intros k i0 Hk. remember (i - k)%nat as r eqn:Hr. revert k Hk Hr.
    induction r as [|r IH]; intros k Hk Hr.
    - assert (k = i) as -> by lia.
      rewrite (drop_S l p i Hi). simpl. rewrite Hp, String.eqb_refl. done.
    - destruct (lookup_lt_is_Some_2 l k) as [q Hq].
      { apply lookup_lt_Some in Hi. lia. }
      rewrite (drop_S l q k Hq). simpl.
      destruct (Hbefore k q) as (m & Hm & Hne); [lia|done|].
      rewrite Hm. rewrite (proj2 (String.eqb_neq _ _) Hne).
      replace (S (i0 + k)) with (i0 + S k)%nat by lia.
      apply IH; lia. }
  specialize (Hfind 0%nat 0%nat ltac:(lia)). rewrite drop_0 in Hfind.
  simpl in Hfind. rewrite Hfind.
  rewrite list_insert_id by done. rewrite insert_id by done.
  by destruct s.
Qed.

Lemma UpdateNotification_same_pointer_witness :
  Store.UpdateNotification Demo.heap Demo.store 2%nat = Some (Demo.store, None).
Proof.
  apply (UpdateNotification_same_pointer Demo.heap Demo.store 2%nat
           (Notification.set_Status
              (NewNotification "c" Demo.t0 "user3" Demo.post1) StatusDelivered)
           [1%nat; 2%nat] 1%nat).
  - reflexivity.
  - vm_compute. reflexivity.
  - reflexivity.
  - intros j q Hj Hq. assert (j = 0%nat) as -> by lia.
    injection Hq as <-. eexists. split; [reflexivity|]. discriminate.
Defined.

(** ** More on the queue and the service *)



(** X6. [PublishPost] for an author that is not in the users table
    returns the internal error that wraps user-not-found, and the post
    stays saved all the same: the state returned differs from the one
    before in the posts map alone. *)
Theorem PublishPost_unknown_author (st : Queue.State) (req : proto.Post)
    (uuid : string) (now : time.Time) (mint : nat -> string * time.Time) :
  Store.users (Queue.store (Queue.nq st)) !! proto.AuthorId req = None ->
  let post := Service.post_of req uuid now in
  let s := Queue.store (Queue.nq st) in
  Service.PublishPost st req uuid now mint =
    Some (Queue.mkState (Queue.heap st)
            (Queue.set_store (Queue.nq st)
               (Store.set_posts s (<[Post.ID post := post]> (Store.posts s))))
            (Queue.sleepers st),
          inr (Service.Internal "failed to get followers" Store.ErrUserNotFound)).
Proof.
  intros Hnone post s. unfold Service.PublishPost, Store.SavePost.
  fold (Service.post_of req uuid now). fold post. simpl.
  unfold Store.GetFollowers. simpl. by rewrite Hnone.
Qed.

Lemma PublishPost_unknown_author_witness :
  exists st',
    Service.PublishPost Demo.st0 (proto.mkPost "p7" "ghost" "boo" 1700000000)
      "fresh" Demo.t0 Demo.mint
    = Some (st', inr (Service.Internal "failed to get followers"
                        Store.ErrUserNotFound)) /\
    Store.GetPost (Queue.store (Queue.nq st')) "p7"
    = inl (Post.mk "p7" "ghost" "boo" Demo.t0).
Proof.
  eexists. split.
  - apply (PublishPost_unknown_author Demo.st0
             (proto.mkPost "p7" "ghost" "boo" 1700000000) "fresh" Demo.t0 Demo.mint).
    vm_compute. reflexivity.
  - vm_compute. reflexivity.
Defined.

Section FanoutFacts.

Lemma omap_length_le {A B} (f : A -> option B) (l : list A) :
  (length (omap f l) <= length l)%nat.
Proof.
  induction l as [|x l IH]; [done|]. csimpl. destruct (f x); simpl; lia.
Qed.

Lemma fanned_cons post mint f rest :
  Service.fanned post mint (f :: rest) =
    (let '(id, now) := mint 0%nat in NewNotification id now (User.ID f) post)
    :: Service.fanned post (mint ∘ S) rest.
Proof. reflexivity. Qed.

Lemma fanned_shift post (mint : nat -> string * time.Time) i rest :
  Service.fanned post ((fun k => mint (i + k)%nat) ∘ S) rest =
  Service.fanned post (fun k => mint (S i + k)%nat) rest.
Proof.
  unfold Service.fanned. apply imap_ext. intros k x _. simpl.
  by rewrite Nat.add_succ_r.
Qed.

(** The fan-out always returns: it allocates the fanned notifications,
    collects their addresses, and appends each address to the list of
    its follower. *)
Lemma fanout_exact (h : Heap) s post mint i followers acc :
  exists s',
    Service.fanout h s post mint i followers acc =
      Some (h ++ Service.fanned post (fun k => mint (i + k)%nat) followers, s',
            acc ++ seq (length h) (length followers)) /\
    Store.users s' = Store.users s /\ Store.posts s' = Store.posts s /\
    forall u, Store.notifications s' !! u =
      match Service.pointers_for u (length h) followers with
      | [] => Store.notifications s !! u
      | add => Some (default [] (Store.notifications s !! u) ++ add)
      end.
Proof.
  revert h s i acc mint.
  induction followers as [|f rest IH]; intros h s i acc mint.
  - exists s. simpl. rewrite !app_nil_r. done.
  - simpl Service.fanout. rewrite fanned_cons, fanned_shift, Nat.add_0_r.
    destruct (mint i) as [id now] eqn:Hmint. unfold alloc.
    set (n := NewNotification id now (User.ID f) post).
    rewrite SaveNotification_alloc.
    match goal with
    | |- context [Service.fanout _ ?s1 _ _ _ _ _] =>
        destruct (IH (h ++ [n]) s1 (S i) (acc ++ [length h]) mint)
          as (s' & Hrun & Hu & Hp & Hlists)
    end.
    exists s'. split_and!.
    + rewrite Hrun. rewrite <- !app_assoc, length_app. simpl.
      by rewrite Nat.add_1_r.
    + by rewrite Hu.
    + by rewrite Hp.
    + intros u. rewrite Hlists. simpl Store.notifications.
      rewrite length_app. simpl length. rewrite Nat.add_1_r.
      simpl Service.pointers_for.
      replace (Notification.UserID n) with (User.ID f) by done.
      destruct (String.eqb_spec (User.ID f) u) as [->|Hne].
      * rewrite lookup_insert_eq. simpl.
        destruct (Service.pointers_for u (S (length h)) rest); simpl.
        -- done.
        -- by rewrite <- app_assoc.
      * rewrite lookup_insert_ne by done. done.
Qed.

(** [PublishPost] for a known author on an open queue. *)
Lemma PublishPost_success st req uuid now mint user :
  Store.users (Queue.store (Queue.nq st)) !! proto.AuthorId req = Some user ->
  Chan.closed (Queue.queue (Queue.nq st)) = false ->
  (length (Chan.buf (Queue.queue (Queue.nq st)))
   <= Chan.cap (Queue.queue (Queue.nq st)))%nat ->
  Z.of_nat (length (User.FollowerIDs user)) < 2 ^ 63 ->
  let s := Queue.store (Queue.nq st) in
  let c := Queue.queue (Queue.nq st) in
  let post := Service.post_of req uuid now in
  let followers := omap (fun id => Store.users s !! id) (User.FollowerIDs user) in
  let base := length (Queue.heap st) in
  let room := (Chan.cap c - length (Chan.buf c))%nat in
  exists st',
    Service.PublishPost st req uuid now mint =
      Some (st', inl (proto.mkResponse (Post.ID post)
                        (Go.wrap32 (Z.of_nat (length followers `min` room)))
                        true)) /\
    Queue.heap st' = Queue.heap st ++ Service.fanned post mint followers /\
    Chan.buf (Queue.queue (Queue.nq st')) =
      Chan.buf c ++ take room (seq base (length followers)) /\
    Queue.sleepers st' = Queue.sleepers st /\
    Store.posts (Queue.store (Queue.nq st')) =
      <[Post.ID post := post]> (Store.posts s) /\
    forall u, Store.notifications (Queue.store (Queue.nq st')) !! u =
      match Service.pointers_for u base followers with
      | [] => Store.notifications s !! u
      | add => Some (default [] (Store.notifications s !! u) ++ add)
      end.
Proof.
  intros Huser Hopen Hfit Hlen s c post followers base room.
  unfold Service.PublishPost, Store.SavePost.
  fold (Service.post_of req uuid now). fold post. simpl.
  unfold Store.GetFollowers. simpl. rewrite Huser, resolve_omap. simpl.
  fold s followers.
  match goal with
  | |- context [Service.fanout _ ?s1 _ _ _ _ _] =>
      destruct (fanout_exact (Queue.heap st) s1 post mint 0 followers [])
        as (s' & Hrun & Hu & Hp & Hlists)
  end.
  simpl in Hrun.
  rewrite Hrun. unfold Queue.QueueNotifications. simpl.
  assert (Hflen : (length followers <= length (User.FollowerIDs user))%nat)
    by apply omap_length_le.
  rewrite QueueNotifications_loop_accepts;
    [|done| |lia|rewrite length_seq; lia].
  2:{ apply Forall_drop, Forall_forall. intros q Hq. apply elem_of_seq in Hq.
      apply lookup_lt_is_Some. rewrite length_app.
      unfold Service.fanned. rewrite length_imap. lia. }
  rewrite length_seq. fold c room base. simpl.
  eexists. split; [reflexivity|]. simpl. split_and!; try done.
Qed.

End FanoutFacts.

(** X7. [PublishPost] for an author of the users table, on an open
    queue, returns success with the post's ID, allocates one
    notification per follower that resolves (queued, no attempt, for
    that follower and that post, with the minted ID and time) and
    appends each to the list of its follower; the lists of other users
    stay as they were. *)
Theorem PublishPost_fans_out (st : Queue.State) (req : proto.Post)
    (uuid : string) (now : time.Time) (mint : nat -> string * time.Time)
    (user : User.t) :
  Store.users (Queue.store (Queue.nq st)) !! proto.AuthorId req = Some user ->
  Chan.closed (Queue.queue (Queue.nq st)) = false ->
  (length (Chan.buf (Queue.queue (Queue.nq st)))
   <= Chan.cap (Queue.queue (Queue.nq st)))%nat ->
  Z.of_nat (length (User.FollowerIDs user)) < 2 ^ 63 ->
  let s := Queue.store (Queue.nq st) in
  let post := Service.post_of req uuid now in
  let followers := omap (fun id => Store.users s !! id) (User.FollowerIDs user) in
  exists st' queued,
    Service.PublishPost st req uuid now mint =
      Some (st', inl (proto.mkResponse (Post.ID post) queued true)) /\
    Queue.heap st' = Queue.heap st ++ Service.fanned post mint followers /\
    (forall k follower, followers !! k = Some follower ->
       exists n, Queue.heap st' !! (length (Queue.heap st) + k)%nat = Some n /\
         Notification.ID n = (mint k).1 /\
         Notification.UserID n = User.ID follower /\
         Notification.PostID n = Post.ID post /\
         Notification.Status n = StatusQueued /\
         Notification.Attempts n = 0) /\
    (forall u, Store.notifications (Queue.store (Queue.nq st')) !! u =
       match Service.pointers_for u (length (Queue.heap st)) followers with
       | [] => Store.notifications s !! u
       | add => Some (default [] (Store.notifications s !! u) ++ add)
       end).
Proof.
  intros Huser Hopen Hfit Hlen s post followers.
  destruct (PublishPost_success st req uuid now mint user Huser Hopen Hfit Hlen)
    as (st' & Hrun & Hheap & _ & _ & _ & Hlists).
  eexists st', _. split; [exact Hrun|]. split; [exact Hheap|]. split; [|exact Hlists].
  intros k follower Hk. rewrite Hheap.
  rewrite lookup_app_r, Nat.add_comm, Nat.add_sub by lia.
  unfold Service.fanned. rewrite list_lookup_imap. fold s followers.
  rewrite Hk. simpl. destruct (mint k) as [id t]. eexists. split; [done|].
  by split_and!.
Qed.

Lemma PublishPost_fans_out_witness :
  exists st' queued,
    Service.PublishPost Demo.st0 Demo.req "fresh" Demo.t0 Demo.mint =
      Some (st', inl (proto.mkResponse "p1" queued true)) /\
    Store.notifications (Queue.store (Queue.nq st')) !! "user3" = Some [1%nat] /\
    Store.notifications (Queue.store (Queue.nq st')) !! "user4" = Some [].
Proof.
  destruct (PublishPost_fans_out Demo.st0 Demo.req "fresh" Demo.t0 Demo.mint
              (User.mk "user2" "bob" ["user1"; "user3"; "user5"] []))
    as (st' & queued & Hrun & _ & _ & Hlists).
  - vm_compute. reflexivity.
  - reflexivity.
  - vm_compute. lia.
  - vm_compute. reflexivity.
  - exists st', queued. split; [exact Hrun|]. rewrite !Hlists.
    split; vm_compute; reflexivity.
Defined.

(** X8. In a call of [PublishPost] during which no worker receives
    from the channel and no other task sends to it, the queue takes the
    new notifications in follower order while the buffer has room, and
    [notifications_queued] is the number it took: the smaller of the
    number of followers that resolve and the room left, as an int32.
    The ones that did not fit are in the store all the same. *)
Theorem PublishPost_queued_count (st : Queue.State) (req : proto.Post)
    (uuid : string) (now : time.Time) (mint : nat -> string * time.Time)
    (user : User.t) :
  Store.users (Queue.store (Queue.nq st)) !! proto.AuthorId req = Some user ->
  Chan.closed (Queue.queue (Queue.nq st)) = false ->
  (length (Chan.buf (Queue.queue (Queue.nq st)))
   <= Chan.cap (Queue.queue (Queue.nq st)))%nat ->
  Z.of_nat (length (User.FollowerIDs user)) < 2 ^ 63 ->
  let s := Queue.store (Queue.nq st) in
  let c := Queue.queue (Queue.nq st) in
  let followers := omap (fun id => Store.users s !! id) (User.FollowerIDs user) in
  let room := (Chan.cap c - length (Chan.buf c))%nat in
  exists st' resp,
    Service.PublishPost st req uuid now mint = Some (st', inl resp) /\
    proto.NotificationsQueued resp =
      Go.wrap32 (Z.of_nat (length followers `min` room)) /\
    Chan.buf (Queue.queue (Queue.nq st')) =
      Chan.buf c ++ take room (seq (length (Queue.heap st)) (length followers)) /\
    length (Queue.heap st') = (length (Queue.heap st) + length followers)%nat.
Proof.
  intros Huser Hopen Hfit Hlen s c followers room.
  destruct (PublishPost_success st req uuid now mint user Huser Hopen Hfit Hlen)
    as (st' & Hrun & Hheap & Hbuf & _).
  eexists st', _. split; [exact Hrun|]. split; [done|]. split; [exact Hbuf|].
  rewrite Hheap, length_app. unfold Service.fanned. by rewrite length_imap.
Qed.

Lemma PublishPost_queued_count_witness :
  exists st' resp,
    Service.PublishPost Demo.nearly_full
      (proto.mkPost "p2" "user2" "again" 1700000100) "fresh" Demo.t0 Demo.mint'
    = Some (st', inl resp) /\
    proto.NotificationsQueued resp = 2 /\
    length (Queue.heap st') = 6%nat.
Proof.
  destruct (PublishPost_queued_count Demo.nearly_full
              (proto.mkPost "p2" "user2" "again" 1700000100) "fresh" Demo.t0
              Demo.mint' (User.mk "user2" "bob" ["user1"; "user3"; "user5"] []))
    as (st' & resp & Hrun & Hcount & _ & Hlen).
  - vm_compute. reflexivity.
  - reflexivity.
  - vm_compute. lia.
  - vm_compute. reflexivity.
  - exists st', resp. split; [exact Hrun|]. split.
    + rewrite Hcount. vm_compute. reflexivity.
    + rewrite Hlen. vm_compute. reflexivity.
Defined.

(** X9. The saved creation time is the clock reading exactly for the
    request time -62135596800, the Unix second of January 1 of year 1;
    for every other int64 it is [time.Unix] of the request time. *)
Theorem PublishPost_created_at (st st' : Queue.State) (req : proto.Post)
    (uuid : string) (now : time.Time) (mint : nat -> string * time.Time)
    (resp : proto.NotificationResponse + Service.rpc_error) :
  - 2 ^ 63 <= proto.CreatedAt req < 2 ^ 63 ->
  Service.PublishPost st req uuid now mint = Some (st', resp) ->
  let id := if String.eqb (proto.Id req) EmptyString then uuid else proto.Id req in
  Store.posts (Queue.store (Queue.nq st')) !! id =
    Some (Post.mk id (proto.AuthorId req) (proto.Content req)
            (if proto.CreatedAt req =? -62135596800 then now
             else time.Unix (proto.CreatedAt req) 0)).
Proof.
  intros Hrange Hrun id.
  apply PublishPost_inv in Hrun as (_ & _ & _ & _ & _ & _ & _ & _ & _ & Hposts & _).
  rewrite Hposts. unfold Service.post_of. fold id. simpl.
  rewrite lookup_insert_eq. do 2 f_equal.
  assert (Hzero : time.IsZero (time.Unix (proto.CreatedAt req) 0)
                  = (proto.CreatedAt req =? -62135596800)).
  { set (c := proto.CreatedAt req) in *.
    unfold time.IsZero, time.Unix. simpl. rewrite andb_true_r.
    unfold Go.add, Go.wrap64.
    change time.unixToInternal with 62135596800.
    destruct (Z.eqb_spec c (-62135596800)) as [->|Hne]; [reflexivity|].
    apply Z.eqb_neq. intros Heq.
    destruct (Z_lt_le_dec (c + 62135596800 + 2 ^ 63) (2 ^ 64)) as [Hlt|Hge].
    - rewrite Z.mod_small in Heq by lia. lia.
    - replace (c + 62135596800 + 2 ^ 63)
        with ((c + 62135596800 + 2 ^ 63 - 2 ^ 64) + 1 * 2 ^ 64) in Heq by lia.
      rewrite Z_mod_plus_full, Z.mod_small in Heq by lia. lia. }
  by rewrite Hzero.
Qed.

Lemma PublishPost_created_at_witness :
  exists p1 p2,
    Store.posts (Queue.store (Queue.nq Demo.published)) !! "p1" = Some p1 /\
    Post.CreatedAt p1 = time.Unix 0 0 /\
    Store.posts (Queue.store (Queue.nq Demo.republished)) !! "p2" = Some p2 /\
    Post.CreatedAt p2 = time.Unix 1700000100 0.
Proof.
  eexists _, _. split_and!.
  - apply (PublishPost_created_at Demo.st0 Demo.published Demo.req
             "fresh" Demo.t0 Demo.mint (inl (proto.mkResponse "p1" 3 true))).
    + vm_compute. split; [discriminate|reflexivity].
    + vm_compute. reflexivity.
  - reflexivity.
  - apply (PublishPost_created_at Demo.delivered Demo.republished
             (proto.mkPost "p2" "user2" "again" 1700000100)
             "fresh" Demo.t0 Demo.mint' (inl (proto.mkResponse "p2" 3 true))).
    + vm_compute. split; [discriminate|reflexivity].
    + vm_compute. reflexivity.
  - reflexivity.
Defined.

(** ** More invariants of the process *)

Section MoreInvariants.

Import Pipeline.

(** Induction over the states the process reaches, with the invariant
    [wf] at hand in the step. *)
Lemma reachable_invariant (P : Queue.State -> Prop) :
  (forall load clock workerCount, P (boot load clock workerCount)) ->
  (forall st st', wf st -> P st -> step st st' -> P st') ->
  forall st, reachable st -> P st.
Proof.
  intros Hboot Hstep st (load & clock & workerCount & Hsteps).
  revert st Hsteps. apply rtc_ind_r; [apply Hboot|].
  intros y z Hxy Hyz Py. apply (Hstep y z); [|done..].
  apply reachable_wf. by exists load, clock, workerCount.
Qed.

(** A pass in full: the object written, the store that
    [UpdateNotification] returns, and the metrics. *)
Lemma processNotification_effect st p failed d st' n :
  Queue.heap st !! p = Some n ->
  Queue.processNotification st p failed d = Some st' ->
  let a := if failed then Go.incr (Notification.Attempts n)
           else Notification.Attempts n in
  let status := if failed
                then if a <=? Queue.maxRetries then StatusRetrying else StatusFailed
                else StatusDelivered in
  let n' := Notification.set_Status (Notification.set_Attempts n a) status in
  let m := Queue.metrics (Queue.nq st) in
  exists e,
    Store.UpdateNotification (<[p := n']> (Queue.heap st))
      (Queue.store (Queue.nq st)) p = Some (Queue.store (Queue.nq st'), e) /\
    Queue.heap st' = <[p := n']> (Queue.heap st) /\
    Queue.metrics (Queue.nq st') =
      (if failed
       then Queue.mkMetrics (Queue.TotalSent m) (Go.incr (Queue.FailedAttempts m))
              (if a <=? Queue.maxRetries then Go.incr (Queue.TotalRetries m)
               else Queue.TotalRetries m)
              (Queue.deliveryTimes m)
       else Queue.mkMetrics (Go.incr (Queue.TotalSent m)) (Queue.FailedAttempts m)
              (Queue.TotalRetries m) (Queue.deliveryTimes m ++ [d])).
Proof.
  intros Hp. unfold Queue.processNotification. rewrite Hp.
  destruct failed; simpl.
  - destruct (Go.incr (Notification.Attempts n) <=? Queue.maxRetries) eqn:Hle.
    + destruct (Store.UpdateNotification _ _ _) as [[s e]|] eqn:Hup; [|done].
      intros [= <-]. by exists e.
    + destruct (Store.UpdateNotification _ _ _) as [[s e]|] eqn:Hup; [|done].
      intros [= <-]. by exists e.
  - destruct (Store.UpdateNotification _ _ _) as [[s e]|] eqn:Hup; [|done].
    intros [= <-]. by exists e.
Qed.

Lemma UpdateNotification_keyed (h : Heap) s p s' e n :
  h !! p = Some n ->
  Store.UpdateNotification h s p = Some (s', e) ->
  Store.users s' = Store.users s /\
  (forall u l', Store.notifications s' !! u = Some l' ->
     is_Some (Store.notifications s !! u)) /\
  forall u l' q, Store.notifications s' !! u = Some l' -> q ∈ l' ->
    (q = p /\ u = Notification.UserID n) \/
    exists l, Store.notifications s !! u = Some l /\ q ∈ l.
Proof.
  intros Hp. unfold Store.UpdateNotification. rewrite Hp.
  destruct (Store.notifications s !! Notification.UserID n) as [l|] eqn:Hl.
  2:{ intros [= <- <-]. split_and!; [done|by eauto|].
      intros u l' q ??. right. eauto. }
  destruct (Store.find_by_id h (Notification.ID n) l 0) as [[i|]|]; [| |done].
  2:{ intros [= <- <-]. split_and!; [done|by eauto|].
      intros u l' q ??. right. eauto. }
  intros [= <- <-]. simpl. split_and!; [done| |].
  - intros u l' Hu. destruct (decide (Notification.UserID n = u)) as [<-|Hne].
    + by eexists.
    + rewrite lookup_insert_ne in Hu by done. by eexists.
  - intros u l' q Hu Hq.
    destruct (decide (Notification.UserID n = u)) as [<-|Hne].
    + rewrite lookup_insert_eq in Hu. injection Hu as <-.
      apply list_elem_of_lookup_1 in Hq as [j Hj].
      destruct (decide (i = j)) as [<-|Hij].
      * left. apply list_lookup_insert_Some in Hj as [(_ & -> & _)|(? & _)]; done.
      * right. exists l. split; [done|].
        rewrite list_lookup_insert_ne in Hj by done.
        by eapply list_elem_of_lookup_2.
    + rewrite lookup_insert_ne in Hu by done. right. eauto.
Qed.

(** What a [PublishPost] that returns has done to the heap and to the
    notification lists. *)
Lemma PublishPost_store_inv st req uuid now mint st' resp :
  Service.PublishPost st req uuid now mint = Some (st', resp) ->
  let s := Queue.store (Queue.nq st) in
  let post := Service.post_of req uuid now in
  exists followers,
    (forall f, f ∈ followers -> exists id, Store.users s !! id = Some f) /\
    Store.users (Queue.store (Queue.nq st')) = Store.users s /\
    Queue.heap st' = Queue.heap st ++ Service.fanned post mint followers /\
    Queue.metrics (Queue.nq st') = Queue.metrics (Queue.nq st) /\
    forall u, Store.notifications (Queue.store (Queue.nq st')) !! u =
      match Service.pointers_for u (length (Queue.heap st)) followers with
      | [] => Store.notifications s !! u
      | add => Some (default [] (Store.notifications s !! u) ++ add)
      end.
Proof.
  unfold Service.PublishPost, Store.SavePost.
  fold (Service.post_of req uuid now).
  set (post := Service.post_of req uuid now). simpl.
  unfold Store.GetFollowers. simpl.
  destruct (Store.users (Queue.store (Queue.nq st)) !! proto.AuthorId req)
    as [user|].
  - rewrite resolve_omap. simpl.
    set (followers := omap _ (User.FollowerIDs user)).
    match goal with
    | |- context [Service.fanout _ ?s1 _ _ _ _ _] =>
        destruct (fanout_exact (Queue.heap st) s1 post mint 0 followers [])
          as (s' & Hrun & Hu & Hp & Hlists)
    end.
    simpl in Hrun. rewrite Hrun. unfold Queue.QueueNotifications. simpl.
    destruct (Queue.QueueNotifications_loop _ _ _) as [[c queued]|]; [|done].
    intros [= <- <-]. simpl. exists followers. split_and!; try done.
    intros f Hf. apply list_elem_of_omap in Hf as (id & _ & Hid). eauto.
  - intros [= <- <-]. simpl. exists []. rewrite app_nil_r.
    split_and!; try done. intros f Hf. by apply elem_of_nil in Hf.
Qed.

Lemma pointers_for_elem u base followers q :
  q ∈ Service.pointers_for u base followers ->
  exists k f, q = (base + k)%nat /\ followers !! k = Some f /\ User.ID f = u.
Proof.
  revert base. induction followers as [|f rest IH]; intros base; simpl.
  - intros Hq. by apply elem_of_nil in Hq.
  - intros [Hq|Hq]%elem_of_app.
    + destruct (String.eqb_spec (User.ID f) u) as [Heq|Hne];
        [|by apply elem_of_nil in Hq].
      apply list_elem_of_singleton in Hq as ->.
      exists 0%nat, f. by rewrite Nat.add_0_r.
    + apply IH in Hq as (k & f' & -> & Hk & Hid).
      exists (S k), f'. split_and!; [lia|done..].
Qed.

Lemma fanned_lookup post mint followers k f :
  followers !! k = Some f ->
  exists n, Service.fanned post mint followers !! k = Some n /\
    fresh n /\ Notification.UserID n = User.ID f.
Proof.
  intros Hk. unfold Service.fanned. rewrite list_lookup_imap, Hk. simpl.
  destruct (mint k) as [id now]. eexists. by split_and!.
Qed.

Lemma fanned_fresh post mint followers : Forall fresh (Service.fanned post mint followers).
Proof.
  apply Forall_forall. intros n Hn.
  apply list_elem_of_lookup_1 in Hn as [k Hk].
  unfold Service.fanned in Hk. rewrite list_lookup_imap in Hk.
  destruct (followers !! k) as [f|]; [|done]. simpl in Hk.
  destruct (mint k). by injection Hk as <-.
Qed.

End MoreInvariants.

Section StepCases.

Import Pipeline.

Lemma processNotification_alloc st p failed d st' :
  Queue.processNotification st p failed d = Some st' ->
  is_Some (Queue.heap st !! p).
Proof.
  unfold Queue.processNotification.
  destruct (Queue.heap st !! p); [by eexists|done].
Qed.

Lemma QueueNotifications_loop_bounded h c notifications queued c' queued' :
  (length (Chan.buf c) <= Chan.cap c)%nat ->
  Queue.QueueNotifications_loop h c notifications queued = Some (c', queued') ->
  Chan.cap c' = Chan.cap c /\ (length (Chan.buf c') <= Chan.cap c)%nat.
Proof.
  revert c queued.
  induction notifications as [|v rest IH]; intros c queued Hfit; simpl.
  - by intros [= <- <-].
  - unfold Chan.trySend. destruct (Chan.closed c); [done|].
    destruct (Nat.ltb_spec (length (Chan.buf c)) (Chan.cap c)) as [Hlt|Hge];
      [|destruct (h !! v); [|done]];
      intros Hrec; apply IH in Hrec; simpl in *; try done.
    rewrite length_app. simpl. lia.
Qed.

Lemma PublishPost_queue st req uuid now mint st' resp :
  Service.PublishPost st req uuid now mint = Some (st', resp) ->
  Queue.queue (Queue.nq st') = Queue.queue (Queue.nq st) \/
  exists h notifications queued,
    Queue.QueueNotifications_loop h (Queue.queue (Queue.nq st)) notifications 0
    = Some (Queue.queue (Queue.nq st'), queued).
Proof.
  unfold Service.PublishPost, Store.SavePost. simpl.
  destruct (Store.GetFollowers _ _) as [followers|err].
  - destruct (Service.fanout _ _ _ _ _ _ _) as [[[h s] ps]|]; [|done].
    unfold Queue.QueueNotifications. simpl.
    destruct (Queue.QueueNotifications_loop _ _ _ _) as [[c queued]|] eqn:Hloop;
      [|done].
    intros [= <- <-]. right. eauto.
  - intros [= <- <-]. by left.
Qed.

Lemma step_bounded st st' : bounded st -> step st st' -> bounded st'.
Proof.
  intros [Hcap Hfit] Hstep. unfold bounded. destruct Hstep as
    [st req uuid now mint st' resp Hrun
    |st p rest failed d st' Hbuf Hrun
    |st before p d after q Hsl Hrun
    |st q Hrun].
  - apply PublishPost_queue in Hrun as [->|(h & ps & queued & Hloop)]; [done|].
    apply QueueNotifications_loop_bounded in Hloop as [-> ?]; [|done]. done.
  - destruct (processNotification_alloc _ _ _ _ _ Hrun) as [n Hn].
    eapply processNotification_inv in Hrun as (_ & _ & -> & _); [|exact Hn].
    simpl. rewrite Hbuf in Hfit. simpl in Hfit. split; [done|lia].
  - apply QueueNotification_inv in Hrun as (_ & _ & Hc & _ & Hb). simpl.
    rewrite Hc. destruct Hb as [[Hlt ->]|(_ & _ & ->)]; [|done].
    rewrite length_app. simpl. split; [done|lia].
  - revert Hrun. unfold Queue.Stop, Chan.close.
    destruct (Chan.closed _); [done|]. by intros [= <-].
Qed.

End StepCases.

Section DemoSteps.

Import Pipeline.

Lemma reachable_step st st' : reachable st -> step st st' -> reachable st'.
Proof.
  intros (load & clock & workerCount & Hsteps) Hstep.
  exists load, clock, workerCount. by eapply rtc_r.
Qed.

Lemma reachable_pass st failed d :
  reachable st -> Chan.buf (Queue.queue (Queue.nq st)) <> [] ->
  reachable (Demo.pass st failed d).
Proof.
  intros Hreach Hbuf. eapply reachable_step; [done|].
  destruct (Chan.buf (Queue.queue (Queue.nq st))) as [|p rest] eqn:Hb; [done|].
  destruct (worker_step_enabled st p rest failed d (reachable_wf st Hreach) Hb)
    as (st' & Hstep & Hrun).
  unfold Demo.pass. by rewrite Hb, Hrun.
Qed.

Lemma reachable_wake st :
  reachable st -> Queue.sleepers st <> [] ->
  Chan.closed (Queue.queue (Queue.nq st)) = false ->
  reachable (Demo.wake st).
Proof.
  intros Hreach Hsl Hopen. eapply reachable_step; [done|].
  unfold Demo.wake.
  destruct (Queue.sleepers st) as [|[p d] after] eqn:Hs; [done|].
  destruct (Queue.QueueNotification (Queue.heap st) (Queue.nq st) p)
    as [q|] eqn:Hq.
  - by apply (step_retry st [] p d after q).
  - destruct (lookup_lt_is_Some_2 (Queue.heap st) p) as [n Hn].
    { apply (wf_alloc st (reachable_wf st Hreach)).
      unfold pending. rewrite Hs. apply elem_of_app. right. by left. }
    revert Hq. unfold Queue.QueueNotification, Chan.trySend.
    rewrite Hopen, Hn. by destruct (_ <? _)%nat.
Qed.

Lemma demo_exhausted_reachable : reachable Demo.exhausted.
Proof.
  apply reachable_pass; [|vm_compute; discriminate].
  apply reachable_wake; [|vm_compute; discriminate|vm_compute; reflexivity].
  apply reachable_pass; [|vm_compute; discriminate].
  apply reachable_wake; [|vm_compute; discriminate|vm_compute; reflexivity].
  apply reachable_pass; [|vm_compute; discriminate].
  apply reachable_pass; [|vm_compute; discriminate].
  exists true, Demo.clock, 5.
  eapply rtc_l; [apply demo_publish|].
  eapply rtc_l; [apply demo_fail|].
  eapply rtc_l; [apply demo_retry|].
  eapply rtc_l; [apply demo_first|apply rtc_refl].
Qed.

Lemma demo_requeued_reachable : reachable Demo.requeued.
Proof.
  exists true, Demo.clock, 5.
  eapply rtc_l; [apply demo_publish|].
  eapply rtc_l; [apply demo_fail|].
  eapply rtc_l; [apply demo_retry|apply rtc_refl].
Qed.

End DemoSteps.

(** X10. In every state the process can reach the channel has the
    capacity 1000 it was made with and holds at most 1000
    notifications, so the queue size that [GetMetrics] reports is
    between 0 and 1000. *)
Theorem queue_size_bounded (st : Queue.State) :
  Pipeline.reachable st ->
  Chan.cap (Queue.queue (Queue.nq st)) = 1000%nat /\
  Queue.GetMetrics (Queue.nq st) !! "queue_size"
    = Some (Queue.VInt (Chan.len (Queue.queue (Queue.nq st)))) /\
  0 <= Chan.len (Queue.queue (Queue.nq st)) <= 1000.
Proof.
  intros Hreach.
  assert (Hb : Pipeline.bounded st).
  { revert st Hreach. apply reachable_invariant.
    - intros. split; simpl; [done|lia].
    - intros st st' _. apply step_bounded. }
  destruct Hb as [Hcap Hfit]. split; [done|]. split; [done|].
  unfold Chan.len. lia.
Qed.

Lemma queue_size_bounded_witness :
  Queue.GetMetrics (Queue.nq Demo.requeued) !! "queue_size" = Some (Queue.VInt 3).
Proof.
  destruct (queue_size_bounded Demo.requeued) as (_ & Hsize & _).
  - apply demo_requeued_reachable.
  - rewrite Hsize. vm_compute. reflexivity.
Defined.

Lemma status_table_reachable (st : Queue.State) :
  Pipeline.reachable st ->
  forall q n, Queue.heap st !! q = Some n -> Pipeline.status_attempts n.
Proof.
  revert st.
  apply (reachable_invariant (fun st => forall q n,
           Queue.heap st !! q = Some n -> Pipeline.status_attempts n)).
  - intros load clock workerCount q n Hn. simpl in Hn.
    by rewrite lookup_nil in Hn.
  - intros st st' Hwf Hinv Hstep. destruct Hstep as
      [st req uuid now mint st' resp Hrun
      |st p rest failed d st' Hbuf Hrun
      |st before p d after q0 Hsl Hrun
      |st q0 Hrun]; [| |done..].
    + apply PublishPost_store_inv in Hrun as (followers & _ & _ & Hheap & _).
      intros q n. rewrite Hheap. intros [Hn|[_ Hn]]%lookup_app_Some; [by eauto|].
      pose proof (fanned_fresh (Service.post_of req uuid now) mint followers) as Hf.
      rewrite Forall_forall in Hf.
      destruct (Hf n) as [Hs Ha]; [by eapply list_elem_of_lookup_2|].
      unfold Pipeline.status_attempts. by rewrite Hs.
    + assert (Hp : p ∈ Pipeline.pending st).
      { unfold Pipeline.pending. rewrite Hbuf. by left. }
      destruct (lookup_lt_is_Some_2 _ _ (Pipeline.wf_alloc st Hwf p Hp)) as [n Hn].
      pose proof (Pipeline.wf_in_flight st Hwf p n Hp Hn) as [Hst Hatt].
      pose proof (Hinv p n Hn) as Htab.
      eapply processNotification_effect in Hrun as (e & _ & Hheap & _); [|exact Hn].
      simpl in Hheap. unfold Queue.maxRetries in *.
      intros q m. rewrite Hheap. intros Hm.
      apply list_lookup_insert_Some in Hm as [(-> & <- & _)|(_ & Hm)]; [|by eauto].
      unfold Pipeline.status_attempts in *. unfold Queue.maxRetries. simpl.
      destruct failed; simpl.
      * rewrite incr_small by lia.
        destruct (Z.leb_spec (Notification.Attempts n + 1) 3); simpl; lia.
      * lia.
Qed.

Section CounterFacts.

Import Pipeline.

Lemma wrap64_incr z : Go.incr (Go.wrap64 z) = Go.wrap64 (z + 1).
Proof. unfold Go.incr, Go.add. apply wrap64_add_l. Qed.

Lemma total_attempts_app h1 h2 :
  total_attempts (h1 ++ h2) = total_attempts h1 + total_attempts h2.
Proof.
  unfold total_attempts. induction h1 as [|n h1 IH]; simpl; [done|].
  rewrite IH. lia.
Qed.

Lemma total_retried_app h1 h2 :
  total_retried (h1 ++ h2) = total_retried h1 + total_retried h2.
Proof.
  unfold total_retried. induction h1 as [|n h1 IH]; simpl; [done|].
  rewrite IH. lia.
Qed.

Lemma count_delivered_app h1 h2 :
  count_delivered (h1 ++ h2) = count_delivered h1 + count_delivered h2.
Proof.
  unfold count_delivered. induction h1 as [|n h1 IH]; simpl; [done|].
  rewrite IH. lia.
Qed.

Lemma totals_fresh new :
  Forall fresh new ->
  total_attempts new = 0 /\ total_retried new = 0 /\ count_delivered new = 0.
Proof.
  unfold total_attempts, total_retried, count_delivered.
  induction 1 as [|n new [Hs Ha] _ (IH1 & IH2 & IH3)]; simpl; [done|].
  rewrite IH1, IH2, IH3, Ha, Hs. done.
Qed.

Lemma total_attempts_insert (h : Heap) p n n' :
  h !! p = Some n ->
  total_attempts (<[p := n']> h) =
    total_attempts h - Notification.Attempts n + Notification.Attempts n'.
Proof.
  unfold total_attempts. revert p.
  induction h as [|m h IH]; intros [|p] Hp; simpl in *; try done.
  - injection Hp as ->. lia.
  - rewrite (IH p Hp). lia.
Qed.

Lemma total_retried_insert (h : Heap) p n n' :
  h !! p = Some n ->
  total_retried (<[p := n']> h) =
    total_retried h - Z.min (Notification.Attempts n) Queue.maxRetries
    + Z.min (Notification.Attempts n') Queue.maxRetries.
Proof.
  unfold total_retried. revert p.
  induction h as [|m h IH]; intros [|p] Hp; simpl in *; try done.
  - injection Hp as ->. lia.
  - rewrite (IH p Hp). lia.
Qed.

Lemma count_delivered_insert (h : Heap) p n n' :
  h !! p = Some n ->
  count_delivered (<[p := n']> h) =
    count_delivered h
    - (match Notification.Status n with StatusDelivered => 1 | _ => 0 end)
    + (match Notification.Status n' with StatusDelivered => 1 | _ => 0 end).
Proof.
  unfold count_delivered. revert p.
  induction h as [|m h IH]; intros [|p] Hp; simpl in *; try done.
  - injection Hp as ->. lia.
  - rewrite (IH p Hp). lia.
Qed.

End CounterFacts.

(** ** The workers statement by statement *)

Section ThreadFacts.

Import Pipeline Threads.

Lemma tally_app f ws1 ws2 : tally f (ws1 ++ ws2) = tally f ws1 + tally f ws2.
Proof.
  unfold tally. induction ws1 as [|w ws1 IH]; simpl; [done|]. rewrite IH. lia.
Qed.

Lemma tally_nonneg f ws : 0 <= tally f ws.
Proof.
  unfold tally. induction ws as [|w ws IH]; simpl; [done|]. destruct (f w); lia.
Qed.

Lemma tally_middle f before w after :
  tally f (before ++ w :: after) =
  tally f (before ++ after) + (if f w then 1 else 0).
Proof. rewrite !tally_app. simpl. lia. Qed.

Lemma tally_le_length f ws : tally f ws <= Z.of_nat (length ws).
Proof.
  unfold tally. induction ws as [|w ws IH]; simpl; [done|]. destruct (f w); lia.
Qed.

Lemma holding_middle before w after :
  omap held (before ++ w :: after) ≡ₚ
  option_list (held w) ++ omap held (before ++ after).
Proof.
  rewrite !omap_app. csimpl. destruct (held w) as [p|]; simpl; [|done].
  by rewrite Permutation_middle.
Qed.

Lemma owned_middle st before w after :
  owned (mkState st (before ++ w :: after)) ≡ₚ
  (pending st ++ option_list (held w)) ++ omap held (before ++ after).
Proof.
  unfold owned, holding. simpl. rewrite holding_middle. by rewrite app_assoc.
Qed.

Lemma boot_workers n : omap held (replicate n Select) = [].
Proof. induction n as [|n IH]; [done|]. simpl. done. Qed.

Lemma boot_tally f n : f Select = false -> tally f (replicate n Select) = 0.
Proof. intros Hf. induction n as [|n IH]; simpl; [done|]. rewrite Hf, IH. done. Qed.

Lemma boot_inv load clock workerCount : inv (Threads.boot load clock workerCount).
Proof.
  pose proof (boot_wf load clock workerCount) as Hwf.
  split; unfold owned, holding; simpl; rewrite ?boot_workers, ?boot_tally by done;
    try done.
  - apply (wf_store _ Hwf).
  - intros q Hq. by apply elem_of_nil in Hq.
  - constructor.
Qed.

Lemma waiting_table n : waiting n -> status_attempts n.
Proof.
  unfold waiting, status_attempts. intros [[-> Ha]|[-> Ha]]; done.
Qed.

Lemma waiting_charged n :
  waiting n ->
  charged (Notification.set_Attempts n (Notification.Attempts n + 1)).
Proof.
  unfold waiting, charged, Queue.maxRetries. simpl.
  intros [[-> ->]|[-> Ha]]; [left|right]; split; try done; lia.
Qed.

(** A worker moves on: what the step has to keep for the invariant to
    hold after it. *)
Lemma inv_frame st st' before w after w' :
  inv (mkState st (before ++ w :: after)) ->
  held w' = held w \/ held w' = None \/ held w = None ->
  length (Queue.heap st') = length (Queue.heap st) ->
  (forall q, held w <> Some q -> Queue.heap st' !! q = Queue.heap st !! q) ->
  (forall u l q,
     Store.notifications (Queue.store (Queue.nq st')) !! u = Some l -> q ∈ l ->
     (q < length (Queue.heap st))%nat) ->
  pending st' ++ option_list (held w') ⊆+ pending st ++ option_list (held w) ->
  (forall q, q ∈ pending st' ->
     q ∈ pending st \/
     held w = Some q /\ forall n, Queue.heap st' !! q = Some n -> waiting n) ->
  (forall q n, held w' = Some q -> Queue.heap st' !! q = Some n -> at_pc w' n) ->
  (forall q n, held w = Some q -> held w' = None ->
     Queue.heap st' !! q = Some n -> status_attempts n) ->
  let m := Queue.metrics (Queue.nq st') in
  let ws := before ++ w' :: after in
  Queue.TotalSent m = Go.wrap64 (Z.of_nat (length (Queue.deliveryTimes m))) ->
  Z.of_nat (length (Queue.deliveryTimes m)) =
    count_delivered (Queue.heap st') - tally owes_sent ws ->
  Queue.FailedAttempts m =
    Go.wrap64 (total_attempts (Queue.heap st') + tally counted_failure ws) ->
  Queue.TotalRetries m =
    Go.wrap64 (total_retried (Queue.heap st') - tally owes_retry ws) ->
  inv (mkState st' (before ++ w' :: after)).
Proof.
  intros Hinv Hheld Hlen Hframe Hstore Hsub Hpend Hnew Hrel m ws Hs Hd Hf Hr.
  assert (Hown : owned (mkState st' (before ++ w' :: after)) ⊆+
                 owned (mkState st (before ++ w :: after))).
  { rewrite !owned_middle. by apply submseteq_app. }
  pose proof (inv_nodup _ Hinv) as Hnd.
  assert (Hnd' : NoDup (owned (mkState st' (before ++ w' :: after)))).
  { apply submseteq_Permutation in Hown as [k Hk]. rewrite Hk in Hnd.
    by apply NoDup_app in Hnd as [? _]. }
  rewrite owned_middle in Hnd.
  apply NoDup_app in Hnd as (Hnd1 & Hdisj & Hnd2).
  apply NoDup_app in Hnd1 as (_ & Hdisj1 & _).
  assert (Hother : forall w2 q, w2 ∈ before ++ after -> held w2 = Some q ->
            held w <> Some q /\ w2 ∈ before ++ w :: after).
  { intros w2 q Hw2 Hq. split.
    - intros Hw. apply (Hdisj q).
      + apply elem_of_app. right. rewrite Hw. by left.
      + apply list_elem_of_omap. eauto.
    - apply elem_of_app in Hw2 as [?|?]; apply elem_of_app; [by left|].
      right. by right. }
  split; simpl.
  - intros u l q Hl Hq. rewrite Hlen. eauto.
  - intros q Hq. rewrite Hlen. apply (inv_alloc _ Hinv).
    by eapply elem_of_submseteq.
  - done.
  - intros q n Hq Hn. destruct (Hpend q Hq) as [Hold|[_ Hw]]; [|by eauto].
    apply (inv_pending _ Hinv q n Hold). simpl. rewrite <- Hframe; [done|].
    intros Hw. apply (Hdisj1 q Hold). rewrite Hw. by left.
  - intros w2 q n Hw2 Hq Hn.
    assert (Hcases : w2 = w' \/ w2 ∈ before ++ after).
    { apply elem_of_app in Hw2 as [?|Hw2]; [right; apply elem_of_app; by left|].
      apply elem_of_cons in Hw2 as [?|?]; [by left|].
      right. apply elem_of_app. by right. }
    destruct Hcases as [->|Hw2']; [by eauto|].
    destruct (Hother w2 q Hw2' Hq) as [Hne Hin].
    apply (inv_worker _ Hinv w2 q n Hin Hq). simpl. by rewrite <- Hframe.
  - intros q n Hn Hq. unfold holding in Hq. simpl in Hq.
    rewrite holding_middle in Hq.
    destruct (decide (held w = Some q)) as [Hw|Hw].
    + destruct Hheld as [Hheld|[Hheld|Hheld]].
      * exfalso. apply Hq. apply elem_of_app. left. rewrite Hheld, Hw. by left.
      * by eauto.
      * congruence.
    + apply (inv_rest _ Hinv q n); simpl; [by rewrite <- Hframe|].
      unfold holding. simpl. rewrite holding_middle. intros Hin. apply Hq.
      apply elem_of_app in Hin as [Hin|Hin]; [|apply elem_of_app; by right].
      destruct (held w) as [p|]; simpl in Hin; [|by apply elem_of_nil in Hin].
      apply list_elem_of_singleton in Hin. congruence.
  - done.
  - done.
  - done.
  - done.
Qed.

Lemma inv_holder st before w after p :
  inv (mkState st (before ++ w :: after)) -> held w = Some p ->
  exists n, Queue.heap st !! p = Some n /\ at_pc w n.
Proof.
  intros Hinv Hw.
  destruct (lookup_lt_is_Some_2 (Queue.heap st) p) as [n Hn].
  { apply (inv_alloc _ Hinv). rewrite owned_middle, Hw.
    apply elem_of_app. left. apply elem_of_app. right. by left. }
  exists n. split; [done|].
  apply (inv_worker _ Hinv w p n); simpl; [|done..].
  apply elem_of_app. right. by left.
Qed.

Lemma inv_tallies st before w after :
  inv (mkState st (before ++ w :: after)) ->
  let m := Queue.metrics (Queue.nq st) in
  Queue.TotalSent m = Go.wrap64 (Z.of_nat (length (Queue.deliveryTimes m))) /\
  Z.of_nat (length (Queue.deliveryTimes m)) =
    count_delivered (Queue.heap st) - tally owes_sent (before ++ after)
    - (if owes_sent w then 1 else 0) /\
  Queue.FailedAttempts m =
    Go.wrap64 (total_attempts (Queue.heap st) + tally counted_failure (before ++ after)
               + (if counted_failure w then 1 else 0)) /\
  Queue.TotalRetries m =
    Go.wrap64 (total_retried (Queue.heap st) - tally owes_retry (before ++ after)
               - (if owes_retry w then 1 else 0)).
Proof.
  intros Hinv m.
  pose proof (inv_sent _ Hinv) as Hs. pose proof (inv_delivered _ Hinv) as Hd.
  pose proof (inv_failed _ Hinv) as Hf. pose proof (inv_retried _ Hinv) as Hr.
  simpl in *. rewrite tally_middle in Hd, Hf, Hr. fold m in Hs, Hd, Hf, Hr.
  split_and!; [done|lia|rewrite Hf; f_equal; lia|rewrite Hr; f_equal; lia].
Qed.

(** A worker writes to the notification it holds, or to a counter. *)
Lemma inv_local st q' h' before w after w' p n n' :
  inv (mkState st (before ++ w :: after)) ->
  held w = Some p -> held w' = Some p ->
  Queue.heap st !! p = Some n -> h' = <[p := n']> (Queue.heap st) ->
  Queue.store q' = Queue.store (Queue.nq st) ->
  Queue.queue q' = Queue.queue (Queue.nq st) ->
  at_pc w' n' ->
  let m := Queue.metrics q' in
  let ws := before ++ w' :: after in
  Queue.TotalSent m = Go.wrap64 (Z.of_nat (length (Queue.deliveryTimes m))) ->
  Z.of_nat (length (Queue.deliveryTimes m)) =
    count_delivered h' - tally owes_sent ws ->
  Queue.FailedAttempts m =
    Go.wrap64 (total_attempts h' + tally counted_failure ws) ->
  Queue.TotalRetries m =
    Go.wrap64 (total_retried h' - tally owes_retry ws) ->
  inv (mkState (Queue.mkState h' q' (Queue.sleepers st)) (before ++ w' :: after)).
Proof.
  intros Hinv Hw Hw' Hn -> Hstore Hqueue Hat m ws Hs Hd Hf Hr.
  assert (Hpend : pending (Queue.mkState (<[p:=n']> (Queue.heap st)) q'
                             (Queue.sleepers st)) = pending st).
  { unfold pending. simpl. by rewrite Hqueue. }
  eapply inv_frame; [exact Hinv|..]; simpl; try done.
  - left. congruence.
  - by rewrite length_insert.
  - intros q Hq. apply list_lookup_insert_ne. congruence.
  - rewrite Hstore. apply (inv_store _ Hinv).
  - by rewrite Hpend, Hw, Hw'.
  - intros q. rewrite Hpend. by left.
  - intros q n0 Hq Hn0. assert (q = p) as -> by congruence.
    rewrite list_lookup_insert_eq in Hn0 by by eapply lookup_lt_Some.
    by injection Hn0 as <-.
  - intros q n0 _ Hnone. congruence.
Qed.

Lemma update_inv st p st' :
  update st p = Some st' ->
  Queue.heap st' = Queue.heap st /\ Queue.sleepers st' = Queue.sleepers st /\
  Queue.queue (Queue.nq st') = Queue.queue (Queue.nq st) /\
  Queue.metrics (Queue.nq st') = Queue.metrics (Queue.nq st) /\
  forall u l q,
    Store.notifications (Queue.store (Queue.nq st')) !! u = Some l -> q ∈ l ->
    q = p \/ exists l0,
      Store.notifications (Queue.store (Queue.nq st)) !! u = Some l0 /\ q ∈ l0.
Proof.
  unfold update.
  destruct (Store.UpdateNotification _ _ _) as [[s e]|] eqn:Hup; [|done].
  intros [= <-]. simpl. split_and!; try done.
  by apply UpdateNotification_store in Hup as (_ & _ & Hl).
Qed.

(** A worker has the store updated. *)
Lemma inv_update st st' before w after w' p n :
  inv (mkState st (before ++ w :: after)) ->
  held w = Some p -> held w' = Some p \/ held w' = None ->
  Queue.heap st !! p = Some n ->
  update st p = Some st' ->
  at_pc w' n -> status_attempts n ->
  owes_sent w' = owes_sent w -> counted_failure w' = counted_failure w ->
  owes_retry w' = owes_retry w ->
  inv (mkState st' (before ++ w' :: after)).
Proof.
  intros Hinv Hw Hw' Hn Hup Hat Htab Ho1 Ho2 Ho3.
  destruct (inv_tallies _ _ _ _ Hinv) as (Hs & Hd & Hf & Hr).
  apply update_inv in Hup as (Hheap & Hsl & Hqueue & Hm & Hstore).
  assert (Hpend : pending st' = pending st).
  { unfold pending. by rewrite Hqueue, Hsl. }
  eapply inv_frame; [exact Hinv|..]; rewrite ?Hheap, ?Hm, ?tally_middle,
    ?Ho1, ?Ho2, ?Ho3; try done.
  - destruct Hw' as [?|?]; [left; congruence|by right; left].
  - intros u l q Hl Hq. destruct (Hstore u l q Hl Hq) as [->|(l0 & Hl0 & Hq0)].
    + by eapply lookup_lt_Some.
    + by apply (inv_store _ Hinv u l0 q).
  - rewrite Hpend, Hw. destruct Hw' as [-> | ->]; simpl; [done|].
    rewrite app_nil_r. by apply submseteq_inserts_r.
  - intros q. rewrite Hpend. by left.
  - intros q n0 Hq Hn0. destruct Hw' as [Hw'|Hw']; [|congruence].
    assert (q = p) as -> by congruence. congruence.
  - intros q n0 Hq _ Hn0. assert (q = p) as -> by congruence. congruence.
  - lia.
  - rewrite Hf. f_equal. lia.
  - rewrite Hr. f_equal. lia.
Qed.

Lemma statement_inv st before w after quit failed d st' w' :
  inv (mkState st (before ++ w :: after)) ->
  statement st w quit failed d = Some (st', w') ->
  inv (mkState st' (before ++ w' :: after)).
Proof.
  intros Hinv Hrun.
  destruct (inv_tallies _ _ _ _ Hinv) as (Hs & Hd & Hf & Hr).
  destruct w as [|p|p|p|p b|p b|p b|p b|p|p|p|p|p|]; simpl in Hrun;
    try (destruct (inv_holder _ _ _ _ p Hinv eq_refl) as (n & Hn & Hat));
    simpl in *.
  - (* Select *)
    assert (Hexit : inv (mkState st (before ++ Exited :: after))).
    { eapply inv_frame; [exact Hinv|..]; simpl; rewrite ?tally_middle; simpl;
        try done.
      - by left.
      - apply (inv_store _ Hinv).
      - intros q. by left.
      - lia.
      - rewrite Hf. f_equal. lia.
      - rewrite Hr. f_equal. lia. }
    destruct (quit && _); [by injection Hrun as <- <-|].
    destruct (Chan.buf (Queue.queue (Queue.nq st))) as [|p rest] eqn:Hbuf.
    { destruct (Chan.closed _); [by injection Hrun as <- <-|done]. }
    injection Hrun as <- <-.
    assert (Hpend : pending st = p :: rest ++ (Queue.sleepers st).*1).
    { unfold pending. by rewrite Hbuf. }
    eapply inv_frame; [exact Hinv|..]; simpl; rewrite ?tally_middle; simpl;
      try done.
    + by right; right.
    + apply (inv_store _ Hinv).
    + rewrite Hpend, app_nil_r. unfold pending. simpl.
      by rewrite <- Permutation_cons_append.
    + intros q Hq. left. rewrite Hpend. by right.
    + intros q n [= <-] Hn. apply (inv_pending _ Hinv p n); simpl; [|done].
      rewrite Hpend. by left.
    + lia.
    + rewrite Hf. f_equal. lia.
    + rewrite Hr. f_equal. lia.
  - (* Coin *)
    injection Hrun as <- <-. destruct st as [h q sl]. simpl in *.
    destruct failed;
      (eapply (inv_local (Queue.mkState h q sl) q h _ _ _ _ p n n);
       simpl; rewrite ?list_insert_id, ?tally_middle by done; simpl; try done;
       [lia|rewrite Hf; f_equal; lia|rewrite Hr; f_equal; lia]).
  - (* CountFailure *)
    injection Hrun as <- <-.
    eapply (inv_local st _ _ _ _ _ _ p n n);
      simpl; rewrite ?list_insert_id, ?tally_middle by done; simpl; try done.
    + lia.
    + rewrite Hf, wrap64_incr. f_equal. lia.
    + rewrite Hr. f_equal. lia.
  - (* Increment *)
    rewrite Hn in Hrun. injection Hrun as <- <-.
    pose proof (waiting_charged n Hat) as Hch.
    unfold waiting, Queue.maxRetries in Hat.
    assert (Ha : 0 <= Notification.Attempts n <= 3)
      by (destruct Hat as [[_ ->]|[_ ?]]; lia).
    assert (Hst : Notification.Status n = StatusQueued \/
                  Notification.Status n = StatusRetrying) by tauto.
    unfold Queue.maxRetries. rewrite (incr_small (Notification.Attempts n)) by lia.
    destruct (Z.leb_spec (Notification.Attempts n + 1) 3);
      (eapply (inv_local st _ _ _ _ _ _ p n); simpl;
       rewrite ?tally_middle,
         ?(total_attempts_insert _ _ n), ?(total_retried_insert _ _ n),
         ?(count_delivered_insert _ _ n) by done; simpl; try done;
       try (split; [done|unfold Queue.maxRetries; simpl; lia]);
       try (destruct Hst as [-> | ->]; lia);
       try (rewrite Hf; f_equal; lia);
       try (rewrite Hr; f_equal; unfold Queue.maxRetries; lia)).
  - (* SetRetrying *)
    unfold write_status in Hrun. rewrite Hn in Hrun. injection Hrun as <- <-.
    destruct Hat as [Hat Ha]. unfold charged, Queue.maxRetries in *.
    assert (Hst : Notification.Status n = StatusQueued \/
                  Notification.Status n = StatusRetrying) by tauto.
    eapply (inv_local st _ _ _ _ _ _ p n); simpl;
      rewrite ?tally_middle,
        ?(total_attempts_insert _ _ n), ?(total_retried_insert _ _ n),
        ?(count_delivered_insert _ _ n) by done; simpl; try done.
    + split; [done|]. simpl. unfold Queue.maxRetries.
      destruct Hat as [[_ ?]|[_ ?]]; lia.
    + destruct Hst as [-> | ->]; lia.
    + rewrite Hf. f_equal. lia.
    + rewrite Hr. f_equal. lia.
  - (* UpdateRetrying *)
    destruct (update st p) as [st1|] eqn:Hup; [|done]. injection Hrun as <- <-.
    eapply (inv_update st st1 _ _ _ _ p n); try done; [by left|].
    unfold status_attempts. destruct Hat as [-> Ha]. done.
  - (* CountRetry *)
    injection Hrun as <- <-.
    eapply (inv_local st _ _ _ _ _ _ p n n);
      simpl; rewrite ?list_insert_id, ?tally_middle by done; simpl; try done.
    + lia.
    + rewrite Hf. f_equal. lia.
    + rewrite Hr, wrap64_incr. f_equal. lia.
  - (* Spawn *)
    injection Hrun as <- <-.
    eapply inv_frame; [exact Hinv|..]; simpl; rewrite ?tally_middle; simpl;
      try done.
    + by right; left.
    + apply (inv_store _ Hinv).
    + unfold pending. simpl. rewrite fmap_app, app_nil_r, app_assoc. done.
    + intros q. unfold pending. simpl. rewrite fmap_app, app_assoc.
      intros [Hq|Hq]%elem_of_app; [by left|]. right.
      apply list_elem_of_singleton in Hq as ->. split; [done|].
      intros n0 Hn0. simpl in Hn0. assert (n0 = n) as -> by congruence.
      right. done.
    + intros q n0 Hq _ Hn0. assert (n0 = n) as -> by congruence.
      unfold status_attempts. destruct Hat as [-> Ha]. done.
    + lia.
    + rewrite Hf. f_equal. lia.
    + rewrite Hr. f_equal. lia.
  - (* SetFailed *)
    unfold write_status in Hrun. rewrite Hn in Hrun. injection Hrun as <- <-.
    destruct Hat as [Hat Ha]. unfold charged, Queue.maxRetries in *.
    assert (Hst : Notification.Status n = StatusRetrying)
      by (destruct Hat as [[_ ?]|[? _]]; [lia|done]).
    eapply (inv_local st _ _ _ _ _ _ p n); simpl;
      rewrite ?tally_middle,
        ?(total_attempts_insert _ _ n), ?(total_retried_insert _ _ n),
        ?(count_delivered_insert _ _ n) by done; simpl; try done.
    + rewrite Hst. lia.
    + rewrite Hf. f_equal. lia.
    + rewrite Hr. f_equal. lia.
  - (* UpdateFailed *)
    destruct (update st p) as [st1|] eqn:Hup; [|done]. injection Hrun as <- <-.
    eapply (inv_update st st1 _ _ _ _ p n); try done; [by right|].
    unfold status_attempts. destruct Hat as [-> Ha]. done.
  - (* SetDelivered *)
    unfold write_status in Hrun. rewrite Hn in Hrun. injection Hrun as <- <-.
    unfold waiting, Queue.maxRetries in Hat.
    assert (Ha : 0 <= Notification.Attempts n <= 3)
      by (destruct Hat as [[_ ->]|[_ ?]]; lia).
    assert (Hst : Notification.Status n = StatusQueued \/
                  Notification.Status n = StatusRetrying) by tauto.
    eapply (inv_local st _ _ _ _ _ _ p n); simpl;
      rewrite ?tally_middle,
        ?(total_attempts_insert _ _ n), ?(total_retried_insert _ _ n),
        ?(count_delivered_insert _ _ n) by done; simpl; try done.
    + destruct Hst as [-> | ->]; lia.
    + rewrite Hf. f_equal. lia.
    + rewrite Hr. f_equal. lia.
  - (* UpdateDelivered *)
    destruct (update st p) as [st1|] eqn:Hup; [|done]. injection Hrun as <- <-.
    eapply (inv_update st st1 _ _ _ _ p n); try done; [by left|].
    unfold status_attempts. destruct Hat as [-> Ha]. done.
  - (* Record *)
    injection Hrun as <- <-.
    eapply inv_frame; [exact Hinv|..]; simpl; rewrite ?tally_middle; simpl;
      try done.
    + by right; left.
    + apply (inv_store _ Hinv).
    + rewrite app_nil_r. by apply submseteq_inserts_r.
    + intros q. by left.
    + intros q n0 Hq _ Hn0. assert (n0 = n) as -> by congruence.
      unfold status_attempts. destruct Hat as [-> Ha]. done.
    + rewrite Hs, wrap64_incr, length_app. simpl. f_equal. lia.
    + rewrite length_app. simpl. lia.
    + rewrite Hf. f_equal. lia.
    + rewrite Hr. f_equal. lia.
  - done.
Qed.

(** A call that leaves the heap, the store, the counters and the
    workers alone and hands no new notification to the queue. *)
Lemma inv_shrink fs st' :
  inv fs ->
  Queue.heap st' = Queue.heap (shared fs) ->
  Queue.store (Queue.nq st') = Queue.store (Queue.nq (shared fs)) ->
  Queue.metrics (Queue.nq st') = Queue.metrics (Queue.nq (shared fs)) ->
  pending st' ⊆+ pending (shared fs) ->
  inv (mkState st' (workers fs)).
Proof.
  intros Hinv Hheap Hstore Hm Hsub.
  assert (Hown : owned (mkState st' (workers fs)) ⊆+ owned fs).
  { unfold owned, holding. simpl. by apply submseteq_app. }
  split; simpl; rewrite ?Hheap, ?Hstore, ?Hm; try apply Hinv.
  - intros q Hq. apply (inv_alloc _ Hinv). by eapply elem_of_submseteq.
  - pose proof (inv_nodup _ Hinv) as Hnd.
    apply submseteq_Permutation in Hown as [k Hk]. rewrite Hk in Hnd.
    by apply NoDup_app in Hnd as [? _].
  - intros q n Hq. apply (inv_pending _ Hinv). by eapply elem_of_submseteq.
Qed.

Lemma publish_inv fs req uuid now mint st' resp :
  inv fs ->
  Service.PublishPost (shared fs) req uuid now mint = Some (st', resp) ->
  inv (mkState st' (workers fs)).
Proof.
  intros Hinv Hrun.
  apply PublishPost_inv in Hrun
    as (new & accepted & Hheap & Hnew & Hacc & Hbuf & Hsl & _ & Hm & _ & Hstore).
  assert (Hrange : forall q, q ∈ accepted ->
            (length (Queue.heap (shared fs)) <= q
             < length (Queue.heap (shared fs)) + length new)%nat).
  { intros q Hq. eapply elem_of_sublist in Hq; [|done].
    apply elem_of_seq in Hq. lia. }
  assert (Hfresh : forall q n, (length (Queue.heap (shared fs)) <= q)%nat ->
            Queue.heap st' !! q = Some n -> fresh n).
  { intros q n Hq. rewrite Hheap, lookup_app_r by done. intros Hn.
    rewrite Forall_forall in Hnew. apply Hnew. by eapply list_elem_of_lookup_2. }
  assert (Hold : forall q, (q < length (Queue.heap (shared fs)))%nat ->
            Queue.heap st' !! q = Queue.heap (shared fs) !! q).
  { intros q Hq. by rewrite Hheap, lookup_app_l. }
  assert (Hpend : pending st' ≡ₚ pending (shared fs) ++ accepted).
  { unfold pending. rewrite Hbuf, Hsl, <- !app_assoc.
    apply Permutation_app_head, Permutation_app_comm. }
  assert (Hown : owned (mkState st' (workers fs)) ≡ₚ accepted ++ owned fs).
  { unfold owned, holding. simpl. rewrite Hpend.
    rewrite (Permutation_app_comm (pending (shared fs)) accepted).
    by rewrite <- app_assoc. }
  split; simpl.
  - intros u l q Hl Hq. rewrite Hheap, length_app.
    destruct (Hstore u l q Hl Hq) as [(l0 & Hl0 & Hq0)|Hq0];
      [|rewrite Hheap, length_app in Hq0; lia].
    pose proof (inv_store _ Hinv u l0 q Hl0 Hq0). lia.
  - intros q Hq. rewrite Hown in Hq. rewrite Hheap, length_app.
    apply elem_of_app in Hq as [Hq|Hq]; [apply Hrange in Hq; lia|].
    pose proof (inv_alloc _ Hinv q Hq). lia.
  - rewrite Hown. apply NoDup_app. split_and!.
    + eapply sublist_NoDup; [apply NoDup_seq|done].
    + intros q Hq Hq'. apply Hrange in Hq. apply (inv_alloc _ Hinv) in Hq'. lia.
    + apply (inv_nodup _ Hinv).
  - intros q n Hq Hn. rewrite Hpend in Hq.
    apply elem_of_app in Hq as [Hq|Hq].
    + apply (inv_pending _ Hinv q n Hq). rewrite <- Hold; [done|].
      apply (inv_alloc _ Hinv). apply elem_of_app. by left.
    + destruct (Hfresh q n) as [Hs Ha]; [apply Hrange in Hq; lia|done|].
      by left.
  - intros w q n Hw Hq Hn. apply (inv_worker _ Hinv w q n Hw Hq).
    rewrite <- Hold; [done|]. apply (inv_alloc _ Hinv). apply elem_of_app.
    right. apply list_elem_of_omap. eauto.
  - intros q n Hn Hq.
    destruct (decide (q < length (Queue.heap (shared fs)))%nat) as [Hlt|Hge].
    + apply (inv_rest _ Hinv q n); [|done]. by rewrite <- Hold.
    + destruct (Hfresh q n) as [Hs Ha]; [lia|done|].
      unfold status_attempts. by rewrite Hs.
  - rewrite Hm. apply Hinv.
  - rewrite Hm, Hheap, count_delivered_app.
    destruct (totals_fresh _ Hnew) as (_ & _ & ->). rewrite Z.add_0_r.
    apply Hinv.
  - rewrite Hm, Hheap, total_attempts_app.
    destruct (totals_fresh _ Hnew) as (-> & _ & _). rewrite Z.add_0_r.
    apply Hinv.
  - rewrite Hm, Hheap, total_retried_app.
    destruct (totals_fresh _ Hnew) as (_ & -> & _). rewrite Z.add_0_r.
    apply Hinv.
Qed.

Lemma step_inv fs fs' : inv fs -> Threads.step fs fs' -> inv fs'.
Proof.
  intros Hinv Hstep. destruct Hstep as
    [fs before w after quit failed d st' w' Hws Hrun
    |fs req uuid now mint st' resp Hrun
    |fs before p d after q Hsl Hrun
    |fs q Hrun].
  - destruct fs as [st ws]. simpl in *. subst ws. by eapply statement_inv.
  - by eapply publish_inv.
  - apply QueueNotification_inv in Hrun as (_ & Hq & _ & _ & Hbuf).
    apply inv_shrink; simpl; try done; try by rewrite Hq.
    unfold pending. simpl. rewrite Hsl, !fmap_app.
    simpl. destruct Hbuf as [[_ ->]|(_ & _ & ->)].
    + rewrite <- app_assoc. apply submseteq_skips_l. simpl.
      by rewrite Permutation_middle.
    + apply submseteq_skips_l, submseteq_skips_l. by constructor.
  - revert Hrun. unfold Queue.Stop, Chan.close.
    destruct (Chan.closed _); [done|]. intros [= <-].
    by apply inv_shrink.
Qed.

Lemma steps_inv fs fs' : inv fs -> rtc Threads.step fs fs' -> inv fs'.
Proof.
  intros Hinv Hsteps. induction Hsteps as [fs|fs1 fs2 fs3 Hstep Hsteps IH];
    [done|].
  apply IH. by eapply step_inv.
Qed.

Lemma threads_reachable_inv fs : Threads.reachable fs -> inv fs.
Proof.
  intros (load & clock & workerCount & Hsteps).
  eapply steps_inv; [apply boot_inv|done].
Qed.

Lemma run_statement st before w after quit failed d st' w' fs' :
  statement st w quit failed d = Some (st', w') ->
  rtc Threads.step (mkState st' (before ++ w' :: after)) fs' ->
  rtc Threads.step (mkState st (before ++ w :: after)) fs'.
Proof.
  intros Hrun Hsteps. eapply rtc_l; [|exact Hsteps].
  by eapply (step_statement (mkState st (before ++ w :: after))).
Qed.

(** A whole pass of [processNotification] is a run of its statements
    by one worker. *)
Lemma pass_statements st p rest failed d st' before after :
  Chan.buf (Queue.queue (Queue.nq st)) = p :: rest ->
  Queue.processNotification
    (Queue.mkState (Queue.heap st)
       (Queue.set_queue (Queue.nq st)
          (Chan.mk rest (Chan.cap (Queue.queue (Queue.nq st)))
             (Chan.closed (Queue.queue (Queue.nq st)))))
       (Queue.sleepers st))
    p failed d = Some st' ->
  rtc Threads.step (mkState st (before ++ Select :: after))
    (mkState st' (before ++ Select :: after)).
Proof.
  intros Hbuf Hrun.
  eapply (run_statement _ _ _ _ false failed d); [simpl; by rewrite Hbuf|].
  eapply (run_statement _ _ _ _ false failed d); [reflexivity|].
  unfold Queue.processNotification in Hrun. simpl in Hrun.
  destruct (Queue.heap st !! p) as [n|] eqn:Hn; [|done].
  assert (Hlt : (p < length (Queue.heap st))%nat) by by eapply lookup_lt_Some.
  destruct failed.
  - eapply (run_statement _ _ _ _ false true d); [reflexivity|].
    eapply (run_statement _ _ _ _ false true d); [simpl; by rewrite Hn|].
    simpl in *. destruct (_ <=? _).
    + destruct (Store.UpdateNotification _ _ _) as [[s e]|] eqn:Hup; [|done].
      injection Hrun as <-.
      eapply (run_statement _ _ _ _ false true d).
      { simpl. unfold write_status. simpl.
        by rewrite list_lookup_insert_eq by done. }
      rewrite list_insert_insert_eq.
      eapply (run_statement _ _ _ _ false true d).
      { simpl. unfold update. simpl. by rewrite Hup. }
      eapply (run_statement _ _ _ _ false true d); [reflexivity|].
      eapply (run_statement _ _ _ _ false true d); [reflexivity|].
      apply rtc_refl.
    + destruct (Store.UpdateNotification _ _ _) as [[s e]|] eqn:Hup; [|done].
      injection Hrun as <-.
      eapply (run_statement _ _ _ _ false true d).
      { simpl. unfold write_status. simpl.
        by rewrite list_lookup_insert_eq by done. }
      rewrite list_insert_insert_eq.
      eapply (run_statement _ _ _ _ false true d).
      { simpl. unfold update. simpl. by rewrite Hup. }
      apply rtc_refl.
  - destruct (Store.UpdateNotification _ _ _) as [[s e]|] eqn:Hup; [|done].
    injection Hrun as <-.
    eapply (run_statement _ _ _ _ false false d).
    { simpl. unfold write_status. simpl. by rewrite Hn. }
    eapply (run_statement _ _ _ _ false false d).
    { simpl. unfold update. simpl. by rewrite Hup. }
    eapply (run_statement _ _ _ _ false false d); [reflexivity|].
    apply rtc_refl.
Qed.

(** The process taken call by call is the process taken statement by
    statement, looked at when every worker is in its select. *)
Lemma calls_are_statements st st' ws :
  Select ∈ ws -> Pipeline.step st st' ->
  rtc Threads.step (mkState st ws) (mkState st' ws).
Proof.
  intros Hw Hstep. destruct Hstep as
    [st req uuid now mint st' resp Hrun
    |st p rest failed d st' Hbuf Hrun
    |st before p d after q Hsl Hrun
    |st q Hrun].
  - apply rtc_once. by eapply (Threads.step_publish (mkState st ws)).
  - apply list_elem_of_split in Hw as (before & after & ->).
    by eapply pass_statements.
  - apply rtc_once. by eapply (Threads.step_retry (mkState st ws)).
  - apply rtc_once. by eapply (Threads.step_stop (mkState st ws)).
Qed.

Lemma reachable_statements st :
  Pipeline.reachable st ->
  Threads.reachable
    (mkState st (replicate (Z.to_nat (Queue.workerCount (Queue.nq st))) Select)).
Proof.
  intros (load & clock & workerCount & Hsteps).
  exists load, clock, workerCount. unfold Threads.boot.
  destruct (steps_sound _ _ (boot_wf load clock workerCount) Hsteps)
    as (_ & _ & ->).
  set (ws := replicate _ Select).
  assert (Hw : Select ∈ ws).
  { apply elem_of_replicate. split; [done|]. simpl.
    destruct (Z.leb_spec workerCount 0); unfold Queue.maxWorkers; lia. }
  clearbody ws. induction Hsteps as [st|st1 st2 st3 Hstep Hsteps IH];
    [apply rtc_refl|].
  etrans; [by apply calls_are_statements|done].
Qed.

(** Status and attempts of a notification under the invariant: the
    table, or the notification of a worker about to write the status. *)
Lemma inv_table fs q n :
  inv fs -> Queue.heap (shared fs) !! q = Some n ->
  status_attempts n \/
  charged n /\
  ((exists backoff, SetRetrying q backoff ∈ workers fs) \/
   SetFailed q ∈ workers fs).
Proof.
  intros Hinv Hn.
  destruct (decide (q ∈ holding fs)) as [Hq|Hq];
    [|left; by apply (inv_rest _ Hinv q n)].
  apply list_elem_of_omap in Hq as (w & Hw & Hheld).
  pose proof (inv_worker _ Hinv w q n Hw Hheld Hn) as Hat.
  destruct w; simpl in Hheld; try done; injection Hheld as ->; simpl in Hat;
    try (left; by apply waiting_table);
    try (left; unfold status_attempts; by destruct Hat as [-> ?]).
  - right. split; [apply Hat|]. left. eauto.
  - right. split; [apply Hat|]. by right.
Qed.

Lemma inv_attempts fs q n :
  inv fs -> Queue.heap (shared fs) !! q = Some n ->
  0 <= Notification.Attempts n <= 4.
Proof.
  intros Hinv Hn. destruct (inv_table fs q n Hinv Hn) as [Htab|[Hch _]].
  - unfold status_attempts, Queue.maxRetries in Htab.
    destruct (Notification.Status n); lia.
  - unfold charged, Queue.maxRetries in Hch. lia.
Qed.

(** The notifications of the workers that a test picks out. *)
Lemma tally_pointers (f : pc -> bool) ws :
  (forall w, f w = true -> is_Some (held w)) ->
  exists l, tally f ws = Z.of_nat (length l) /\ l `sublist_of` omap held ws /\
    forall q, q ∈ l -> exists w, w ∈ ws /\ f w = true /\ held w = Some q.
Proof.
  intros Hf. induction ws as [|w ws (l & Hlen & Hsub & Hin)].
  - exists []. split_and!; [done|done|]. intros q Hq. by apply elem_of_nil in Hq.
  - simpl tally. csimpl. destruct (f w) eqn:Hw.
    + destruct (Hf w Hw) as [p Hp]. rewrite Hp. simpl.
      exists (p :: l). split_and!.
      * simpl. lia.
      * by constructor.
      * intros q [->|Hq]%elem_of_cons.
        -- exists w. split_and!; [by left|done..].
        -- destruct (Hin q Hq) as (w2 & ? & ? & ?). exists w2.
           split_and!; [by right|done..].
    + exists l. split_and!.
      * lia.
      * destruct (held w); simpl; [by constructor|done].
      * intros q Hq. destruct (Hin q Hq) as (w2 & ? & ? & ?). exists w2.
        split_and!; [by right|done..].
Qed.

Lemma attempts_budget (l : list ptr) (h : Heap) :
  NoDup l ->
  (forall q, q ∈ l -> exists n, h !! q = Some n /\ Notification.Attempts n <= 3) ->
  (forall q n, h !! q = Some n -> Notification.Attempts n <= 4) ->
  total_attempts h + Z.of_nat (length l) <= 4 * Z.of_nat (length h).
Proof.
  intros Hnd. revert h. induction Hnd as [|q l Hq Hnd IH]; intros h Hl Hall.
  - simpl. rewrite Z.add_0_r. clear Hl.
    unfold total_attempts. induction h as [|n h IHh]; [simpl; lia|].
    cbn [foldr length]. rewrite Nat2Z.inj_succ.
    pose proof (Hall 0%nat n eq_refl).
    specialize (IHh (fun q m Hm => Hall (S q) m Hm)). lia.
  - destruct (Hl q) as (n & Hn & Ha); [by left|].
    set (n' := Notification.set_Attempts n (Notification.Attempts n + 1)).
    specialize (IH (<[q := n']> h)).
    rewrite (total_attempts_insert _ _ n) in IH by done.
    rewrite length_insert in IH. simpl in IH. cbn [length].
    rewrite Nat2Z.inj_succ.
    enough (total_attempts h - Notification.Attempts n
            + (Notification.Attempts n + 1) + Z.of_nat (length l)
            <= 4 * Z.of_nat (length h)) by lia.
    apply IH.
    + intros q' Hq'. destruct (Hl q') as (m & Hm & Hma); [by right|].
      exists m. split; [|done]. rewrite list_lookup_insert_ne; [done|].
      intros ->. done.
    + intros q' m Hm.
      apply list_lookup_insert_Some in Hm as [(-> & <- & _)|(_ & Hm)];
        [simpl; lia|by eauto].
Qed.

Lemma retries_owed (l : list ptr) (h : Heap) :
  NoDup l ->
  (forall q, q ∈ l -> exists n, h !! q = Some n /\ 1 <= Notification.Attempts n) ->
  (forall q n, h !! q = Some n -> 0 <= Notification.Attempts n) ->
  Z.of_nat (length l) <= total_retried h.
Proof.
  intros Hnd. revert h. induction Hnd as [|q l Hq Hnd IH]; intros h Hl Hall.
  - simpl. clear Hl.
    unfold total_retried. induction h as [|n h IHh]; [simpl; lia|].
    cbn [foldr]. pose proof (Hall 0%nat n eq_refl).
    specialize (IHh (fun q m Hm => Hall (S q) m Hm)).
    unfold Queue.maxRetries in *. lia.
  - destruct (Hl q) as (n & Hn & Ha); [by left|].
    set (n' := Notification.set_Attempts n 0).
    specialize (IH (<[q := n']> h)).
    rewrite (total_retried_insert _ _ n) in IH by done.
    simpl in IH. cbn [length]. rewrite Nat2Z.inj_succ.
    unfold Queue.maxRetries in *.
    enough (Z.of_nat (length l)
            <= total_retried h - Notification.Attempts n `min` 3 + 0 `min` 3)
      by lia.
    apply IH.
    + intros q' Hq'. destruct (Hl q') as (m & Hm & Hma); [by right|].
      exists m. split; [|done]. rewrite list_lookup_insert_ne; [done|].
      intros ->. done.
    + intros q' m Hm.
      apply list_lookup_insert_Some in Hm as [(-> & <- & _)|(_ & Hm)];
        [simpl; lia|by eauto].
Qed.

Lemma sums_bounded (h : Heap) :
  (forall q n, h !! q = Some n -> 0 <= Notification.Attempts n <= 4) ->
  0 <= total_retried h <= total_attempts h /\
  total_retried h <= 3 * Z.of_nat (length h) /\
  0 <= count_delivered h <= Z.of_nat (length h).
Proof.
  unfold total_attempts, total_retried, count_delivered.
  induction h as [|n h IH]; intros Hall; [simpl; lia|].
  destruct IH as (IH1 & IH2 & IH3); [intros q m Hm; apply (Hall (S q) m Hm)|].
  pose proof (Hall 0%nat n eq_refl) as Hn. unfold Queue.maxRetries in *.
  cbn [foldr length]. rewrite Nat2Z.inj_succ.
  destruct (Notification.Status n); lia.
Qed.

(** The counters under the invariant. *)
Lemma inv_counters fs :
  inv fs ->
  let m := Queue.metrics (Queue.nq (shared fs)) in
  let N := Z.of_nat (length (Queue.heap (shared fs))) in
  N < 2 ^ 60 ->
  0 <= Queue.TotalSent m <= N /\
  0 <= Queue.TotalRetries m <= Queue.FailedAttempts m /\
  Queue.TotalRetries m <= 3 * N /\
  Queue.FailedAttempts m <= 4 * N.
Proof.
  intros Hinv m N HN.
  pose proof (inv_sent _ Hinv) as Hs. pose proof (inv_delivered _ Hinv) as Hd.
  pose proof (inv_failed _ Hinv) as Hf. pose proof (inv_retried _ Hinv) as Hr.
  fold m in Hs, Hd, Hf, Hr. fold N.
  destruct (sums_bounded (Queue.heap (shared fs))) as (H1 & H2 & H3).
  { intros q n Hn. by apply (inv_attempts fs q n). }
  fold N in H2, H3.
  pose proof (inv_nodup _ Hinv) as Hnd. apply NoDup_app in Hnd as (_ & _ & Hnd).
  destruct (tally_pointers counted_failure (workers fs)) as (lf & Hlf & Hsubf & Hinf).
  { by intros []. }
  destruct (tally_pointers owes_retry (workers fs)) as (lr & Hlr & Hsubr & Hinr).
  { by intros []. }
  pose proof (tally_nonneg owes_sent (workers fs)) as Hos.
  assert (Hbudget : total_attempts (Queue.heap (shared fs))
                    + tally counted_failure (workers fs) <= 4 * N).
  { rewrite Hlf. apply attempts_budget.
    - by eapply sublist_NoDup.
    - intros q Hq. destruct (Hinf q Hq) as (w & Hw & Hfw & Hheld).
      destruct (lookup_lt_is_Some_2 (Queue.heap (shared fs)) q) as [n Hn].
      { apply (inv_alloc _ Hinv). apply elem_of_app. right.
        apply list_elem_of_omap. eauto. }
      exists n. split; [done|].
      pose proof (inv_worker _ Hinv w q n Hw Hheld Hn) as Hat.
      destruct w; try done. simpl in Hat.
      unfold waiting, Queue.maxRetries in Hat. lia.
    - intros q n Hn. by apply (inv_attempts fs q n). }
  assert (Howed : tally owes_retry (workers fs)
                  <= total_retried (Queue.heap (shared fs))).
  { rewrite Hlr. apply retries_owed.
    - by eapply sublist_NoDup.
    - intros q Hq. destruct (Hinr q Hq) as (w & Hw & Hfw & Hheld).
      destruct (lookup_lt_is_Some_2 (Queue.heap (shared fs)) q) as [n Hn].
      { apply (inv_alloc _ Hinv). apply elem_of_app. right.
        apply list_elem_of_omap. eauto. }
      exists n. split; [done|].
      pose proof (inv_worker _ Hinv w q n Hw Hheld Hn) as Hat.
      destruct w; try done; simpl in Hat;
        unfold charged, Queue.maxRetries in Hat; lia.
    - intros q n Hn. by apply (inv_attempts fs q n). }
  pose proof (tally_nonneg counted_failure (workers fs)).
  pose proof (tally_nonneg owes_retry (workers fs)).
  rewrite Hs, Hf, Hr, Hd. rewrite !wrap64_small by lia. lia.
Qed.

Lemma reachable_advance fs i failed d :
  Threads.reachable fs -> Threads.reachable (Demo.advance fs i failed d).
Proof.
  intros (load & clock & workerCount & Hsteps). unfold Demo.advance.
  destruct (workers fs !! i) as [w|] eqn:Hw; [|by exists load, clock, workerCount].
  destruct (statement (shared fs) w false failed d) as [[st w']|] eqn:Hrun;
    [|by exists load, clock, workerCount].
  exists load, clock, workerCount. eapply rtc_r; [exact Hsteps|].
  eapply step_statement; [|exact Hrun]. by rewrite take_drop_middle.
Qed.

Lemma demo_charged_reachable : Threads.reachable Demo.charged.
Proof.
  do 4 apply reachable_advance.
  apply (reachable_statements Demo.published).
  exists true, Demo.clock, 5. apply rtc_once, demo_publish.
Qed.

Lemma demo_settled_reachable : Threads.reachable Demo.settled.
Proof. apply (reachable_statements Demo.exhausted), demo_exhausted_reachable. Qed.

End ThreadFacts.

(** X11. Status and attempts go together, at every step of every
    interleaving of the statements of the workers (with [PublishPost],
    the re-submission of a retry and [Stop] as whole calls). A
    notification is queued with 0 or 1 attempt, retrying with 1 to 4,
    delivered with 0 to 3 or failed with exactly 4, and never has the
    unknown status.
    The sharper table (queued with no attempt, retrying with 1 to 3)
    holds of every notification but one that a worker holds between
    the increment of the attempts (line 140) and the write of the
    status (lines 149 and 171). *)
Theorem status_attempts_table (fs : Threads.State) (q : ptr) (n : Notification.t) :
  Threads.reachable fs ->
  Queue.heap (Threads.shared fs) !! q = Some n ->
  match Notification.Status n with
  | StatusUnknown => False
  | StatusQueued => 0 <= Notification.Attempts n <= 1
  | StatusRetrying => 1 <= Notification.Attempts n <= 4
  | StatusDelivered => 0 <= Notification.Attempts n <= 3
  | StatusFailed => Notification.Attempts n = 4
  end /\
  (match Notification.Status n with
   | StatusUnknown => False
   | StatusQueued => Notification.Attempts n = 0
   | StatusRetrying => 1 <= Notification.Attempts n <= 3
   | StatusDelivered => 0 <= Notification.Attempts n <= 3
   | StatusFailed => Notification.Attempts n = 4
   end \/
   (exists backoff, Threads.SetRetrying q backoff ∈ Threads.workers fs) \/
   Threads.SetFailed q ∈ Threads.workers fs).
Proof.
  intros Hreach Hn.
  destruct (inv_table fs q n (threads_reachable_inv fs Hreach) Hn)
    as [Htab|[Hch Hw]].
  - unfold Pipeline.status_attempts, Queue.maxRetries in Htab.
    split; [|by left]. destruct (Notification.Status n); lia.
  - split; [|by right]. unfold Threads.charged, Queue.maxRetries in Hch.
    destruct Hch as [[-> ?]|[-> ?]]; lia.
Qed.

Lemma status_attempts_table_witness :
  (Notification.Status <$> Queue.heap (Threads.shared Demo.charged) !! 0%nat)
  = Some StatusQueued /\
  (Notification.Attempts <$> Queue.heap (Threads.shared Demo.charged) !! 0%nat)
  = Some 1 /\
  ((exists backoff,
      Threads.SetRetrying 0%nat backoff ∈ Threads.workers Demo.charged) \/
   Threads.SetFailed 0%nat ∈ Threads.workers Demo.charged).
Proof.
  destruct (Queue.heap (Threads.shared Demo.charged) !! 0%nat) as [n|] eqn:Hn;
    [|vm_compute in Hn; discriminate].
  assert (Hs : Notification.Status n = StatusQueued /\ Notification.Attempts n = 1).
  { vm_compute in Hn. injection Hn as <-. split; reflexivity. }
  destruct Hs as [Hs Ha].
  split; [simpl; by rewrite Hs|]. split; [simpl; by rewrite Ha|].
  destruct (status_attempts_table Demo.charged 0%nat n demo_charged_reachable Hn)
    as [_ [Htab|Hw]]; [|exact Hw].
  rewrite Hs, Ha in Htab. discriminate.
Defined.

(** X12. The counters and the notifications, at every step of every
    interleaving of the statements of the workers (with [PublishPost],
    the re-submission of a retry and [Stop] as whole calls).
    [TotalSent] and the
    list of delivery durations are written in one critical section
    (lines 190 to 193), so [TotalSent] is the number of recorded
    durations, modulo 2^64. A notification is delivered at most once
    and fails at most four times, three of them followed by a retry,
    and a worker counts the failure before it counts the retry; so,
    with [N] the number of notifications allocated and [N] below 2^60,
    [TotalSent] is from 0 to [N], [TotalRetries] is from 0 to [3 * N]
    and no more than [FailedAttempts], and [FailedAttempts] is no more
    than [4 * N]. *)
Theorem counters_consistent (fs : Threads.State) :
  Threads.reachable fs ->
  let m := Queue.metrics (Queue.nq (Threads.shared fs)) in
  let N := Z.of_nat (length (Queue.heap (Threads.shared fs))) in
  Queue.TotalSent m = Go.wrap64 (Z.of_nat (length (Queue.deliveryTimes m))) /\
  (N < 2 ^ 60 ->
   0 <= Queue.TotalSent m <= N /\
   0 <= Queue.TotalRetries m <= Queue.FailedAttempts m /\
   Queue.TotalRetries m <= 3 * N /\
   Queue.FailedAttempts m <= 4 * N).
Proof.
  intros Hreach m N.
  pose proof (threads_reachable_inv fs Hreach) as Hinv.
  split; [apply (Threads.inv_sent _ Hinv)|].
  apply (inv_counters fs Hinv).
Qed.

Lemma counters_consistent_witness :
  Queue.TotalSent (Queue.metrics (Queue.nq (Threads.shared Demo.settled))) = 2 /\
  0 <= Queue.TotalRetries (Queue.metrics (Queue.nq (Threads.shared Demo.charged)))
    <= Queue.FailedAttempts (Queue.metrics (Queue.nq (Threads.shared Demo.charged))) /\
  Queue.FailedAttempts (Queue.metrics (Queue.nq (Threads.shared Demo.charged))) <= 12.
Proof.
  destruct (counters_consistent Demo.settled demo_settled_reachable)
    as (Hsent & _).
  destruct (counters_consistent Demo.charged demo_charged_reachable)
    as (_ & Hbounds).
  destruct Hbounds as (_ & Hretries & _ & Hfailed).
  - vm_compute. reflexivity.
  - split; [rewrite Hsent; vm_compute; reflexivity|].
    split; [exact Hretries|]. exact Hfailed.
Defined.

Section IdentityFacts.

Import Pipeline.

Lemma same_identity_refl n : same_identity n n.
Proof. by split_and!. Qed.

Lemma same_identity_trans n1 n2 n3 :
  same_identity n1 n2 -> same_identity n2 n3 -> same_identity n1 n3.
Proof. unfold same_identity. intros ? ?. split_and!; by etrans; [apply H0|apply H]. Qed.

Lemma step_identity st st' q n :
  step st st' -> Queue.heap st !! q = Some n ->
  exists n', Queue.heap st' !! q = Some n' /\ same_identity n n'.
Proof.
  intros Hstep Hn. destruct Hstep as
    [st req uuid now mint st' resp Hrun
    |st p rest failed d st' Hbuf Hrun
    |st before p d after q0 Hsl Hrun
    |st q0 Hrun].
  - apply PublishPost_store_inv in Hrun as (followers & _ & _ & Hheap & _).
    exists n. rewrite Hheap. split; [by apply lookup_app_l_Some|].
    apply same_identity_refl.
  - destruct (processNotification_alloc _ _ _ _ _ Hrun) as [m Hm].
    eapply processNotification_effect in Hrun as (e & _ & Hheap & _); [|exact Hm].
    simpl in Hheap, Hm. rewrite Hheap.
    destruct (decide (q = p)) as [->|Hne].
    + eexists. split; [apply list_lookup_insert_eq; by eapply lookup_lt_Some|].
      rewrite Hm in Hn. injection Hn as <-. by split_and!.
    + exists n. rewrite list_lookup_insert_ne by done.
      split; [done|apply same_identity_refl].
  - exists n. split; [done|apply same_identity_refl].
  - exists n. split; [done|apply same_identity_refl].
Qed.

Lemma users_keyed_boot load clock workerCount : keyed (boot load clock workerCount).
Proof.
  unfold keyed. simpl. destruct load; simpl.
  - unfold Store.loadSampleData. simpl. split_and!.
    + intros id u Hu.
      repeat match type of Hu with
      | <[?k := _]> _ !! id = _ =>
          destruct (decide (k = id)) as [<-|?];
          [rewrite lookup_insert_eq in Hu; by injection Hu as <-
          |rewrite lookup_insert_ne in Hu by done]
      end.
      by rewrite lookup_empty in Hu.
    + intros u l Hl.
      repeat match type of Hl with
      | <[?k := _]> _ !! u = _ =>
          destruct (decide (k = u)) as [<-|?];
          [vm_compute; by eexists
          |rewrite lookup_insert_ne in Hl by done]
      end.
      by rewrite lookup_empty in Hl.
    + intros u l q Hl Hq.
      repeat match type of Hl with
      | <[?k := _]> _ !! u = _ =>
          destruct (decide (k = u)) as [<-|?];
          [rewrite lookup_insert_eq in Hl; injection Hl as <-;
           by apply elem_of_nil in Hq
          |rewrite lookup_insert_ne in Hl by done]
      end.
      by rewrite lookup_empty in Hl.
  - split_and!.
    + intros id u Hu. by rewrite lookup_empty in Hu.
    + intros u l Hl. by rewrite lookup_empty in Hl.
    + intros u l q Hl. by rewrite lookup_empty in Hl.
Qed.

Lemma keyed_reachable st : reachable st -> keyed st.
Proof.
  revert st. apply (reachable_invariant keyed).
  - apply users_keyed_boot.
  - intros st st' Hwf (Husers & Hkeys & Hptrs) Hstep. unfold keyed.
    destruct Hstep as
      [st req uuid now mint st' resp Hrun
      |st p rest failed d st' Hbuf Hrun
      |st before p d after q0 Hsl Hrun
      |st q0 Hrun].
    + apply PublishPost_store_inv in Hrun
        as (followers & Hfol & Hu & Hheap & _ & Hlists).
      rewrite Hu. split_and!; [done| |].
      * intros u l. rewrite Hlists.
        destruct (Service.pointers_for u _ followers) as [|q add] eqn:Hadd;
          [by eauto|]. intros _.
        destruct (pointers_for_elem u (length (Queue.heap st)) followers q)
          as (k & f & _ & Hk & Hid); [rewrite Hadd; by left|].
        destruct (Hfol f) as [id Hf]; [by eapply list_elem_of_lookup_2|].
        rewrite <- Hid. rewrite (Husers id f Hf). by eexists.
      * intros u l q. rewrite Hlists, Hheap.
        assert (Hold : forall l0, Store.notifications
                  (Queue.store (Queue.nq st)) !! u = Some l0 -> q ∈ l0 ->
                exists n, (Queue.heap st ++ Service.fanned
                  (Service.post_of req uuid now) mint followers) !! q = Some n /\
                  Notification.UserID n = u).
        { intros l0 Hl0 Hq. destruct (Hptrs u l0 q Hl0 Hq) as (n & Hn & Huid).
          exists n. split; [by apply lookup_app_l_Some|done]. }
        destruct (Service.pointers_for u _ followers) as [|q0 add] eqn:Hadd;
          [by eauto|].
        intros [= <-] [Hq|Hq]%elem_of_app.
        -- destruct (Store.notifications (Queue.store (Queue.nq st)) !! u)
             as [l0|]; simpl in Hq; [by eauto|by apply elem_of_nil in Hq].
        -- rewrite <- Hadd in Hq.
           apply pointers_for_elem in Hq as (k & f & -> & Hk & Hid).
           destruct (fanned_lookup (Service.post_of req uuid now) mint followers
                       k f Hk) as (n & Hn & _ & Huid).
           exists n. rewrite lookup_app_r, Nat.add_comm, Nat.add_sub by lia.
           split; [done|congruence].
    + assert (Hp : p ∈ pending st).
      { unfold pending. rewrite Hbuf. by left. }
      pose proof (wf_alloc st Hwf p Hp) as Hlt.
      destruct (lookup_lt_is_Some_2 _ _ Hlt) as [n Hn].
      eapply processNotification_effect in Hrun as (e & Hup & Hheap & _);
        [|exact Hn].
      simpl in Hup, Hheap.
      eapply UpdateNotification_keyed in Hup as (Hu & Hk & Hp');
        [|by apply list_lookup_insert_eq].
      rewrite Hu, Hheap. split_and!; [done| |].
      * intros u l Hl. destruct (Hk u l Hl) as [l0 Hl0]. eauto.
      * intros u l q Hl Hq.
        assert (Hself : exists m,
          <[p := Notification.set_Status
                   (Notification.set_Attempts n
                      (if failed then Go.incr (Notification.Attempts n)
                       else Notification.Attempts n))
                   (if failed
                    then if (if failed then Go.incr (Notification.Attempts n)
                             else Notification.Attempts n) <=? Queue.maxRetries
                         then StatusRetrying else StatusFailed
                    else StatusDelivered)]> (Queue.heap st) !! p = Some m /\
          Notification.UserID m = Notification.UserID n).
        { eexists. split; [by apply list_lookup_insert_eq|done]. }
        destruct (Hp' u l q Hl Hq) as [[-> ->]|(l0 & Hl0 & Hq0)]; [done|].
        destruct (Hptrs u l0 q Hl0 Hq0) as (m & Hm & Huid).
        destruct (decide (q = p)) as [->|Hne].
        -- destruct Hself as (m' & Hm' & Huid'). exists m'. split; [done|].
           congruence.
        -- exists m. by rewrite list_lookup_insert_ne.
    + simpl.
      assert (Queue.store q0 = Queue.store (Queue.nq st)) as ->; [|done].
      by apply QueueNotification_inv in Hrun as (_ & -> & _).
    + simpl.
      assert (Queue.store q0 = Queue.store (Queue.nq st)) as ->; [|done].
      revert Hrun. unfold Queue.Stop.
      destruct (Chan.close _); [|done]. by intros [= <-].
Qed.

End IdentityFacts.

(** X13. No step of the process changes what identifies a
    notification: along any run its ID, recipient, post, author,
    content, creation time and read flag stay as they were; only status
    and attempts move. *)
Theorem identity_preserved (st st' : Queue.State) (q : ptr) (n : Notification.t) :
  rtc Pipeline.step st st' ->
  Queue.heap st !! q = Some n ->
  exists n', Queue.heap st' !! q = Some n' /\
    Notification.ID n' = Notification.ID n /\
    Notification.UserID n' = Notification.UserID n /\
    Notification.PostID n' = Notification.PostID n /\
    Notification.AuthorID n' = Notification.AuthorID n /\
    Notification.Content n' = Notification.Content n /\
    Notification.CreatedAt n' = Notification.CreatedAt n /\
    Notification.Read n' = Notification.Read n.
Proof.
  intros Hsteps. revert n.
  induction Hsteps as [st|st1 st2 st3 Hstep Hsteps IH]; intros n Hn.
  - exists n. by split_and!.
  - destruct (step_identity st1 st2 q n Hstep Hn) as (n2 & Hn2 & H12).
    destruct (IH n2 Hn2) as (n3 & Hn3 & H23).
    exists n3. split; [done|].
    exact (same_identity_trans n n2 n3 H12 H23).
Qed.

Lemma identity_preserved_witness :
  exists n', Queue.heap Demo.delivered !! 0%nat = Some n' /\
    Notification.ID n' = "a"%string /\ Notification.UserID n' = "user1"%string.
Proof.
  destruct (identity_preserved Demo.published Demo.delivered 0%nat
              (NewNotification "a" Demo.t0 "user1"
                 (Service.post_of Demo.req "fresh" Demo.t0)))
    as (n' & Hn' & Hid & Huid & _).
  - eapply rtc_l; [apply demo_fail|].
    eapply rtc_l; [apply demo_retry|]. apply demo_deliver.
  - vm_compute. reflexivity.
  - exists n'. split; [exact Hn'|]. split; [exact Hid|exact Huid].
Defined.

(** X14. In every state the process can reach, each pointer in a
    user's notification list points to an allocated notification
    addressed to that user, and that user is in the users table under
    its own ID. *)
Theorem store_referential_integrity (st : Queue.State) (u : string)
    (l : list ptr) (q : ptr) :
  Pipeline.reachable st ->
  Store.notifications (Queue.store (Queue.nq st)) !! u = Some l ->
  q ∈ l ->
  exists n user, Queue.heap st !! q = Some n /\ Notification.UserID n = u /\
    Store.users (Queue.store (Queue.nq st)) !! u = Some user /\ User.ID user = u.
Proof.
  intros Hreach Hl Hq.
  destruct (keyed_reachable st Hreach) as (Husers & Hkeys & Hptrs).
  destruct (Hptrs u l q Hl Hq) as (n & Hn & Huid).
  destruct (Hkeys u l Hl) as [user Huser].
  exists n, user. split_and!; [done..|]. by apply (Husers u).
Qed.

Lemma store_referential_integrity_witness :
  exists n user, Queue.heap Demo.exhausted !! 2%nat = Some n /\
    Notification.UserID n = "user5"%string /\
    Store.users (Queue.store (Queue.nq Demo.exhausted)) !! "user5" = Some user /\
    User.ID user = "user5"%string.
Proof.
  apply (store_referential_integrity Demo.exhausted "user5" [2%nat] 2%nat).
  - apply demo_exhausted_reachable.
  - vm_compute. reflexivity.
  - by left.
Defined.

(** ** The read API *)

(** X15. The names that [NotificationStatusFromModel] gives the five
    status constants are pairwise distinct, and every integer outside
    1..4 is named like the unknown status. *)
Theorem NotificationStatusFromModel_names :
  (forall s1 s2,
     Resolver.NotificationStatusFromModel (status_int s1) =
     Resolver.NotificationStatusFromModel (status_int s2) -> s1 = s2) /\
  (forall z, ~ 1 <= z <= 4 ->
     Resolver.NotificationStatusFromModel z = "UNKNOWN"%string) /\
  (forall z, 1 <= z <= 4 ->
     Resolver.NotificationStatusFromModel z <> "UNKNOWN"%string).
Proof.
  split_and!.
  - intros [] []; vm_compute; congruence.
  - intros z Hz. unfold Resolver.NotificationStatusFromModel.
    destruct (Z.eqb_spec z 0); [done|].
    destruct (Z.eqb_spec z 1); [lia|].
    destruct (Z.eqb_spec z 2); [lia|].
    destruct (Z.eqb_spec z 3); [lia|].
    destruct (Z.eqb_spec z 4); [lia|done].
  - intros z Hz.
    assert (z = 1 \/ z = 2 \/ z = 3 \/ z = 4) as [->|[->|[->| ->]]] by lia;
      vm_compute; congruence.
Qed.

(** X16. On the map that the queue's [GetMetrics] returns, none of the
    six type assertions of [MetricsResolver] fails, and each numeric
    field is the int32 conversion of the value in the queue: equal to
    it from -2^31 up to 2^31 - 1, and wrapped around outside (a counter
    at 2^31 reads -2^31). *)
Theorem MetricsResolver_fields (nq : Queue.NotificationQueue) :
  let r := Resolver.GetMetrics nq in
  let m := Queue.metrics nq in
  Resolver.TotalSent r = Some (Go.wrap32 (Queue.TotalSent m)) /\
  Resolver.FailedAttempts r = Some (Go.wrap32 (Queue.FailedAttempts m)) /\
  Resolver.TotalRetries r = Some (Go.wrap32 (Queue.TotalRetries m)) /\
  Resolver.AvgDeliveryTime r =
    Some (time.String (Queue.avgDeliveryTime (Queue.deliveryTimes m))) /\
  Resolver.QueueSize r = Some (Go.wrap32 (Chan.len (Queue.queue nq))) /\
  Resolver.WorkerCount r = Some (Go.wrap32 (Queue.workerCount nq)) /\
  (forall z, - 2 ^ 31 <= z < 2 ^ 31 -> Go.wrap32 z = z) /\
  Go.wrap32 (2 ^ 31) = - 2 ^ 31.
Proof.
  intros r m. split_and!; try reflexivity.
  intros z Hz. unfold Go.wrap32. rewrite Z.mod_small by lia. lia.
Qed.

Section ReadFacts.

Import Pipeline.

Lemma GetUserNotifications_20 s userID :
  Store.GetUserNotifications s userID 20 (20 * Go.PtrSize) =
    Some (take 20 (reverse (default [] (Store.notifications s !! userID))), None).
Proof.
  unfold Store.GetUserNotifications.
  destruct (Store.notifications s !! userID) as [l|]; simpl; [|done].
  change (Go.makeslice_ok (20 * Go.PtrSize) 20) with true. simpl.
  rewrite collect_take by (vm_compute; done || lia).
  by rewrite firstn_all.
Qed.

End ReadFacts.

(** X17. In every state the process can reach, [GetNotifications] for
    any user returns without a panic and without an error at most 20
    resolvers, and each of them reads a notification addressed to that
    user, with one of the four names QUEUED, DELIVERED, FAILED,
    RETRYING as status and with its attempts, a number from 0 to 4,
    unchanged by the conversion to int32. *)
Theorem GetNotifications_resolvers (st : Queue.State) (userID : string) :
  Pipeline.reachable st ->
  exists rs,
    Resolver.GetNotifications (Queue.store (Queue.nq st)) userID = Some (inl rs) /\
    (length rs <= 20)%nat /\
    forall r, r ∈ rs ->
      exists n, Queue.heap st !! Resolver.notification r = Some n /\
        Resolver.UserID (Queue.heap st) r = Some userID /\
        Resolver.Attempts (Queue.heap st) r = Some (Notification.Attempts n) /\
        0 <= Notification.Attempts n <= 4 /\
        exists name, Resolver.Status (Queue.heap st) r = Some name /\
          name ∈ ["QUEUED"; "DELIVERED"; "FAILED"; "RETRYING"]%string.
Proof.
  intros Hreach. unfold Resolver.GetNotifications.
  rewrite GetUserNotifications_20. eexists. split; [reflexivity|].
  split.
  { rewrite length_fmap, length_take. lia. }
  intros r Hr. apply list_elem_of_fmap in Hr as (q & -> & Hq).
  apply subseteq_take in Hq. rewrite elem_of_reverse in Hq.
  destruct (Store.notifications (Queue.store (Queue.nq st)) !! userID)
    as [l|] eqn:Hl; simpl in Hq; [|by apply elem_of_nil in Hq].
  destruct (keyed_reachable st Hreach) as (_ & _ & Hptrs).
  destruct (Hptrs userID l q Hl Hq) as (n & Hn & Huid).
  pose proof (Pipeline.wf_attempts st (reachable_wf st Hreach) q n Hn) as Hatt.
  unfold Queue.maxRetries in Hatt.
  pose proof (status_table_reachable st Hreach q n Hn) as Htab.
  exists n. unfold Resolver.UserID, Resolver.Attempts, Resolver.Status. simpl.
  rewrite Hn, Huid. split; [done|]. split; [done|]. split; [|split; [lia|]].
  - f_equal. unfold Go.wrap32. rewrite Z.mod_small by lia. lia.
  - eexists. split; [reflexivity|].
    unfold Pipeline.status_attempts in Htab.
    destruct (Notification.Status n); [done|..]; vm_compute;
      repeat constructor.
Qed.

Lemma GetNotifications_resolvers_witness :
  exists rs,
    Resolver.GetNotifications (Queue.store (Queue.nq Demo.exhausted)) "user1"
    = Some (inl rs) /\
    forall r, r ∈ rs ->
      Resolver.UserID (Queue.heap Demo.exhausted) r = Some "user1"%string.
Proof.
  destruct (GetNotifications_resolvers Demo.exhausted "user1"
              demo_exhausted_reachable) as (rs & Hget & _ & Hall).
  exists rs. split; [exact Hget|].
  intros r Hr. destruct (Hall r Hr) as (n & _ & Huid & _). exact Huid.
Defined.

(** ** Publishing after [Stop], and the store update of a pass *)

(** X18. On a closed queue [PublishPost] panics as soon as the author
    has one follower that resolves (the send on the closed channel),
    and returns success with nothing queued when none resolves. *)
Theorem PublishPost_after_Stop (st : Queue.State) (req : proto.Post)
    (uuid : string) (now : time.Time) (mint : nat -> string * time.Time)
    (user : User.t) :
  Chan.closed (Queue.queue (Queue.nq st)) = true ->
  Store.users (Queue.store (Queue.nq st)) !! proto.AuthorId req = Some user ->
  let followers :=
    omap (fun id => Store.users (Queue.store (Queue.nq st)) !! id)
      (User.FollowerIDs user) in
  (followers <> [] -> Service.PublishPost st req uuid now mint = None) /\
  (followers = [] ->
   exists st', Service.PublishPost st req uuid now mint =
     Some (st', inl (proto.mkResponse
                       (Post.ID (Service.post_of req uuid now)) 0 true)) /\
     Queue.heap st' = Queue.heap st).
Proof.
  intros Hclosed Huser followers.
  unfold Service.PublishPost, Store.SavePost.
  fold (Service.post_of req uuid now).
  set (post := Service.post_of req uuid now). simpl.
  unfold Store.GetFollowers. simpl. rewrite Huser, resolve_omap. simpl.
  fold followers.
  match goal with
  | |- context [Service.fanout _ ?s1 _ _ _ _ _] =>
      destruct (fanout_exact (Queue.heap st) s1 post mint 0 followers [])
        as (s' & Hrun & _)
  end.
  simpl in Hrun. rewrite Hrun. unfold Queue.QueueNotifications. simpl. split.
  - intros Hne. destruct followers as [|f rest]; [done|]. simpl.
    unfold Chan.trySend. by rewrite Hclosed.
  - intros ->. simpl. eexists. split; [reflexivity|]. simpl. by rewrite app_nil_r.
Qed.

Lemma PublishPost_after_Stop_witness :
  Service.PublishPost Demo.stopped Demo.req "fresh" Demo.t0 Demo.mint = None /\
  exists st',
    Service.PublishPost Demo.stopped (proto.mkPost "p5" "user5" "solo" 1700000200)
      "fresh" Demo.t0 Demo.mint
    = Some (st', inl (proto.mkResponse "p5" 0 true)).
Proof.
  split.
  - apply (PublishPost_after_Stop Demo.stopped Demo.req "fresh" Demo.t0 Demo.mint
             (User.mk "user2" "bob" ["user1"; "user3"; "user5"] [])).
    + vm_compute. reflexivity.
    + vm_compute. reflexivity.
    + vm_compute. discriminate.
  - destruct (PublishPost_after_Stop Demo.stopped
                (proto.mkPost "p5" "user5" "solo" 1700000200)
                "fresh" Demo.t0 Demo.mint (User.mk "user5" "eve" [] []))
      as (_ & Hnone).
    + vm_compute. reflexivity.
    + vm_compute. reflexivity.
    + destruct Hnone as (st' & Hrun & _); [reflexivity|]. by exists st'.
Defined.

Section StoredFacts.

Import Pipeline.

Lemma ids_insert_same_id (h : Heap) p n n' l :
  h !! p = Some n -> Notification.ID n' = Notification.ID n ->
  ids (<[p := n']> h) l = ids h l.
Proof.
  intros Hp Hid. unfold ids. apply list_fmap_ext. intros _ q _.
  destruct (decide (q = p)) as [->|Hne].
  - rewrite list_lookup_insert_eq by (by eapply lookup_lt_Some).
    rewrite Hp. simpl. by rewrite Hid.
  - by rewrite list_lookup_insert_ne.
Qed.

Lemma ids_elem h l id :
  Some id ∈ ids h l <->
  exists q n, q ∈ l /\ h !! q = Some n /\ Notification.ID n = id.
Proof.
  unfold ids. rewrite list_elem_of_fmap. split.
  - intros (q & Heq & Hq). destruct (h !! q) as [n|] eqn:Hn; [|done].
    injection Heq as ->. eauto.
  - intros (q & n & Hq & Hn & <-). exists q. by rewrite Hn.
Qed.

(** [UpdateNotification] keeps the keys of the map and the IDs read
    through each list. *)
Lemma UpdateNotification_ids (h : Heap) s p s' e n :
  h !! p = Some n ->
  Store.UpdateNotification h s p = Some (s', e) ->
  forall u l, Store.notifications s !! u = Some l ->
    exists l', Store.notifications s' !! u = Some l' /\ ids h l' = ids h l.
Proof.
  intros Hp. unfold Store.UpdateNotification. rewrite Hp.
  destruct (Store.notifications s !! Notification.UserID n) as [l0|] eqn:Hl0.
  2:{ intros [= <- <-] u l Hl. eauto. }
  destruct (Store.find_by_id h (Notification.ID n) l0 0) as [[i|]|] eqn:Hfind;
    [| |done].
  2:{ intros [= <- <-] u l Hl. eauto. }
  intros [= <- <-] u l Hl. simpl.
  destruct (decide (Notification.UserID n = u)) as [<-|Hne].
  - rewrite lookup_insert_eq. eexists. split; [done|].
    rewrite Hl0 in Hl. injection Hl as <-.
    apply find_by_id_found in Hfind as (k & q & m & -> & Hk & Hm & Hid & _).
    unfold ids. rewrite list_fmap_insert. apply list_insert_id. simpl.
    rewrite list_lookup_fmap, Hk. simpl. rewrite Hp, Hm. simpl. by rewrite Hid.
  - rewrite lookup_insert_ne by done. eauto.
Qed.

(** When the ID is in the recipient's list the update succeeds. *)
Lemma UpdateNotification_finds (h : Heap) s p n l :
  h !! p = Some n ->
  Store.notifications s !! Notification.UserID n = Some l ->
  (forall q, q ∈ l -> is_Some (h !! q)) ->
  Some (Notification.ID n) ∈ ids h l ->
  exists s', Store.UpdateNotification h s p = Some (s', None).
Proof.
  intros Hp Hl Hall Hid. unfold Store.UpdateNotification. rewrite Hp, Hl.
  destruct (find_by_id_total h (Notification.ID n) l 0 Hall) as [r Hr].
  rewrite Hr. destruct r as [i|]; [by eexists|].
  apply ids_elem in Hid as (q & m & Hq & Hm & Heq).
  by destruct (find_by_id_absent _ _ _ _ Hr q m Hq Hm).
Qed.

Lemma pointers_for_intro base followers k f :
  followers !! k = Some f ->
  (base + k)%nat ∈ Service.pointers_for (User.ID f) base followers.
Proof.
  revert base k. induction followers as [|f0 rest IH]; intros base [|k] Hk;
    simpl in *; try done.
  - injection Hk as ->. rewrite String.eqb_refl, Nat.add_0_r.
    apply elem_of_app. left. by left.
  - apply elem_of_app. right.
    replace (base + S k)%nat with (S base + k)%nat by lia. by apply IH.
Qed.

Lemma stored_reachable st : reachable st -> stored st.
Proof.
  revert st. apply (reachable_invariant stored).
  - intros load clock workerCount q n Hn. simpl in Hn.
    by rewrite lookup_nil in Hn.
  - intros st st' Hwf Hinv Hstep. unfold stored.
    destruct Hstep as
      [st req uuid now mint st' resp Hrun
      |st p rest failed d st' Hbuf Hrun
      |st before p d after q0 Hsl Hrun
      |st q0 Hrun].
    + apply PublishPost_store_inv in Hrun
        as (followers & _ & _ & Hheap & _ & Hlists).
      intros q n. rewrite Hheap, Hlists.
      intros [Hn|[Hge Hn]]%lookup_app_Some.
      * destruct (Hinv q n Hn) as (l & Hl & Hid).
        apply ids_elem in Hid as (q' & m & Hq' & Hm & Heq).
        rewrite Hl. simpl.
        destruct (Service.pointers_for _ _ followers) as [|a add].
        -- exists l. split; [done|]. apply ids_elem.
           exists q', m. split_and!; [done|by apply lookup_app_l_Some|done].
        -- eexists. split; [done|]. apply ids_elem.
           exists q', m. split_and!; [|by apply lookup_app_l_Some|done].
           apply elem_of_app. by left.
      * set (k := (q - length (Queue.heap st))%nat) in *.
        assert (Hf : exists f, followers !! k = Some f /\
                       Notification.UserID n = User.ID f).
        { unfold Service.fanned in Hn. rewrite list_lookup_imap in Hn.
          destruct (followers !! k) as [f|]; [|done]. simpl in Hn.
          destruct (mint k). injection Hn as <-. by exists f. }
        destruct Hf as (f & Hk & ->).
        pose proof (pointers_for_intro (length (Queue.heap st)) followers k f Hk)
          as Hin.
        replace (length (Queue.heap st) + k)%nat with q in Hin by lia.
        destruct (Service.pointers_for _ _ followers) as [|a add] eqn:Hadd;
          [by apply elem_of_nil in Hin|].
        eexists. split; [done|]. apply ids_elem. exists q, n.
        split_and!; [by apply elem_of_app; right| |done].
        by rewrite lookup_app_r.
    + assert (Hp : p ∈ pending st).
      { unfold pending. rewrite Hbuf. by left. }
      destruct (lookup_lt_is_Some_2 _ _ (wf_alloc st Hwf p Hp)) as [n0 Hn0].
      eapply processNotification_effect in Hrun as (e & Hup & Hheap & _);
        [|exact Hn0].
      simpl in Hup, Hheap. rewrite Hheap. intros q n Hn.
      match type of Hup with
      | Store.UpdateNotification (<[p := ?x]> _) _ _ = _ => set (n' := x) in *
      end.
      assert (Hn' : <[p := n']> (Queue.heap st) !! p = Some n')
        by (apply list_lookup_insert_eq; by eapply lookup_lt_Some).
      assert (Hold : exists m, Queue.heap st !! q = Some m /\
                Notification.ID m = Notification.ID n /\
                Notification.UserID m = Notification.UserID n).
      { destruct (decide (q = p)) as [->|Hne].
        - rewrite Hn' in Hn. injection Hn as <-. by exists n0.
        - rewrite list_lookup_insert_ne in Hn by done. by exists n. }
      destruct Hold as (m & Hm & Hid & Huid).
      destruct (Hinv q m Hm) as (l & Hl & Hin). rewrite Huid in Hl.
      destruct (UpdateNotification_ids _ _ _ _ _ n' Hn' Hup _ l Hl)
        as (l' & Hl' & Hids).
      exists l'. split; [done|]. rewrite Hids.
      rewrite (ids_insert_same_id _ p n0 n') by done. by rewrite <- Hid.
    + simpl.
      assert (Queue.store q0 = Queue.store (Queue.nq st)) as ->; [|done].
      by apply QueueNotification_inv in Hrun as (_ & -> & _).
    + simpl.
      assert (Queue.store q0 = Queue.store (Queue.nq st)) as ->; [|done].
      revert Hrun. unfold Queue.Stop.
      destruct (Chan.close _); [|done]. by intros [= <-].
Qed.

End StoredFacts.

(** X19. In every state the process can reach, the pass of a worker on
    the head of the buffer returns whatever the coin, and the
    [UpdateNotification] inside it returns no error: the entry with
    the notification's ID is always found in its recipient's list. *)
Theorem worker_update_never_fails (st : Queue.State) (p : ptr) (rest : list ptr)
    (failed : bool) (d : time.Duration) :
  Pipeline.reachable st ->
  Chan.buf (Queue.queue (Queue.nq st)) = p :: rest ->
  exists st',
    Queue.processNotification
      (Queue.mkState (Queue.heap st)
         (Queue.set_queue (Queue.nq st)
            (Chan.mk rest (Chan.cap (Queue.queue (Queue.nq st)))
               (Chan.closed (Queue.queue (Queue.nq st)))))
         (Queue.sleepers st))
      p failed d = Some st' /\
    Store.UpdateNotification (Queue.heap st') (Queue.store (Queue.nq st)) p
      = Some (Queue.store (Queue.nq st'), None).
Proof.
  intros Hreach Hbuf.
  pose proof (reachable_wf st Hreach) as Hwf.
  destruct (worker_step_enabled st p rest failed d Hwf Hbuf) as (st' & _ & Hrun).
  exists st'. split; [done|].
  assert (Hp : p ∈ Pipeline.pending st).
  { unfold Pipeline.pending. rewrite Hbuf. by left. }
  destruct (lookup_lt_is_Some_2 _ _ (Pipeline.wf_alloc st Hwf p Hp)) as [n Hn].
  eapply processNotification_effect in Hrun as (e & Hup & Hheap & _); [|exact Hn].
  simpl in Hup, Hheap. rewrite Hheap.
  match type of Hup with
  | Store.UpdateNotification (<[p := ?x]> _) _ _ = _ => set (n' := x) in *
  end.
  destruct (stored_reachable st Hreach p n Hn) as (l & Hl & Hid).
  destruct (UpdateNotification_finds (<[p := n']> (Queue.heap st))
              (Queue.store (Queue.nq st)) p n' l) as [s' Hok].
  - apply list_lookup_insert_eq. by eapply lookup_lt_Some.
  - exact Hl.
  - intros q Hq. apply lookup_lt_is_Some. rewrite length_insert.
    by apply (Pipeline.wf_store st Hwf (Notification.UserID n) l).
  - by rewrite (ids_insert_same_id _ p n n').
  - rewrite Hok in Hup. injection Hup as <- <-. exact Hok.
Qed.

Lemma worker_update_never_fails_witness :
  exists st',
    Queue.processNotification
      (Queue.mkState (Queue.heap Demo.requeued)
         (Queue.set_queue (Queue.nq Demo.requeued)
            (Chan.mk [2%nat; 0%nat] 1000 false))
         (Queue.sleepers Demo.requeued))
      1%nat false 20000000 = Some st' /\
    Store.UpdateNotification (Queue.heap st') (Queue.store (Queue.nq Demo.requeued))
      1%nat = Some (Queue.store (Queue.nq st'), None).
Proof.
  apply (worker_update_never_fails Demo.requeued 1%nat [2%nat; 0%nat] false
           20000000 demo_requeued_reachable).
  vm_compute. reflexivity.
Defined.
